(** * SoundHaven server: a shallow embedding of [src/index.ts]

    The Express handlers of the SoundHaven backend are embedded as
    functions over an explicit world: the relational store behind the
    Prisma client, the trace of calls made to the upstream Spotify
    service, and the cookie operations attached to the response.
    Upstream answers, the clock and the random shuffle are inputs of a
    request. *)

From Stdlib Require Import String Ascii List Bool Arith ZArith Lia Permutation.
From Stdlib Require Import DecimalString.
Import ListNotations.

Open Scope string_scope.
Open Scope list_scope.

(* ================================================================== *)
(** * JavaScript values as the handlers use them *)
(* ================================================================== *)

Module JS.

(** [string | undefined]: a missing query parameter, cookie, header or
    body field is [None]. *)
Definition value := option string.

(** Truthiness of a [string | undefined]: [undefined] and the empty
    string are falsy. *)
Definition truthy (v : value) : bool :=
  match v with
  | Some (String _ _) => true
  | _ => false
  end.

(** [a === b] on [string | undefined]. *)
Definition strict_eq (a b : value) : bool :=
  match a, b with
  | None, None => true
  | Some x, Some y => String.eqb x y
  | _, _ => false
  end.

(** A value interpolated in a template literal or given to
    [URLSearchParams]: [undefined] prints as the word. *)
Definition to_string (v : value) : string :=
  match v with
  | Some s => s
  | None => "undefined"
  end.

(** [s.replace(pat, rep)] with a string pattern: the first occurrence
    only. *)
Fixpoint replace (pat rep s : string) : string :=
  if String.prefix pat s
  then rep ++ substring (String.length pat) (String.length s - String.length pat) s
  else match s with
       | EmptyString => EmptyString
       | String c s' => String c (replace pat rep s')
       end.

(** [s.split(" ")[1]]: the second space-separated field, if any. *)
Fixpoint split_on (sep : ascii) (cur : string) (s : string) : list string :=
  match s with
  | EmptyString => [cur]
  | String c s' =>
      if Ascii.eqb c sep then cur :: split_on sep EmptyString s'
      else split_on sep (cur ++ String c EmptyString) s'
  end.

Definition split_space (s : string) : list string := split_on " "%char EmptyString s.

(** [toLowerCase] on the ASCII letters.  The handlers compare the
    result with an ASCII word none of whose letters is the lower case
    of a character outside ASCII. *)
Definition lower_ascii (c : ascii) : ascii :=
  let n := nat_of_ascii c in
  if Nat.leb 65 n && Nat.leb n 90 then ascii_of_nat (n + 32) else c.

Fixpoint toLowerCase (s : string) : string :=
  match s with
  | EmptyString => EmptyString
  | String c s' => String (lower_ascii c) (toLowerCase s')
  end.

(** [URLSearchParams.prototype.toString]: the serializer of
    [application/x-www-form-urlencoded] over the UTF-8 bytes of the
    names and values. *)
Definition hex_digit (n : nat) : ascii :=
  ascii_of_nat (if Nat.ltb n 10 then 48 + n else 55 + n).

Definition unreserved (c : ascii) : bool :=
  let n := nat_of_ascii c in
  (Nat.leb 48 n && Nat.leb n 57) || (Nat.leb 65 n && Nat.leb n 90)
  || (Nat.leb 97 n && Nat.leb n 122)
  || Nat.eqb n 42 || Nat.eqb n 45 || Nat.eqb n 46 || Nat.eqb n 95.

Fixpoint urlencode (s : string) : string :=
  match s with
  | EmptyString => EmptyString
  | String c s' =>
      if unreserved c then String c (urlencode s')
      else if Ascii.eqb c " "%char then String "+"%char (urlencode s')
      else String "%"%char
             (String (hex_digit (nat_of_ascii c / 16))
                (String (hex_digit (nat_of_ascii c mod 16)) (urlencode s')))
  end.

Definition form_urlencoded (l : list (string * string)) : string :=
  String.concat "&" (map (fun kv => (urlencode (fst kv) ++ "=" ++ urlencode (snd kv))%string) l).

(** A number printed in a template literal. *)
Definition of_nat (n : nat) : string := NilEmpty.string_of_uint (Nat.to_uint n).

End JS.

(* ================================================================== *)
(** * The relational store ([prisma/schema.prisma], [prisma/migrations]) *)
(* ================================================================== *)

(** Generated [cuid()] keys are abstracted to the serial number of the
    generation; [autoincrement()] keys are serial numbers already.
    [DateTime] is milliseconds since the epoch. *)

Record DiscoveryLog := mkDiscoveryLog {
  dl_id : nat;
  dl_userId : string;
  dl_cardTitle : string;
  dl_trackUri : string;
  dl_added : bool;
  dl_createdAt : Z
}.

Record UserPlaylist := mkUserPlaylist {
  up_id : nat;
  up_userId : string;
  up_playlistId : string;
  up_createdAt : Z
}.

Record Card := mkCard {
  card_id : nat;
  card_title : string;
  card_artist : string;
  card_uri : string;
  card_img : string;
  card_cover : string;
  card_description : string
}.

Record DailyCard := mkDailyCard {
  dc_id : nat;
  dc_userId : string;
  dc_cardId : nat;
  dc_date : Z
}.

(** The four tables in row order, and the key generators. *)
Record Store := mkStore {
  discoveryLog : list DiscoveryLog;
  userPlaylist : list UserPlaylist;
  card : list Card;
  dailyCard : list DailyCard;
  next_cuid : nat;
  next_card_id : nat;
  next_daily_id : nat
}.

Definition empty_store : Store := mkStore [] [] [] [] 0 1 1.

(* ================================================================== *)
(** * The upstream service ([types/spotify.d.ts]) *)
(* ================================================================== *)

Record SpotifyUser := mkSpotifyUser {
  su_id : JS.value;               (* absent in an error payload *)
  su_display_name : JS.value;
  su_image_url : JS.value         (* images?.[0]?.url *)
}.

Record SpotifyPlaylist := mkSpotifyPlaylist {
  sp_id : string;
  sp_name : string
}.

Record SpotifyPlaylistsResponse := mkPlaylists {
  items : list SpotifyPlaylist;
  next : JS.value                 (* string | null *)
}.

Record SpotifyTokenResponse := mkToken {
  access_token : string;
  token_type : string;
  expires_in : Z;
  refresh_token : JS.value;       (* refresh_token?: string *)
  scope : string
}.

Record SpotifyErrorResponse := mkTokenError {
  error : string;
  error_description : JS.value
}.

(** What the token endpoint answers: one of the two declared payloads. *)
Inductive TokenPayload :=
| TokenData (t : SpotifyTokenResponse)
| TokenError (e : SpotifyErrorResponse).

(** [data.access_token] and [data.refresh_token] on either payload. *)
Definition payload_access_token (d : TokenPayload) : JS.value :=
  match d with
  | TokenData t => Some (access_token t)
  | TokenError _ => None
  end.

Definition payload_refresh_token (d : TokenPayload) : JS.value :=
  match d with
  | TokenData t => refresh_token t
  | TokenError _ => None
  end.

Definition payload_expires_in (d : TokenPayload) : option Z :=
  match d with
  | TokenData t => Some (expires_in t)
  | TokenError _ => None
  end.

(** The calls a handler makes to the upstream service. *)
Inductive Call :=
| PostToken (form : list (string * string))
| GetMe (token : string)
| GetPlaylist (token : string) (playlistId : string)
| GetPlaylists (token : string) (url : string)
| PostPlaylist (token : string) (userId : string) (name description : string) (public : bool)
| PostTracks (token : string) (playlistId : string) (uris : list string).

(** The answers of the upstream service during one request.  [None] is
    a [fetch] whose promise rejects, or whose body is not the declared
    payload so that the next use of it throws. *)
Record Upstream := mkUpstream {
  token_endpoint : list (string * string) -> option (bool * TokenPayload);
  me_endpoint : string -> option SpotifyUser;
  playlist_endpoint : string -> string -> option nat;
  playlists_endpoint : string -> string -> option SpotifyPlaylistsResponse;
  create_endpoint : string -> string -> option SpotifyPlaylist;
  tracks_endpoint : string -> string -> list string -> option (bool * JS.value)
}.

(* ================================================================== *)
(** * Responses, cookies and the world of a request *)
(* ================================================================== *)

Record CookieOptions := mkCookieOptions {
  httpOnly : bool;
  sameSite : string;
  secure : option bool;
  maxAge : option Z
}.

(** [res.cookie] and [res.clearCookie]. *)
Inductive CookieOp :=
| SetCookie (name : string) (val : JS.value) (opts : CookieOptions)
| ClearCookie (name : string) (opts : option CookieOptions).

(** The bodies the handlers send. *)
Inductive Body :=
| ReasonPhrase                                  (* of [sendStatus] *)
| Text (s : string)
| ErrorJson (msg : string)                      (* { error } *)
| MessageJson (msg : string)                    (* { message } *)
| UpstreamJson (data : TokenPayload)            (* the upstream body, verbatim *)
| TokenJson (access : JS.value) (expires : option Z) (* { access_token, expires_in } *)
| PlaylistIdJson (playlist_id : string)         (* { playlist_id } *)
| SuccessJson                                   (* { success: true } *)
| ExistsJson (b : bool)                         (* { exists } *)
| RecordedJson (msg : string) (id : nat)        (* { message, id } *)
| LogJson (l : DiscoveryLog)
| LogsJson (ls : list DiscoveryLog)
| CardsJson (cs : list Card)
| MeJson (userId : string) (avatarUrl displayName : JS.value).

Inductive Response :=
| Redirect (url : string)
| Send (status : nat) (body : Body).

Record World := mkWorld {
  db : Store;
  calls : list Call;        (* upstream calls, oldest first *)
  cookies : list CookieOp   (* cookie operations, oldest first *)
}.

Definition enter (st : Store) : World := mkWorld st [] [].

(** The cookie a browser holds under [name] after the operations of a
    response. *)
Fixpoint jar_after (name : string) (held : JS.value) (ops : list CookieOp) : JS.value :=
  match ops with
  | [] => held
  | SetCookie n v _ :: ops' =>
      jar_after name (if String.eqb n name then Some (JS.to_string v) else held) ops'
  | ClearCookie n _ :: ops' =>
      jar_after name (if String.eqb n name then None else held) ops'
  end.

(** ** The handler monad

    A step of a handler yields a value, sends the response and returns,
    throws, or is still looping when the fuel of the model runs out. *)

Inductive outcome (A : Type) :=
| Val (a : A)
| Done (r : Response)
| Thrown
| Spin.

Arguments Val {A} a.
Arguments Done {A} r.
Arguments Thrown {A}.
Arguments Spin {A}.

Definition M (A : Type) := World -> outcome A * World.

Definition ret {A} (a : A) : M A := fun w => (Val a, w).

Definition bind {A B} (m : M A) (k : A -> M B) : M B :=
  fun w =>
    match m w with
    | (Val a, w') => k a w'
    | (Done r, w') => (Done r, w')
    | (Thrown, w') => (Thrown, w')
    | (Spin, w') => (Spin, w')
    end.

Notation "x <- m ;; k" := (bind m (fun x => k))
  (at level 61, m at next level, right associativity).
Notation "m ;;; k" := (bind m (fun _ => k))
  (at level 61, right associativity).

(** [return res...] *)
Definition respond {A} (r : Response) : M A := fun w => (Done r, w).

Definition throw {A} : M A := fun w => (Thrown, w).

(** [try { body } catch (err) { handler }] *)
Definition try_catch {A} (body handler : M A) : M A :=
  fun w =>
    match body w with
    | (Thrown, w') => handler w'
    | r => r
    end.

Definition get_db : M Store := fun w => (Val (db w), w).

Definition put_db (st : Store) : M unit :=
  fun w => (Val tt, mkWorld st (calls w) (cookies w)).

Definition log_call (c : Call) : M unit :=
  fun w => (Val tt, mkWorld (db w) (calls w ++ [c]) (cookies w)).

Definition cookie_op (c : CookieOp) : M unit :=
  fun w => (Val tt, mkWorld (db w) (calls w) (cookies w ++ [c])).

(** [await fetch(...)] followed by the use of its payload. *)
Definition fetch {A} (c : Call) (answer : option A) : M A :=
  log_call c ;;;
  match answer with
  | Some a => ret a
  | None => throw
  end.

(** What the client observes of a handler run from a store. *)
Definition run {A} (m : M A) (st : Store) : option Response * World :=
  match m (enter st) with
  | (Done r, w) => (Some r, w)
  | (_, w) => (None, w)
  end.

(* ================================================================== *)
(** * The Prisma client, as far as the handlers call it *)
(* ================================================================== *)

(** Rows come back in table order where the query gives none.  A query
    the database rejects (a unique key, the foreign key of
    [DailyCard.cardId], a row to update or delete that is not there, an
    [undefined] unique key) throws.

    The tables are those of [prisma/migrations]: the unique indexes on
    [UserPlaylist.userId], [Card.uri] and [DailyCard (userId, cardId,
    date)], and one foreign key, [DailyCard.cardId] to [Card.id].  The
    relations that [schema.prisma] declares from [DiscoveryLog.userId]
    and [DailyCard.userId] to [UserPlaylist.userId] have no constraint
    in any migration, so nothing is checked on insert and nothing
    cascades on delete. *)

Module Prisma.

Definition set_discoveryLog (st : Store) (t : list DiscoveryLog) (n : nat) : Store :=
  mkStore t (userPlaylist st) (card st) (dailyCard st) n (next_card_id st) (next_daily_id st).

Definition set_userPlaylist (st : Store) (t : list UserPlaylist) (n : nat) : Store :=
  mkStore (discoveryLog st) t (card st) (dailyCard st) n (next_card_id st) (next_daily_id st).

Definition set_card (st : Store) (t : list Card) (n : nat) : Store :=
  mkStore (discoveryLog st) (userPlaylist st) t (dailyCard st) (next_cuid st) n (next_daily_id st).

Definition set_dailyCard (st : Store) (t : list DailyCard) (n : nat) : Store :=
  mkStore (discoveryLog st) (userPlaylist st) (card st) t (next_cuid st) (next_card_id st) n.

Definition owned_by (uid : string) (r : UserPlaylist) : bool := String.eqb (up_userId r) uid.

(** Whether the table holds a record of the user. *)
Definition has_playlist (st : Store) (uid : string) : bool :=
  existsb (owned_by uid) (userPlaylist st).

(** [userPlaylist.findUnique({ where: { userId } })] *)
Definition userPlaylist_findUnique (userId : JS.value) : M (option UserPlaylist) :=
  match userId with
  | None => throw
  | Some uid => st <- get_db ;; ret (find (owned_by uid) (userPlaylist st))
  end.

(** [userPlaylist.create({ data: { userId, playlistId } })] *)
Definition userPlaylist_create (now : Z) (userId : JS.value) (playlistId : string)
  : M UserPlaylist :=
  match userId with
  | None => throw
  | Some uid =>
      st <- get_db ;;
      if has_playlist st uid then throw
      else
        let r := mkUserPlaylist (next_cuid st) uid playlistId now in
        put_db (set_userPlaylist st (userPlaylist st ++ [r]) (S (next_cuid st))) ;;;
        ret r
  end.

(** [userPlaylist.delete({ where: { userId } })] *)
Definition userPlaylist_delete (userId : JS.value) : M unit :=
  match userId with
  | None => throw
  | Some uid =>
      st <- get_db ;;
      if has_playlist st uid then
        put_db (set_userPlaylist st
                  (filter (fun r => negb (owned_by uid r)) (userPlaylist st))
                  (next_cuid st))
      else throw
  end.

Definition same_pair (uid uri : string) (l : DiscoveryLog) : bool :=
  String.eqb (dl_userId l) uid && String.eqb (dl_trackUri l) uri.

(** [discoveryLog.findFirst({ where: { userId, trackUri } })] *)
Definition discoveryLog_findFirst (uid uri : string) : M (option DiscoveryLog) :=
  st <- get_db ;; ret (find (same_pair uid uri) (discoveryLog st)).

(** [discoveryLog.create({ data: { userId, cardTitle, trackUri, added } })] *)
Definition discoveryLog_create (now : Z) (uid title uri : string) (added : bool)
  : M DiscoveryLog :=
  st <- get_db ;;
  let l := mkDiscoveryLog (next_cuid st) uid title uri added now in
  put_db (set_discoveryLog st (discoveryLog st ++ [l]) (S (next_cuid st))) ;;;
  ret l.

Definition mark (id : nat) (l : DiscoveryLog) : DiscoveryLog :=
  if Nat.eqb (dl_id l) id
  then mkDiscoveryLog (dl_id l) (dl_userId l) (dl_cardTitle l) (dl_trackUri l) true (dl_createdAt l)
  else l.

(** [discoveryLog.update({ where: { id }, data: { added: true } })] *)
Definition discoveryLog_update_added (id : nat) : M DiscoveryLog :=
  st <- get_db ;;
  match find (fun l => Nat.eqb (dl_id l) id) (discoveryLog st) with
  | None => throw
  | Some l =>
      put_db (set_discoveryLog st (map (mark id) (discoveryLog st)) (next_cuid st)) ;;;
      ret (mark id l)
  end.

(** Stable insertion by a key, for [orderBy]. *)
Fixpoint insert_by {A} (before : A -> A -> bool) (x : A) (l : list A) : list A :=
  match l with
  | [] => [x]
  | y :: l' => if before y x then y :: insert_by before x l' else x :: l
  end.

Definition order_by {A} (before : A -> A -> bool) (l : list A) : list A :=
  fold_left (fun acc x => insert_by before x acc) l [].

(** [discoveryLog.findMany({ where: { userId }, orderBy: { createdAt: "desc" } })] *)
Definition discoveryLog_findMany_desc (uid : string) : M (list DiscoveryLog) :=
  st <- get_db ;;
  ret (order_by (fun a b => Z.leb (dl_createdAt b) (dl_createdAt a))
         (filter (fun l => String.eqb (dl_userId l) uid) (discoveryLog st))).

(** [discoveryLog.findFirst({ where: { userId, createdAt: { gte, lt } },
    orderBy: { createdAt: "asc" } })] *)
Definition discoveryLog_findFirst_between (uid : string) (gte lt : Z)
  : M (option DiscoveryLog) :=
  st <- get_db ;;
  ret (hd_error
         (order_by (fun a b => Z.leb (dl_createdAt a) (dl_createdAt b))
            (filter (fun l => String.eqb (dl_userId l) uid
                              && Z.leb gte (dl_createdAt l) && Z.ltb (dl_createdAt l) lt)
               (discoveryLog st)))).

(** [discoveryLog.findMany({ where: { userId }, select: { trackUri: true } })],
    already mapped to the uris. *)
Definition discoveryLog_trackUris (uid : string) : M (list string) :=
  st <- get_db ;;
  ret (map dl_trackUri (filter (fun l => String.eqb (dl_userId l) uid) (discoveryLog st))).

(** [card.findMany()] *)
Definition card_findMany : M (list Card) :=
  st <- get_db ;; ret (card st).

Definition mem_string (s : string) (l : list string) : bool := existsb (String.eqb s) l.

(** [card.findMany({ where: { uri: { notIn } } })] *)
Definition card_findMany_notIn (seen : list string) : M (list Card) :=
  st <- get_db ;; ret (filter (fun c => negb (mem_string (card_uri c) seen)) (card st)).

(** [card.upsert({ where: { uri }, update: {}, create })]; the [id] of
    [create] is ignored and generated. *)
Definition card_upsert (c : Card) : M unit :=
  st <- get_db ;;
  if existsb (fun c' => String.eqb (card_uri c') (card_uri c)) (card st) then ret tt
  else
    let row := mkCard (next_card_id st) (card_title c) (card_artist c) (card_uri c)
                 (card_img c) (card_cover c) (card_description c) in
    put_db (set_card st (card st ++ [row]) (S (next_card_id st))).

Definition in_day (uid : string) (gte lt : Z) (d : DailyCard) : bool :=
  String.eqb (dc_userId d) uid && Z.leb gte (dc_date d) && Z.ltb (dc_date d) lt.

Definition card_of (st : Store) (id : nat) : option Card :=
  find (fun c => Nat.eqb (card_id c) id) (card st).

(** The [include: { card: true }] of a required relation. *)
Fixpoint include_card (st : Store) (rows : list DailyCard) : option (list (DailyCard * Card)) :=
  match rows with
  | [] => Some []
  | d :: rows' =>
      match card_of st (dc_cardId d), include_card st rows' with
      | Some c, Some rest => Some ((d, c) :: rest)
      | _, _ => None
      end
  end.

(** [dailyCard.findMany({ where: { userId, date: { gte, lt } },
    include: { card: true } })] *)
Definition dailyCard_findMany (uid : string) (gte lt : Z) : M (list (DailyCard * Card)) :=
  st <- get_db ;;
  match include_card st (filter (in_day uid gte lt) (dailyCard st)) with
  | Some rows => ret rows
  | None => throw
  end.

Definition same_assignment (uid : string) (cid : nat) (date : Z) (d : DailyCard) : bool :=
  String.eqb (dc_userId d) uid && Nat.eqb (dc_cardId d) cid && Z.eqb (dc_date d) date.

(** One row of a [createMany] against the rows before it: the unique
    key [(userId, cardId, date)] and the foreign key to [Card]. *)
Definition insert_daily (st : Store) (acc : option (list DailyCard * nat))
  (row : string * nat * Z) : option (list DailyCard * nat) :=
  match acc with
  | None => None
  | Some (t, n) =>
      let '(uid, cid, date) := row in
      if existsb (same_assignment uid cid date) t then None
      else match card_of st cid with
           | None => None
           | Some _ => Some (t ++ [mkDailyCard n uid cid date], S n)
           end
  end.

(** [dailyCard.createMany({ data })]: all the rows or none. *)
Definition dailyCard_createMany (data : list (string * nat * Z)) : M unit :=
  st <- get_db ;;
  match fold_left (insert_daily st) data (Some (dailyCard st, next_daily_id st)) with
  | Some (t, n) => put_db (set_dailyCard st t n)
  | None => throw
  end.

End Prisma.

(* ================================================================== *)
(** * Requests and configuration *)
(* ================================================================== *)

(** [process.env], checked non-empty at start-up. *)
Record Config := mkConfig {
  SPOTIFY_CLIENT_ID : string;
  SPOTIFY_CLIENT_SECRET : string;
  SPOTIFY_REDIRECT_URI : string;
  CLIENT_URL : string;
  CLIENT_VERCEL_URL : string;
  COOKIE_SECRET : string;
  NODE_ENV : JS.value
}.

(** What a handler reads of [req].  Query parameters, cookies and the
    fields of the body are strings, as the handlers type them
    ([Record<string, string>], [as string]). *)
Record Request := mkRequest {
  req_query : list (string * string);
  req_cookies : list (string * string);
  req_authorization : JS.value;          (* req.headers.authorization *)
  req_body : list (string * string);     (* the string fields of the JSON body *)
  req_added : option bool                (* req.body.added *)
}.

Fixpoint field (k : string) (l : list (string * string)) : JS.value :=
  match l with
  | [] => None
  | (k', v) :: l' => if String.eqb k' k then Some v else field k l'
  end.

Definition day_ms : Z := 86400000.

(** [new Date(Date.UTC(y, m, d))] of the current instant. *)
Definition utc_midnight (now : Z) : Z := (now / day_ms) * day_ms.

Definition managed_name : string := "SoundHaven".

Definition is_managed (p : SpotifyPlaylist) : bool := String.eqb (sp_name p) managed_name.

(** [res.sendStatus(code)]: the status with its reason phrase. *)
Definition sendStatus {A} (code : nat) : M A := respond (Send code ReasonPhrase).

(** [res.status(code).json(body)] and [res.json(body)]. *)
Definition json {A} (code : nat) (b : Body) : M A := respond (Send code b).

(* ================================================================== *)
(** * The handlers of [src/index.ts] *)
(* ================================================================== *)

Section Handlers.

Variable cfg : Config.

Local Open Scope string_scope.

Definition refresh_cookie_options : CookieOptions :=
  mkCookieOptions true "lax"
    (Some (JS.strict_eq (NODE_ENV cfg) (Some "production")))
    (Some (30 * 24 * 60 * 60 * 1000)%Z).

Definition scopes : string :=
  "user-read-playback-state user-modify-playback-state playlist-modify-public playlist-modify-private streaming".

(** [GET /api/auth/login]; [state] is the value of [generateState()]. *)
Definition authorize_params (state : string) : list (string * string) :=
  [ ("client_id", SPOTIFY_CLIENT_ID cfg);
    ("response_type", "code");
    ("redirect_uri", SPOTIFY_REDIRECT_URI cfg);
    ("scope", scopes);
    ("state", state);
    ("show_dialog", "true") ].

Definition auth_login (state : string) : M unit :=
  cookie_op (SetCookie "spotify_state" (Some state)
               (mkCookieOptions true "lax" None (Some (10 * 60 * 1000)%Z))) ;;;
  respond (Redirect ("https://accounts.spotify.com/authorize?"
                     ++ JS.form_urlencoded (authorize_params state))).

(** The [URLSearchParams] of the two token requests; a call to the
    token endpoint is recorded with its form before serialisation. *)
Definition code_form (code : JS.value) : list (string * string) :=
  [ ("grant_type", "authorization_code");
    ("code", JS.to_string code);
    ("redirect_uri", SPOTIFY_REDIRECT_URI cfg);
    ("client_id", SPOTIFY_CLIENT_ID cfg);
    ("client_secret", SPOTIFY_CLIENT_SECRET cfg) ].

Definition refresh_form (refresh_token : JS.value) : list (string * string) :=
  [ ("grant_type", "refresh_token");
    ("refresh_token", JS.to_string refresh_token);
    ("client_id", SPOTIFY_CLIENT_ID cfg);
    ("client_secret", SPOTIFY_CLIENT_SECRET cfg) ].

(** [GET /api/auth/callback] *)
Definition auth_callback (up : Upstream) (req : Request) : M unit :=
  let code := field "code" (req_query req) in
  let state := field "state" (req_query req) in
  let error := field "error" (req_query req) in
  let storedState := field "spotify_state" (req_cookies req) in
  if JS.strict_eq error (Some "access_denied") then
    respond (Redirect (CLIENT_URL cfg ++ "/login?error=access_denied"))
  else if negb (JS.truthy state) || negb (JS.strict_eq state storedState) then
    respond (Send 400 (Text "State mismatch"))
  else
    cookie_op (ClearCookie "spotify_state" None) ;;;
    let body := code_form code in
    try_catch
      (tokenRes <- fetch (PostToken body) (token_endpoint up body) ;;
       let '(ok, data) := tokenRes in
       if negb ok || negb (JS.truthy (payload_access_token data)) then
         respond (Redirect (CLIENT_URL cfg ++ "/login?error=invalid_code"))
       else
         cookie_op (SetCookie "refresh_token" (payload_refresh_token data)
                      refresh_cookie_options) ;;;
         respond (Redirect (CLIENT_URL cfg ++ "/cards?access_token="
                            ++ JS.to_string (payload_access_token data))))
      (respond (Send 500 (Text "Error retrieving tokens"))).

(** [GET /api/auth/refresh] *)
Definition auth_refresh (up : Upstream) (req : Request) : M unit :=
  let refresh_token := field "refresh_token" (req_cookies req) in
  if negb (JS.truthy refresh_token) then sendStatus 401
  else
    let body := refresh_form refresh_token in
    try_catch
      (tokenRes <- fetch (PostToken body) (token_endpoint up body) ;;
       let '(ok, data) := tokenRes in
       if negb ok || negb (JS.truthy (payload_access_token data)) then
         json 400 (UpstreamJson data)
       else
         (if JS.truthy (payload_refresh_token data) then
            cookie_op (SetCookie "refresh_token" (payload_refresh_token data)
                         refresh_cookie_options)
          else ret tt) ;;;
         json 200 (TokenJson (payload_access_token data) (payload_expires_in data)))
      (respond (Send 500 (Text "Error refreshing token"))).

(** [POST /api/auth/logout] *)
Definition auth_logout : M unit :=
  cookie_op (ClearCookie "refresh_token"
               (Some (mkCookieOptions true "lax"
                        (Some (JS.strict_eq (NODE_ENV cfg) (Some "production"))) None))) ;;;
  sendStatus 204.

Definition bearer (auth : string) : string := JS.replace "Bearer " "" auth.

(** [POST /api/playlist/create] *)
Definition playlist_create (up : Upstream) (now : Z) (req : Request) : M unit :=
  match req_authorization req with
  | None | Some EmptyString => json 401 (ErrorJson "No token")
  | Some auth =>
      let token := bearer auth in
      try_catch
        (user <- fetch (GetMe token) (me_endpoint up token) ;;
         record <- Prisma.userPlaylist_findUnique (su_id user) ;;
         match record with
         | Some r => json 200 (PlaylistIdJson (up_playlistId r))
         | None =>
             playlist <- fetch
               (PostPlaylist token (JS.to_string (su_id user)) managed_name
                  "Playlist automatically generated by SoundHaven" false)
               (create_endpoint up token (JS.to_string (su_id user))) ;;
             Prisma.userPlaylist_create now (su_id user) (sp_id playlist) ;;;
             json 200 (PlaylistIdJson (sp_id playlist))
         end)
        (json 500 (ErrorJson "Error creando playlist"))
  end.

(** [POST /api/playlist/add] *)
Definition playlist_add (up : Upstream) (req : Request) : M unit :=
  let uri := field "uri" (req_body req) in
  if negb (JS.truthy (req_authorization req)) || negb (JS.truthy uri) then
    json 400 (ErrorJson "Faltan datos")
  else
    let token := bearer (JS.to_string (req_authorization req)) in
    try_catch
      (user <- fetch (GetMe token) (me_endpoint up token) ;;
       record <- Prisma.userPlaylist_findUnique (su_id user) ;;
       match record with
       | None => json 404 (ErrorJson "Playlist no encontrada")
       | Some r =>
           addRes <- fetch (PostTracks token (up_playlistId r) [JS.to_string uri])
                       (tracks_endpoint up token (up_playlistId r) [JS.to_string uri]) ;;
           if negb (fst addRes) then throw
           else json 200 SuccessJson
       end)
      (json 500 (ErrorJson "Error al añadir canción")).

(** The [while (nextUrl && !exists)] loop of [GET /api/playlist/exists];
    its value is the final [exists]. *)
Fixpoint exists_loop (fuel : nat) (up : Upstream) (now : Z) (token : string)
  (userId : JS.value) (nextUrl : JS.value) (exists_ : bool) : M bool :=
  if JS.truthy nextUrl && negb exists_ then
    match fuel with
    | O => fun w => (Spin, w)
    | S fuel' =>
        data <- fetch (GetPlaylists token (JS.to_string nextUrl))
                  (playlists_endpoint up token (JS.to_string nextUrl)) ;;
        if existsb is_managed (items data) then
          match find is_managed (items data) with
          | Some playlist =>
              Prisma.userPlaylist_create now userId (sp_id playlist) ;;; ret true
          | None => ret true
          end
        else exists_loop fuel' up now token userId (next data) false
    end
  else ret exists_.

Definition playlists_url : string := "https://api.spotify.com/v1/me/playlists?limit=50".

(** [GET /api/playlist/exists] *)
Definition playlist_exists (fuel : nat) (up : Upstream) (now : Z) (req : Request) : M unit :=
  match req_authorization req with
  | None | Some EmptyString => json 401 (ErrorJson "Falta token")
  | Some auth =>
      let token := bearer auth in
      try_catch
        (user <- fetch (GetMe token) (me_endpoint up token) ;;
         record <- Prisma.userPlaylist_findUnique (su_id user) ;;
         match record with
         | Some r =>
             checkRes <- fetch (GetPlaylist token (up_playlistId r))
                           (playlist_endpoint up token (up_playlistId r)) ;;
             if Nat.eqb checkRes 200 then json 200 (ExistsJson true)
             else Prisma.userPlaylist_delete (su_id user)
         | None => ret tt
         end ;;;
         exists_ <- exists_loop fuel up now token (su_id user) (Some playlists_url) false ;;
         json 200 (ExistsJson exists_))
        (json 500 (ErrorJson "Error interno"))
  end.

(** [POST /api/discovery] *)
Definition discovery (now : Z) (req : Request) : M unit :=
  let userId := field "userId" (req_body req) in
  let cardTitle := field "cardTitle" (req_body req) in
  let trackUri := field "trackUri" (req_body req) in
  let added := req_added req in
  if negb (JS.truthy userId) || negb (JS.truthy cardTitle) || negb (JS.truthy trackUri) then
    json 400 (ErrorJson "Faltan datos obligatorios")
  else
    try_catch
      (exists_ <- Prisma.discoveryLog_findFirst (JS.to_string userId) (JS.to_string trackUri) ;;
       match exists_ with
       | Some e => json 200 (RecordedJson "Ya registrado" (dl_id e))
       | None =>
           log <- Prisma.discoveryLog_create now (JS.to_string userId)
                    (JS.to_string cardTitle) (JS.to_string trackUri)
                    (match added with Some b => b | None => false end) ;;
           json 200 (LogJson log)
       end)
      (json 500 (ErrorJson "Error interno al registrar")).

(** [POST /api/discovery/mark-as-added] *)
Definition discovery_mark_as_added (req : Request) : M unit :=
  let userId := field "userId" (req_body req) in
  let trackUri := field "trackUri" (req_body req) in
  if negb (JS.truthy userId) || negb (JS.truthy trackUri) then
    json 400 (ErrorJson "Faltan datos obligatorios")
  else
    try_catch
      (existing <- Prisma.discoveryLog_findFirst (JS.to_string userId) (JS.to_string trackUri) ;;
       match existing with
       | None => json 404 (ErrorJson "No se encontró el DiscoveryLog")
       | Some e =>
           if negb (dl_added e) then
             updated <- Prisma.discoveryLog_update_added (dl_id e) ;;
             json 200 (LogJson updated)
           else json 200 (MessageJson "Ya estaba marcado como añadido")
       end)
      (json 500 (ErrorJson "Error interno")).

(** [GET /api/discovery/all] *)
Definition discovery_all (req : Request) : M unit :=
  let userId := field "userId" (req_query req) in
  if negb (JS.truthy userId) then json 400 (ErrorJson "Falta userId")
  else
    try_catch
      (logs <- Prisma.discoveryLog_findMany_desc (JS.to_string userId) ;;
       json 200 (LogsJson logs))
      (json 500 (ErrorJson "Error interno")).

(** [GET /api/me] *)
Definition me (up : Upstream) (req : Request) : M unit :=
  let token :=
    match req_authorization req with
    | Some auth => nth_error (JS.split_space auth) 1
    | None => None
    end in
  if negb (JS.truthy token) then json 401 (ErrorJson "Token faltante")
  else
    try_catch
      (data <- fetch (GetMe (JS.to_string token)) (me_endpoint up (JS.to_string token)) ;;
       if negb (JS.truthy (su_id data)) then
         json 500 (ErrorJson "No se pudo obtener userId")
       else
         json 200 (MeJson (JS.to_string (su_id data)) (su_image_url data) (su_display_name data)))
      (json 500 (ErrorJson "Error interno")).

(** [GET /api/cards] *)
Definition cards : M unit :=
  try_catch
    (cs <- Prisma.card_findMany ;; json 200 (CardsJson cs))
    (json 500 (ErrorJson "Error interno del servidor")).

(** [GET /api/cards/daily].  [shuffle] is what
    [sort(() => 0.5 - Math.random())] does to the candidates in this
    request. *)
Definition cards_daily (now : Z) (shuffle : list Card -> list Card) (req : Request) : M unit :=
  let userId := field "userId" (req_query req) in
  if negb (JS.truthy userId) then json 400 (ErrorJson "Falta userId")
  else
    let start := utc_midnight now in
    let end_ := (start + day_ms)%Z in
    try_catch
      (daily <- Prisma.dailyCard_findMany (JS.to_string userId) start end_ ;;
       daily' <-
         (if Nat.eqb (List.length daily) 0 then
            seenUris <- Prisma.discoveryLog_trackUris (JS.to_string userId) ;;
            pool <- Prisma.card_findMany_notIn seenUris ;;
            candidates <- (if Nat.leb 3 (List.length pool) then ret pool
                           else Prisma.card_findMany) ;;
            let selected := firstn 3 (shuffle candidates) in
            Prisma.dailyCard_createMany
              (map (fun c => (JS.to_string userId, card_id c, start)) selected) ;;;
            ret selected
          else ret (map snd daily)) ;;
       json 200 (CardsJson daily'))
      (json 500 (ErrorJson "Error interno")).

Definition dummyCard (img title artist uri cover description : string) : Card :=
  mkCard 0 title artist uri img cover description.

Definition dummyCards : list Card :=
  [ dummyCard "/art/art1.png" "Farewell Transmission" "Songs: Ohia"
      "spotify:track:5Plx6OhvSukqCRdZ52wUXz" "/art/magnoliaElectricCo.png"
      "A painting by Gustave Courbet";
    dummyCard "/art/casca.jpg" "Archangel" "Burial"
      "spotify:track:6evpAJCR5GeeHDGgv3aXb3" "/art/cover1.png"
      "From the movie Spirited Away";
    dummyCard "/art/art3.png" "Pagan Poetry" "Björk"
      "spotify:track:3Te7GWFEecCGPpkWVTjJ1h" "/art/vespertine.png"
      "From the animated series Love, Death & Robots";
    dummyCard "/art/bladeRunner.png" "Welcome to the Machine" "Pink Floyd"
      "spotify:track:5VWC7v2dC2K0SIIjT9WTLN" "/art/wishYouWereHere.png"
      "From the movie Blade Runner";
    dummyCard "/art/bloodborne.jpg" "De Profundis (Psalm 129)" "Arvo Pärt"
      "spotify:track:3L45cLjU7ts5FdQoJrZzQU" "/art/DeProfundis.jpg"
      "From the videogame Bloodborne";
    dummyCard "/art/goya1.jpg" "Black Refraction" "Tim Hecker"
      "spotify:track:4FTPWFrUzsZUYvIC1VSBxU" "/art/virgins.png"
      "A painting by Francisco de Goya";
    dummyCard "/art/francisBacon.png" "Guest House" "Daughers"
      "spotify:track:1rUxy9ClbnIh3MTsRe00ma" "/art/daughters.png"
      "A painting by Francis Bacon";
    dummyCard "/art/silco.png" "Amethyst" "Deafheaven"
      "spotify:track:3zdMs3UPyhMUCmXOsbFzQ7" "/art/lonelyPeopleWithPower.png"
      "From the animated series Arcane";
    dummyCard "/art/theTrumpeter.png" "Homecoming" "White Ward"
      "spotify:track:63rCFnepqiq0tFKP6hrGsx" "/art/homecoming.png"
      "A painting by Zdzisław Beksiński";
    dummyCard "/art/bigfish.png" "Casimir Pulaski Day" "Sufjan Stevens"
      "spotify:track:53TIOhzNpRpl8xKdscSQSv" "/art/illinoise.png"
      "From the movie Big Fish";
    dummyCard "/art/deathnote1.jpg" "Crime of the Century" "Supertramp"
      "spotify:track:0uOUe1nR390nT5Sxvc5FH7" "/art/crime.png"
      "From the anime Death Note" ].

(** The [for (const card of dummyCards) await prisma.card.upsert(...)]. *)
Fixpoint upsert_all (cs : list Card) : M unit :=
  match cs with
  | [] => ret tt
  | c :: cs' => Prisma.card_upsert c ;;; upsert_all cs'
  end.

(** [POST /api/cards/seed] *)
Definition cards_seed : M unit :=
  try_catch
    (upsert_all dummyCards ;;; json 200 SuccessJson)
    (json 500 (ErrorJson "Error insertando cartas")).

(** [GET /api/discovery/today]; the handler has no [try]. *)
Definition discovery_today (now : Z) (req : Request) : M unit :=
  let userId := field "userId" (req_query req) in
  if negb (JS.truthy userId) then json 400 (ErrorJson "Falta userId")
  else
    let start := utc_midnight now in
    let end_ := (start + day_ms)%Z in
    log <- Prisma.discoveryLog_findFirst_between (JS.to_string userId) start end_ ;;
    match log with
    | None => sendStatus 404
    | Some l => json 200 (LogJson l)
    end.

(** ** The routes *)

Inductive Route :=
| GET_auth_login (state : string)
| GET_auth_callback
| GET_auth_refresh
| POST_auth_logout
| POST_playlist_create
| POST_playlist_add
| GET_playlist_exists
| POST_discovery
| POST_discovery_mark_as_added
| GET_discovery_all
| GET_me
| GET_cards
| GET_cards_daily
| POST_cards_seed
| GET_discovery_today.

(** What one request brings besides [req]: the answers of the upstream
    service, the clock, the shuffle, and the fuel of the model. *)
Record Ambient := mkAmbient {
  amb_upstream : Upstream;
  amb_now : Z;
  amb_shuffle : list Card -> list Card;
  amb_fuel : nat
}.

Definition handler (a : Ambient) (r : Route) (req : Request) : M unit :=
  match r with
  | GET_auth_login state => auth_login state
  | GET_auth_callback => auth_callback (amb_upstream a) req
  | GET_auth_refresh => auth_refresh (amb_upstream a) req
  | POST_auth_logout => auth_logout
  | POST_playlist_create => playlist_create (amb_upstream a) (amb_now a) req
  | POST_playlist_add => playlist_add (amb_upstream a) req
  | GET_playlist_exists => playlist_exists (amb_fuel a) (amb_upstream a) (amb_now a) req
  | POST_discovery => discovery (amb_now a) req
  | POST_discovery_mark_as_added => discovery_mark_as_added req
  | GET_discovery_all => discovery_all req
  | GET_me => me (amb_upstream a) req
  | GET_cards => cards
  | GET_cards_daily => cards_daily (amb_now a) (amb_shuffle a) req
  | POST_cards_seed => cards_seed
  | GET_discovery_today => discovery_today (amb_now a) req
  end.

(** The store after a request. *)
Definition serve (a : Ambient) (r : Route) (req : Request) (st : Store) : Store :=
  db (snd (run (handler a r req) st)).

(** ** The store-less server of [server/src/index.ts]: [getOrCreatePlaylist] *)

Definition legacy_url (offset : nat) : string :=
  "https://api.spotify.com/v1/me/playlists?limit=50&offset=" ++ JS.of_nat offset.

Definition is_managed_ci (p : SpotifyPlaylist) : bool :=
  String.eqb (JS.toLowerCase (sp_name p)) "soundhaven".

(** The [while (true)] loop: [Some id] is [return match.id], [None] is
    [break]. *)
Fixpoint getOrCreatePlaylist_loop (fuel : nat) (up : Upstream) (token : string)
  (offset : nat) : M (option string) :=
  match fuel with
  | O => fun w => (Spin, w)
  | S fuel' =>
      playlistsData <- fetch (GetPlaylists token (legacy_url offset))
                         (playlists_endpoint up token (legacy_url offset)) ;;
      match find is_managed_ci (items playlistsData) with
      | Some m => ret (Some (sp_id m))
      | None =>
          if negb (JS.truthy (next playlistsData)) then ret None
          else getOrCreatePlaylist_loop fuel' up token (offset + 50)
      end
  end.

Definition getOrCreatePlaylist (fuel : nat) (up : Upstream) (token : string) : M string :=
  userData <- fetch (GetMe token) (me_endpoint up token) ;;
  let userId := su_id userData in
  found <- getOrCreatePlaylist_loop fuel up token 0 ;;
  match found with
  | Some id => ret id
  | None =>
      newPlaylist <- fetch
        (PostPlaylist token (JS.to_string userId) "SoundHaven"
           "Playlist generada automáticamente por SoundHaven" false)
        (create_endpoint up token (JS.to_string userId)) ;;
      ret (sp_id newPlaylist)
  end.

(** [POST /api/playlist/create] of the store-less server. *)
Definition legacy_playlist_create (fuel : nat) (up : Upstream) (req : Request) : M unit :=
  match req_authorization req with
  | None | Some EmptyString => json 401 (ErrorJson "No token")
  | Some auth =>
      let token := bearer auth in
      try_catch
        (playlistId <- getOrCreatePlaylist fuel up token ;;
         json 200 (PlaylistIdJson playlistId))
        (json 500 (ErrorJson "Error creando la playlist"))
  end.

End Handlers.


(* ================================================================== *)
(** * Vocabulary of the statements *)
(* ================================================================== *)

(** The response sets the [refresh_token] cookie. *)
Definition reissues_refresh_cookie (w : World) : Prop :=
  exists v o, In (SetCookie "refresh_token" v o) (cookies w).

(** The upstream payload has a [refresh_token] field. *)
Definition has_refresh_token_field (d : TokenPayload) : Prop :=
  payload_refresh_token d <> None.

(** ** Invariants of the store *)

Definition daily_key (d : DailyCard) : string * nat * Z :=
  (dc_userId d, dc_cardId d, dc_date d).

(** The keys of the tables, and the two invariants the handlers keep
    themselves: one entry per [(userId, trackUri)], and assignments
    dated at UTC midnight. *)
Record wf_store (st : Store) : Prop := mk_wf_store {
  wf_log_ids : NoDup (map dl_id (discoveryLog st));
  wf_log_fresh : forall l, In l (discoveryLog st) -> dl_id l < next_cuid st;
  wf_log_pair : forall uid uri,
    List.length (filter (Prisma.same_pair uid uri) (discoveryLog st)) <= 1;
  wf_playlist_user : NoDup (map up_userId (userPlaylist st));
  wf_card_ids : NoDup (map card_id (card st));
  wf_card_fresh : forall c, In c (card st) -> card_id c < next_card_id st;
  wf_card_uri : NoDup (map card_uri (card st));
  wf_daily_key : NoDup (map daily_key (dailyCard st));
  wf_daily_card : forall d, In d (dailyCard st) -> Prisma.card_of st (dc_cardId d) <> None;
  wf_daily_midnight : forall d, In d (dailyCard st) -> utc_midnight (dc_date d) = dc_date d
}.


(** How the discovery log may change: keys are never reused, and an
    entry that stays keeps [added] once it is set. *)
Definition log_evolves (st st' : Store) : Prop :=
  next_cuid st <= next_cuid st'
  /\ forall l', In l' (discoveryLog st') ->
       next_cuid st <= dl_id l'
       \/ exists l, In l (discoveryLog st) /\ dl_id l = dl_id l'
                    /\ (dl_added l = true -> dl_added l' = true).

(** A handler step relates the store before to the store after. *)
Definition respects (R : Store -> Store -> Prop) {A} (m : M A) : Prop :=
  forall w, R (db w) (db (snd (m w))).

Definition readonly {A} (m : M A) : Prop :=
  forall w, db (snd (m w)) = db w.


(** The rows a [createMany] appends when the database accepts it. *)
Fixpoint rows_from (n : nat) (data : list (string * nat * Z)) : list DailyCard :=
  match data with
  | [] => []
  | (uid, cid, date) :: rest => mkDailyCard n uid cid date :: rows_from (S n) rest
  end.

(** The entry id a response of [POST /api/discovery] carries. *)
Definition recorded_id (r : option Response) : option nat :=
  match r with
  | Some (Send 200 (LogJson l)) => Some (dl_id l)
  | Some (Send 200 (RecordedJson _ id)) => Some id
  | _ => None
  end.

(** The rows of [DiscoveryLog] for a pair. *)
Definition entries_for (st : Store) (uid uri : string) : list DiscoveryLog :=
  filter (Prisma.same_pair uid uri) (discoveryLog st).

(** A body of [POST /api/discovery] that passes the check of its fields. *)
Definition discovery_body (req : Request) (uid uri : string) : Prop :=
  field "userId" (req_body req) = Some uid
  /\ field "trackUri" (req_body req) = Some uri
  /\ uid <> "" /\ uri <> ""
  /\ JS.truthy (field "cardTitle" (req_body req)) = true.

(** A body of [POST /api/discovery/mark-as-added] that passes the check
    of its fields. *)
Definition mark_body (req : Request) (uid uri : string) : Prop :=
  field "userId" (req_body req) = Some uid
  /\ field "trackUri" (req_body req) = Some uri
  /\ uid <> "" /\ uri <> "".

(** The assignments of a user for the UTC day of [now]. *)
Definition assignments (st : Store) (uid : string) (now : Z) : list DailyCard :=
  filter (Prisma.in_day uid (utc_midnight now) (utc_midnight now + day_ms)) (dailyCard st).

(** A query of [GET /api/cards/daily] that passes the check of [userId]. *)
Definition daily_query (req : Request) (uid : string) : Prop :=
  field "userId" (req_query req) = Some uid /\ uid <> "".

(** The user's discovery history, and the cards outside it. *)
Definition history (st : Store) (uid : string) : list DiscoveryLog :=
  filter (fun l => String.eqb (dl_userId l) uid) (discoveryLog st).

Definition unseen (st : Store) (uid : string) : list Card :=
  filter (fun c => negb (Prisma.mem_string (card_uri c) (map dl_trackUri (history st uid))))
    (card st).

(** [pool.length >= 3 ? pool : await prisma.card.findMany()] *)
Definition daily_candidates (st : Store) (uid : string) : list Card :=
  if Nat.leb 3 (List.length (unseen st uid)) then unseen st uid else card st.

(** The store after a first request of the day that selected [selected]. *)
Definition with_assignments (st : Store) (uid : string) (now : Z) (selected : list Card)
  : Store :=
  Prisma.set_dailyCard st
    (dailyCard st
     ++ rows_from (next_daily_id st)
          (map (fun c => (uid, card_id c, utc_midnight now)) selected))
    (next_daily_id st + List.length selected).

(** ** The upstream list of playlists *)

(** The pages the upstream service lists from a cursor on, following
    [next] until it is absent. *)
Inductive Listing (up : Upstream) (token : string)
  : JS.value -> list SpotifyPlaylistsResponse -> Prop :=
| Listing_end (cursor : JS.value) :
    JS.truthy cursor = false -> Listing up token cursor []
| Listing_page (cursor : JS.value) (page : SpotifyPlaylistsResponse)
    (rest : list SpotifyPlaylistsResponse) :
    JS.truthy cursor = true ->
    playlists_endpoint up token (JS.to_string cursor) = Some page ->
    Listing up token (next page) rest ->
    Listing up token cursor (page :: rest).

(** The urls the search of [GET /api/playlist/exists] fetches: page
    after page, up to the first page with a playlist of the name. *)
Fixpoint fetched_urls (cursor : JS.value) (pages : list SpotifyPlaylistsResponse)
  : list string :=
  match pages with
  | [] => []
  | page :: rest =>
      JS.to_string cursor
      :: (if existsb is_managed (items page) then [] else fetched_urls (next page) rest)
  end.

(** The pages the store-less server sees, by offsets of 50 while
    [next] is present. *)
Inductive LegacyListing (up : Upstream) (token : string)
  : nat -> list SpotifyPlaylistsResponse -> Prop :=
| Legacy_last (offset : nat) (page : SpotifyPlaylistsResponse) :
    playlists_endpoint up token (legacy_url offset) = Some page ->
    JS.truthy (next page) = false ->
    LegacyListing up token offset [page]
| Legacy_more (offset : nat) (page : SpotifyPlaylistsResponse)
    (rest : list SpotifyPlaylistsResponse) :
    playlists_endpoint up token (legacy_url offset) = Some page ->
    JS.truthy (next page) = true ->
    LegacyListing up token (offset + 50) rest ->
    LegacyListing up token offset (page :: rest).

Fixpoint legacy_offsets (offset : nat) (pages : list SpotifyPlaylistsResponse) : list nat :=
  match pages with
  | [] => []
  | page :: rest =>
      offset
      :: (if existsb is_managed_ci (items page) then []
          else legacy_offsets (offset + 50) rest)
  end.

(** The store after [userPlaylist.delete] of a user, and after
    [userPlaylist.create]. *)
Definition without_playlist (st : Store) (uid : string) : Store :=
  Prisma.set_userPlaylist st
    (filter (fun r => negb (Prisma.owned_by uid r)) (userPlaylist st))
    (next_cuid st).

Definition with_playlist (st : Store) (uid pid : string) (now : Z) : Store :=
  Prisma.set_userPlaylist st
    (userPlaylist st ++ [mkUserPlaylist (next_cuid st) uid pid now])
    (S (next_cuid st)).

(** A request that carries a bearer token. *)
Definition authorized (req : Request) (token : string) : Prop :=
  exists auth, req_authorization req = Some auth /\ auth <> "" /\ bearer auth = token.

From Stdlib Require Import Sorted.

(* ================================================================== *)
(** * The store-less server of [server/src/index.ts], first routes *)
(* ================================================================== *)

(** [data.error] on either payload of the token endpoint. *)
Definition payload_error (d : TokenPayload) : JS.value :=
  match d with
  | TokenData _ => None
  | TokenError e => Some (error e)
  end.

Section LegacyHandlers.

Variable cfg : Config.

Local Open Scope string_scope.

(** [GET /api/auth/callback] of the first server: no [error] parameter
    is read, and the exchange is judged by [data.error]. *)
Definition legacy_auth_callback (up : Upstream) (req : Request) : M unit :=
  let code := field "code" (req_query req) in
  let state := field "state" (req_query req) in
  let storedState := field "spotify_state" (req_cookies req) in
  if negb (JS.truthy state) || negb (JS.strict_eq state storedState) then
    respond (Send 400 (Text "State mismatch"))
  else
    cookie_op (ClearCookie "spotify_state" None) ;;;
    let body := code_form cfg code in
    try_catch
      (tokenRes <- fetch (PostToken body) (token_endpoint up body) ;;
       let '(_, data) := tokenRes in
       if JS.truthy (payload_error data) then json 400 (UpstreamJson data)
       else
         cookie_op (SetCookie "refresh_token" (payload_refresh_token data)
                      (refresh_cookie_options cfg)) ;;;
         respond (Redirect (CLIENT_URL cfg ++ "/cards?access_token="
                            ++ JS.to_string (payload_access_token data))))
      (respond (Send 500 (Text "Error retrieving tokens"))).

(** [GET /api/auth/refresh] of the first server. *)
Definition legacy_auth_refresh (up : Upstream) (req : Request) : M unit :=
  let refresh_token := field "refresh_token" (req_cookies req) in
  if negb (JS.truthy refresh_token) then sendStatus 401
  else
    let body := refresh_form cfg refresh_token in
    try_catch
      (tokenRes <- fetch (PostToken body) (token_endpoint up body) ;;
       let '(_, data) := tokenRes in
       if JS.truthy (payload_error data) then json 400 (UpstreamJson data)
       else
         (if JS.truthy (payload_refresh_token data) then
            cookie_op (SetCookie "refresh_token" (payload_refresh_token data)
                         (refresh_cookie_options cfg))
          else ret tt) ;;;
         json 200 (TokenJson (payload_access_token data) (payload_expires_in data)))
      (respond (Send 500 (Text "Error refreshing token"))).

End LegacyHandlers.

(** [POST /api/playlist/add] of the store-less server: the playlist is
    looked up or created on the way, and the answer of the upstream
    call is not read. *)
Definition legacy_playlist_add (fuel : nat) (up : Upstream) (req : Request) : M unit :=
  let uri := field "uri" (req_body req) in
  if negb (JS.truthy (req_authorization req)) || negb (JS.truthy uri) then
    json 400 (ErrorJson "Faltan datos")
  else
    let token := bearer (JS.to_string (req_authorization req)) in
    try_catch
      (playlistId <- getOrCreatePlaylist fuel up token ;;
       fetch (PostTracks token playlistId [JS.to_string uri])
         (tracks_endpoint up token playlistId [JS.to_string uri]) ;;;
       json 200 SuccessJson)
      (json 500 (ErrorJson "Error al añadir canción")).

(* ================================================================== *)
(** * Further vocabulary *)
(* ================================================================== *)

(** The characters [URLSearchParams] leaves in a serialised value. *)
Definition query_safe (c : ascii) : bool :=
  JS.unreserved c || Ascii.eqb c "+"%char || Ascii.eqb c "%"%char.

Fixpoint all_chars (p : ascii -> bool) (s : string) : bool :=
  match s with
  | EmptyString => true
  | String c s' => p c && all_chars p s'
  end.

(** Newest first, and oldest first. *)
Definition newer_first (a b : DiscoveryLog) : Prop := (dl_createdAt b <= dl_createdAt a)%Z.

(** The entries of a user created within the UTC day of [now]. *)
Definition entries_today (st : Store) (uid : string) (now : Z) : list DiscoveryLog :=
  filter (fun l => String.eqb (dl_userId l) uid
                   && Z.leb (utc_midnight now) (dl_createdAt l)
                   && Z.ltb (dl_createdAt l) (utc_midnight now + day_ms))
    (discoveryLog st).

(** The routes that only read the store. *)
Definition reads_only (r : Route) : bool :=
  match r with
  | POST_playlist_create | GET_playlist_exists | POST_discovery
  | POST_discovery_mark_as_added | GET_cards_daily | POST_cards_seed => false
  | _ => true
  end.

(** A header without the credentials. *)
Definition no_authorization (req : Request) : Prop :=
  req_authorization req = None \/ req_authorization req = Some "".

(** The table after one [upsert], and after the seed of a list. *)
Definition upserted (st : Store) (c : Card) : Store :=
  if existsb (fun c' => String.eqb (card_uri c') (card_uri c)) (card st) then st
  else
    Prisma.set_card st
      (card st ++ [mkCard (next_card_id st) (card_title c) (card_artist c) (card_uri c)
                     (card_img c) (card_cover c) (card_description c)])
      (S (next_card_id st)).

Definition seeded (st : Store) (cs : list Card) : Store := fold_left upserted cs st.



Definition not_space (c : ascii) : bool := negb (Ascii.eqb c " "%char).


(** An answer of the token endpoint whose status and payload tell the
    same story: a success carries an access token and no error, a
    failure an error and no access token. *)
Definition coherent_answer (answer : option (bool * TokenPayload)) : Prop :=
  match answer with
  | None => True
  | Some (ok, data) =>
      JS.truthy (payload_access_token data) = ok
      /\ JS.truthy (payload_error data) = negb ok
  end.
(* ================================================================== *)
(** * Concrete inputs *)
(* ================================================================== *)

(** A sample configuration and clock for the concrete runs below. *)
Definition sample_cfg : Config :=
  mkConfig "client-id" "client-secret" "https://api.example/api/auth/callback"
    "https://app.example" "https://app.vercel.example" "cookie-secret" None.

(** An upstream that answers nothing. *)
Definition silent : Upstream :=
  mkUpstream (fun _ => None) (fun _ => None) (fun _ _ => None)
    (fun _ _ => None) (fun _ _ => None) (fun _ _ _ => None).

Definition mismatch_request : Request :=
  mkRequest [("code", "c0de"); ("state", "5f2a")] [("spotify_state", "5F2A")] None [] None.

Definition denied_request : Request :=
  mkRequest [("error", "access_denied")] [("spotify_state", "5f2a")] None [] None.

(** A refresh whose upstream answer carries an empty [refresh_token]. *)
Definition refresh_request : Request :=
  mkRequest [] [("refresh_token", "r3fr3sh")] None [] None.

Definition empty_rotation : SpotifyTokenResponse :=
  mkToken "acc3ss" "Bearer" 3600 (Some "") "streaming".

Definition upstream_empty_rotation : Upstream :=
  mkUpstream (fun _ => Some (true, TokenData empty_rotation)) (fun _ => None)
    (fun _ _ => None) (fun _ _ => None) (fun _ _ => None) (fun _ _ _ => None).

Definition rotation : SpotifyTokenResponse :=
  mkToken "acc3ss" "Bearer" 3600 (Some "r0tat3d") "streaming".

Definition upstream_rotation : Upstream :=
  mkUpstream (fun _ => Some (true, TokenData rotation)) (fun _ => None)
    (fun _ _ => None) (fun _ _ => None) (fun _ _ => None) (fun _ _ _ => None).

(** A user with a managed playlist and no discovery yet. *)
Definition store_with_playlist : Store :=
  mkStore [] [mkUserPlaylist 0 "ana" "pl-1" 1700000000000] [] [] 1 1 1.

Definition discovery_request : Request :=
  mkRequest [] [] None
    [("userId", "ana"); ("cardTitle", "Archangel");
     ("trackUri", "spotify:track:6evpAJCR5GeeHDGgv3aXb3")] None.

Definition mark_request : Request :=
  mkRequest [] [] None
    [("userId", "ana"); ("trackUri", "spotify:track:6evpAJCR5GeeHDGgv3aXb3")] None.

(** A table of two cards, and a user with a managed playlist and no
    discovery. *)
Definition archangel : Card :=
  mkCard 1 "Archangel" "Burial" "spotify:track:6evpAJCR5GeeHDGgv3aXb3"
    "/art/casca.jpg" "/art/cover1.png" "From the movie Spirited Away".

Definition homecoming : Card :=
  mkCard 2 "Homecoming" "White Ward" "spotify:track:63rCFnepqiq0tFKP6hrGsx"
    "/art/theTrumpeter.png" "/art/homecoming.png" "A painting by Zdzisław Beksiński".

Definition store_two_cards : Store :=
  mkStore [] [mkUserPlaylist 0 "ana" "pl-1" 1700000000000] [archangel; homecoming] [] 1 3 1.

Definition daily_request : Request :=
  mkRequest [("userId", "ana")] [] None [] None.

(** 14 November 2023, 22:13:20 UTC, and later that day. *)
Definition an_evening : Z := 1700000000000.
Definition later_that_evening : Z := 1700003600000.

Definition in_order (l : list Card) : list Card := l.

(** Upstream answers for a user whose stored playlist is gone and who
    has another playlist of the name, on the second page. *)
Definition ana : SpotifyUser := mkSpotifyUser (Some "ana") (Some "Ana") None.

Definition first_page : SpotifyPlaylistsResponse :=
  mkPlaylists [mkSpotifyPlaylist "pl-7" "Focus"; mkSpotifyPlaylist "pl-8" "soundhaven"]
    (Some "https://api.spotify.com/v1/me/playlists?offset=50&limit=50").

Definition second_page : SpotifyPlaylistsResponse :=
  mkPlaylists [mkSpotifyPlaylist "pl-9" "SoundHaven"] None.

Definition pages_by_cursor (url : string) : option SpotifyPlaylistsResponse :=
  if String.eqb url playlists_url then Some first_page
  else if String.eqb url "https://api.spotify.com/v1/me/playlists?offset=50&limit=50"
       then Some second_page
       else None.

Definition upstream_stale : Upstream :=
  mkUpstream (fun _ => None) (fun _ => Some ana) (fun _ _ => Some 404)
    (fun _ => pages_by_cursor) (fun _ _ => Some (mkSpotifyPlaylist "pl-new" "SoundHaven"))
    (fun _ _ _ => None).

Definition bearer_request : Request :=
  mkRequest [] [] (Some "Bearer t0k3n") [] None.

(** The user has seen one card and not added it yet. *)
Definition seen_entry : DiscoveryLog :=
  mkDiscoveryLog 1 "ana" "Archangel" "spotify:track:6evpAJCR5GeeHDGgv3aXb3" false
    1700000000000.

Definition store_with_entry : Store :=
  mkStore [seen_entry] [mkUserPlaylist 0 "ana" "pl-1" 1700000000000] [] [] 2 1 1.

(** Upstream answers by offset, for the store-less server: the
    playlist of the name, in lower case, is on the second page. *)
Definition pages_by_offset (url : string) : option SpotifyPlaylistsResponse :=
  if String.eqb url (legacy_url 0) then
    Some (mkPlaylists [mkSpotifyPlaylist "pl-7" "Focus"]
            (Some "https://api.spotify.com/v1/me/playlists?offset=50&limit=50"))
  else if String.eqb url (legacy_url 50) then
    Some (mkPlaylists [mkSpotifyPlaylist "pl-8" "soundhaven"] None)
  else None.

Definition upstream_by_offset : Upstream :=
  mkUpstream (fun _ => None) (fun _ => Some ana) (fun _ _ => None)
    (fun _ => pages_by_offset) (fun _ _ => Some (mkSpotifyPlaylist "pl-new" "SoundHaven"))
    (fun _ _ _ => None).

(** What one evening request brings. *)
Definition an_evening_request : Ambient := mkAmbient upstream_stale an_evening in_order 5.

(** A callback that echoes the state of the login. *)
Definition echoed_request : Request :=
  mkRequest [("code", "c0de"); ("state", "5f2a")] [("spotify_state", "5f2a")] None [] None.

Definition upstream_invalid_grant : Upstream :=
  mkUpstream
    (fun _ => Some (false, TokenError (mkTokenError "invalid_grant" (Some "Invalid code"))))
    (fun _ => None) (fun _ _ => None) (fun _ _ => None) (fun _ _ => None)
    (fun _ _ _ => None).

Definition logged_out_request : Request := mkRequest [] [] None [] None.

Definition add_request : Request :=
  mkRequest [] [] (Some "Bearer t0k3n")
    [("uri", "spotify:track:6evpAJCR5GeeHDGgv3aXb3")] None.

Definition upstream_adds : Upstream :=
  mkUpstream (fun _ => None) (fun _ => Some ana) (fun _ _ => Some 200)
    (fun _ => pages_by_cursor) (fun _ _ => Some (mkSpotifyPlaylist "pl-new" "SoundHaven"))
    (fun _ _ _ => Some (true, None)).

(** Two users; the first has a discovery and an assignment. *)
Definition store_two_users : Store :=
  mkStore
    [seen_entry;
     mkDiscoveryLog 2 "bo" "Homecoming" "spotify:track:63rCFnepqiq0tFKP6hrGsx" true
       1700000100000]
    [mkUserPlaylist 0 "ana" "pl-1" 1700000000000; mkUserPlaylist 3 "bo" "pl-2" 1700000050000]
    [archangel; homecoming]
    [mkDailyCard 1 "ana" 1 1699920000000; mkDailyCard 2 "bo" 2 1699920000000]
    4 3 3.

Definition later_entry : DiscoveryLog :=
  mkDiscoveryLog 5 "ana" "Homecoming" "spotify:track:63rCFnepqiq0tFKP6hrGsx" false
    1700000200000.

Definition store_two_entries : Store :=
  mkStore [seen_entry; later_entry] [mkUserPlaylist 0 "ana" "pl-1" 1700000000000]
    [] [] 6 1 1.

Definition new_user_request : Request :=
  mkRequest [] [] None
    [("userId", "cy"); ("cardTitle", "Archangel");
     ("trackUri", "spotify:track:6evpAJCR5GeeHDGgv3aXb3")] None.

Definition list_request : Request := mkRequest [("userId", "ana")] [] None [] None.

(** A seeded table, a user with a playlist record who has seen one card. *)
Definition seeded_store : Store :=
  seeded (mkStore [seen_entry] [mkUserPlaylist 0 "ana" "pl-1" 1700000000000] [] [] 2 1 1)
    dummyCards.


(** Upstream answers for the store-less server whose add call is
    refused. *)
Definition upstream_add_refused : Upstream :=
  mkUpstream (fun _ => None) (fun _ => Some ana) (fun _ _ => None)
    (fun _ => pages_by_offset) (fun _ _ => Some (mkSpotifyPlaylist "pl-new" "SoundHaven"))
    (fun _ _ _ => Some (false, Some "Invalid track uri")).

Definition denied_without_state : Request :=
  mkRequest [("error", "access_denied")] [] None [] None.

(** A token endpoint that answers a token payload under a failure
    status. *)
Definition upstream_token_under_failure : Upstream :=
  mkUpstream (fun _ => Some (false, TokenData rotation)) (fun _ => None)
    (fun _ _ => None) (fun _ _ => None) (fun _ _ => None) (fun _ _ _ => None).

(* ================================================================== *)
(** * Basic facts *)
(* ================================================================== *)

Lemma strict_eq_spec (a b : JS.value) : JS.strict_eq a b = true <-> a = b.
Proof.
  destruct a as [x|], b as [y|]; simpl; split; intro H;
    try discriminate; try reflexivity.
  - apply String.eqb_eq in H. now subst.
  - inversion H. apply String.eqb_refl.
Qed.

Lemma strict_eq_false (a b : JS.value) : JS.strict_eq a b = false <-> a <> b.
Proof.
  rewrite <- strict_eq_spec. destruct (JS.strict_eq a b); split; congruence.
Qed.

Lemma truthy_Some (v : JS.value) : JS.truthy v = true -> v = Some (JS.to_string v).
Proof. destruct v as [[|c s]|]; simpl; intro H; try discriminate; reflexivity. Qed.

Lemma snd_run {A} (m : M A) (st : Store) : snd (run m st) = snd (m (enter st)).
Proof. unfold run. destruct (m (enter st)) as [[a|r| |] w]; reflexivity. Qed.


(* ================================================================== *)
(** * Steps that respect a relation on stores *)
(* ================================================================== *)

Section Frame.

Variable R : Store -> Store -> Prop.
Hypothesis R_refl : forall st, R st st.
Hypothesis R_trans : forall a b c, R a b -> R b c -> R a c.

Lemma readonly_respects {A} (m : M A) : readonly m -> respects R m.
Proof. intros H w. rewrite H. apply R_refl. Qed.

Lemma respects_bind {A B} (m : M A) (k : A -> M B) :
  respects R m -> (forall a, respects R (k a)) -> respects R (bind m k).
Proof.
  intros Hm Hk w. unfold bind. specialize (Hm w).
  destruct (m w) as [[a|r| |] w']; simpl in *; try assumption.
  eapply R_trans; [exact Hm | apply Hk].
Qed.

Lemma respects_try_catch {A} (body handler : M A) :
  respects R body -> respects R handler -> respects R (try_catch body handler).
Proof.
  intros Hb Hh w. unfold try_catch. specialize (Hb w).
  destruct (body w) as [[a|r| |] w']; simpl in *; try assumption.
  eapply R_trans; [exact Hb | apply Hh].
Qed.

End Frame.

Lemma readonly_ret {A} (a : A) : readonly (ret a).
Proof. intro w. reflexivity. Qed.

Lemma readonly_respond {A} (r : Response) : readonly (@respond A r).
Proof. intro w. reflexivity. Qed.

Lemma readonly_throw {A} : readonly (@throw A).
Proof. intro w. reflexivity. Qed.

Lemma readonly_spin {A} : readonly (fun w : World => (@Spin A, w)).
Proof. intro w. reflexivity. Qed.

Lemma readonly_get_db : readonly get_db.
Proof. intro w. reflexivity. Qed.

Lemma readonly_log_call (c : Call) : readonly (log_call c).
Proof. intro w. reflexivity. Qed.

Lemma readonly_cookie_op (c : CookieOp) : readonly (cookie_op c).
Proof. intro w. reflexivity. Qed.

Lemma readonly_bind {A B} (m : M A) (k : A -> M B) :
  readonly m -> (forall a, readonly (k a)) -> readonly (bind m k).
Proof.
  intros Hm Hk w. unfold bind. specialize (Hm w).
  destruct (m w) as [[a|r| |] w']; simpl in *; try assumption.
  rewrite Hk. exact Hm.
Qed.

Lemma readonly_try_catch {A} (body handler : M A) :
  readonly body -> readonly handler -> readonly (try_catch body handler).
Proof.
  intros Hb Hh w. unfold try_catch. specialize (Hb w).
  destruct (body w) as [[a|r| |] w']; simpl in *; try assumption.
  rewrite Hh. exact Hb.
Qed.

Lemma readonly_fetch {A} (c : Call) (answer : option A) : readonly (fetch c answer).
Proof.
  unfold fetch. apply readonly_bind; [apply readonly_log_call |].
  intros _. destruct answer; [apply readonly_ret | apply readonly_throw].
Qed.

Create HintDb frame.

#[local] Hint Resolve readonly_ret readonly_respond readonly_throw readonly_spin
  readonly_get_db readonly_log_call readonly_cookie_op readonly_fetch : frame.

(** Breaks a step into its parts; what is left are the writes. *)
Ltac readonly_step :=
  repeat first
    [ progress intros
    | apply readonly_try_catch
    | apply readonly_bind
    | solve [auto with frame]
    | match goal with
      | |- readonly (match ?x with _ => _ end) => destruct x
      | |- readonly (if ?b then _ else _) => destruct b
      | |- readonly (let '(_, _) := ?p in _) => destruct p
      end ].

(** Unfolds the monad and the queries of a handler. *)
Ltac step_monad :=
  cbv beta iota zeta delta
    [try_catch bind get_db put_db ret throw json respond sendStatus fetch log_call cookie_op
     Prisma.userPlaylist_findUnique Prisma.userPlaylist_create Prisma.userPlaylist_delete
     Prisma.discoveryLog_findFirst Prisma.discoveryLog_create
     Prisma.discoveryLog_update_added Prisma.discoveryLog_findMany_desc
     Prisma.discoveryLog_findFirst_between Prisma.discoveryLog_trackUris
     Prisma.card_findMany Prisma.card_findMany_notIn Prisma.card_upsert
     Prisma.dailyCard_findMany Prisma.dailyCard_createMany
     Prisma.set_discoveryLog Prisma.set_userPlaylist Prisma.set_card Prisma.set_dailyCard
     enter];
  cbn [db calls cookies fst snd discoveryLog userPlaylist card dailyCard
       next_cuid next_card_id next_daily_id negb andb orb Prisma.include_card].

(* ================================================================== *)
(** * Lists and keys *)
(* ================================================================== *)

Lemma NoDup_map_filter {Row Key} (key : Row -> Key) (keep : Row -> bool)
  (rows : list Row) (Hkeys : NoDup (map key rows)) :
  NoDup (map key (filter keep rows)).
Proof.
  induction rows as [|x rows IH]; simpl; [constructor |].
  simpl in Hkeys. inversion Hkeys as [|? ? Hx Hrest]; subst.
  destruct (keep x); simpl; auto.
  constructor; auto.
  intro Hin. apply Hx. apply in_map_iff in Hin. destruct Hin as (y & Hy & Hin).
  apply filter_In in Hin. apply in_map_iff. exists y. tauto.
Qed.

Lemma NoDup_map_app_one {A B} (f : A -> B) (l : list A) (x : A) :
  NoDup (map f l) -> ~ In (f x) (map f l) -> NoDup (map f (l ++ [x])).
Proof.
  intros Hl Hx. rewrite map_app. simpl.
  apply NoDup_app; [assumption | repeat constructor; simpl; tauto |].
  intros y Hy [Heq | []]. subst. contradiction.
Qed.

Lemma NoDup_map_inj {A B} (f : A -> B) (l : list A) (x y : A) :
  NoDup (map f l) -> In x l -> In y l -> f x = f y -> x = y.
Proof.
  induction l as [|z l IH]; simpl; intros Hnd Hx Hy Heq; [contradiction |].
  inversion Hnd as [|? ? Hz Hl]; subst.
  destruct Hx as [Hx | Hx], Hy as [Hy | Hy]; subst; auto.
  - exfalso. apply Hz. rewrite Heq. now apply in_map.
  - exfalso. apply Hz. rewrite <- Heq. now apply in_map.
Qed.

Lemma NoDup_map_injective {A B} (f : A -> B) (l : list A) :
  (forall x y, f x = f y -> x = y) -> NoDup l -> NoDup (map f l).
Proof.
  intros Hinj Hl. induction Hl as [|x l Hx Hl IH]; simpl; constructor; auto.
  intro Hin. apply in_map_iff in Hin. destruct Hin as (y & Hy & Hin).
  apply Hinj in Hy. subst. contradiction.
Qed.

Lemma In_firstn {A} (n : nat) (l : list A) (x : A) : In x (firstn n l) -> In x l.
Proof.
  revert n. induction l as [|y l IH]; intros [|n]; simpl; try tauto.
  intros [H | H]; eauto.
Qed.

Lemma NoDup_firstn {A} (n : nat) (l : list A) : NoDup l -> NoDup (firstn n l).
Proof.
  revert n. induction l as [|x l IH]; intros [|n] H; simpl; try constructor.
  - inversion H; subst. intro Hin. apply In_firstn in Hin. contradiction.
  - inversion H; subst. auto.
Qed.

Lemma filter_length_le {A} (p : A -> bool) (l : list A) :
  List.length (filter p l) <= List.length l.
Proof. induction l as [|x l IH]; simpl; [lia |]. destruct (p x); simpl; lia. Qed.

Lemma find_none_filter {A} (p : A -> bool) (l : list A) :
  find p l = None <-> filter p l = [].
Proof.
  induction l as [|x l IH]; simpl; [tauto |].
  destruct (p x); [split; discriminate | exact IH].
Qed.

Lemma find_some_filter {A} (p : A -> bool) (l : list A) (x : A) :
  find p l = Some x -> exists rest, filter p l = x :: rest.
Proof.
  induction l as [|y l IH]; simpl; [discriminate |].
  destruct (p y); intro H.
  - inversion H; subst. eauto.
  - auto.
Qed.

Lemma find_app_some {A} (p : A -> bool) (l l' : list A) (x : A) :
  find p l = Some x -> find p (l ++ l') = Some x.
Proof.
  induction l as [|y l IH]; simpl; [discriminate |].
  destruct (p y); auto.
Qed.

Lemma find_app_none {A} (p : A -> bool) (l l' : list A) :
  find p l = None -> find p (l ++ l') = find p l'.
Proof.
  induction l as [|y l IH]; simpl; [reflexivity |].
  destruct (p y); [discriminate | auto].
Qed.

Lemma find_map_invariant {A} (p : A -> bool) (f : A -> A) (l : list A) :
  (forall x, p (f x) = p x) -> find p (map f l) = option_map f (find p l).
Proof.
  intro Hp. induction l as [|x l IH]; simpl; [reflexivity |].
  rewrite Hp. destruct (p x); [reflexivity | exact IH].
Qed.


Lemma existsb_false_iff {A} (p : A -> bool) (l : list A) :
  existsb p l = false <-> forall x, In x l -> p x = false.
Proof.
  induction l as [|y l IH]; simpl.
  - split; [intros _ x [] | reflexivity].
  - rewrite orb_false_iff, IH. split.
    + intros [Hy Hl] x [Hx | Hx]; subst; auto.
    + intro H. split; [apply H; now left | intros x Hx; apply H; now right].
Qed.


Lemma has_playlist_find (st : Store) (uid : string) :
  Prisma.has_playlist st uid = false <-> find (Prisma.owned_by uid) (userPlaylist st) = None.
Proof.
  unfold Prisma.has_playlist. induction (userPlaylist st) as [|r l IH]; simpl; [tauto |].
  destruct (Prisma.owned_by uid r); simpl; [split; discriminate | exact IH].
Qed.

Lemma card_of_in (st : Store) (c : Card) :
  NoDup (map card_id (card st)) -> In c (card st) -> Prisma.card_of st (card_id c) = Some c.
Proof.
  unfold Prisma.card_of. intros Hnd Hin.
  destruct (find (fun c0 => Nat.eqb (card_id c0) (card_id c)) (card st)) as [c'|] eqn:Hf.
  - apply find_some in Hf. destruct Hf as [Hin' Heq]. apply Nat.eqb_eq in Heq.
    f_equal. eapply NoDup_map_inj; eauto.
  - exfalso. eapply find_none in Hf; [| exact Hin]. rewrite Nat.eqb_refl in Hf. discriminate.
Qed.

Lemma card_of_some (st : Store) (id : nat) (c : Card) :
  Prisma.card_of st id = Some c -> In c (card st) /\ card_id c = id.
Proof.
  unfold Prisma.card_of. intro H. apply find_some in H. destruct H as [Hin Heq].
  apply Nat.eqb_eq in Heq. auto.
Qed.


(** Two midnights within one day are the same midnight. *)
Lemma midnight_in_day (now date : Z) :
  utc_midnight date = date ->
  (utc_midnight now <= date < utc_midnight now + day_ms)%Z ->
  date = utc_midnight now.
Proof.
  unfold utc_midnight, day_ms. intros Hd Hr.
  rewrite <- Hd in Hr |- *. nia.
Qed.

(* ================================================================== *)
(** * The writes keep the invariants *)
(* ================================================================== *)

Ltac wf_fields H :=
  destruct H as [Hids Hfresh Hpair Huser Hcids Hcfresh Hcuri Hdkey Hdcard Hdmid];
  constructor; unfold Prisma.has_playlist, Prisma.card_of in *; simpl in *.





Lemma mark_id (id : nat) (l : DiscoveryLog) : dl_id (Prisma.mark id l) = dl_id l.
Proof. unfold Prisma.mark. destruct (Nat.eqb (dl_id l) id); reflexivity. Qed.

Lemma mark_same_pair (id : nat) (uid uri : string) (l : DiscoveryLog) :
  Prisma.same_pair uid uri (Prisma.mark id l) = Prisma.same_pair uid uri l.
Proof. unfold Prisma.mark. destruct (Nat.eqb (dl_id l) id); reflexivity. Qed.

Lemma mark_added (id : nat) (l : DiscoveryLog) :
  dl_added l = true -> dl_added (Prisma.mark id l) = true.
Proof. unfold Prisma.mark. destruct (Nat.eqb (dl_id l) id); simpl; auto. Qed.


Lemma wf_add_card (st : Store) (c : Card) :
  wf_store st ->
  existsb (fun c' => String.eqb (card_uri c') (card_uri c)) (card st) = false ->
  wf_store (Prisma.set_card st
              (card st ++ [mkCard (next_card_id st) (card_title c) (card_artist c)
                             (card_uri c) (card_img c) (card_cover c) (card_description c)])
              (S (next_card_id st))).
Proof.
  intros H Hnew. wf_fields H; auto.
  - apply NoDup_map_app_one; [assumption |]. simpl.
    intro Hin. apply in_map_iff in Hin. destruct Hin as (c0 & Hid & Hc0).
    specialize (Hcfresh c0 Hc0). lia.
  - intros c0 Hc0. apply in_app_or in Hc0. destruct Hc0 as [Hc0 | [Hc0 | []]].
    + specialize (Hcfresh c0 Hc0). lia.
    + subst. simpl. lia.
  - apply NoDup_map_app_one; [assumption |]. simpl.
    intro Hin. apply in_map_iff in Hin. destruct Hin as (c0 & Huri & Hc0).
    rewrite existsb_false_iff in Hnew. specialize (Hnew c0 Hc0). simpl in Hnew.
    rewrite Huri, String.eqb_refl in Hnew. discriminate.
  - intros d Hd. specialize (Hdcard d Hd).
    destruct (find (fun c0 => Nat.eqb (card_id c0) (dc_cardId d)) (card st)) eqn:Hf;
      [| contradiction].
    erewrite find_app_some by exact Hf. discriminate.
Qed.

Lemma same_assignment_spec (uid : string) (cid : nat) (date : Z) (t : list DailyCard) :
  existsb (Prisma.same_assignment uid cid date) t = false
  <-> ~ In (uid, cid, date) (map daily_key t).
Proof.
  rewrite existsb_false_iff. split.
  - intros H Hin. apply in_map_iff in Hin. destruct Hin as (d & Hk & Hd).
    specialize (H d Hd). unfold daily_key in Hk. inversion Hk; subst.
    unfold Prisma.same_assignment in H.
    rewrite String.eqb_refl, Nat.eqb_refl, Z.eqb_refl in H. discriminate.
  - intros H d Hd. destruct (Prisma.same_assignment uid cid date d) eqn:Hs; [| reflexivity].
    exfalso. apply H. apply in_map_iff. exists d. split; [| assumption].
    unfold Prisma.same_assignment in Hs.
    apply andb_true_iff in Hs. destruct Hs as [Hs Hd3].
    apply andb_true_iff in Hs. destruct Hs as [Hd1 Hd2].
    apply String.eqb_eq in Hd1. apply Nat.eqb_eq in Hd2. apply Z.eqb_eq in Hd3.
    unfold daily_key. congruence.
Qed.

Lemma rows_from_keys (n : nat) (data : list (string * nat * Z)) :
  map daily_key (rows_from n data) = data.
Proof.
  revert n. induction data as [|[[u c] d] data IH]; intro n; simpl; [reflexivity |].
  now rewrite IH.
Qed.

Lemma rows_from_length (n : nat) (data : list (string * nat * Z)) :
  List.length (rows_from n data) = List.length data.
Proof. rewrite <- (rows_from_keys n data) at 2. now rewrite length_map. Qed.



(** A [createMany] of distinct new rows that name cards of the table
    is accepted. *)
Lemma fold_insert_daily_ok (st : Store) (data : list (string * nat * Z))
  (t0 : list DailyCard) (n0 : nat) :
  NoDup (map daily_key t0 ++ data) ->
  (forall uid cid date, In (uid, cid, date) data -> Prisma.card_of st cid <> None) ->
  fold_left (Prisma.insert_daily st) data (Some (t0, n0))
  = Some (t0 ++ rows_from n0 data, n0 + List.length data).
Proof.
  revert t0 n0. induction data as [|[[u c] d] data IH]; intros t0 n0 Hnd Hfk; simpl.
  - now rewrite app_nil_r, Nat.add_0_r.
  - assert (Hnew : existsb (Prisma.same_assignment u c d) t0 = false).
    { apply same_assignment_spec. intro Hin.
      apply NoDup_remove_2 in Hnd. apply Hnd. apply in_or_app. now left. }
    rewrite Hnew.
    pose proof (Hfk u c d (or_introl eq_refl)) as Hcard.
    destruct (Prisma.card_of st c) as [cd|]; [| contradiction].
    rewrite IH.
    + rewrite <- app_assoc. simpl. f_equal. f_equal. lia.
    + rewrite map_app. simpl. rewrite <- app_assoc. simpl.
      eapply Permutation_NoDup; [| exact Hnd].
      apply Permutation_app_head. reflexivity.
    + intros uid cid date Hin. apply (Hfk uid cid date). now right.
Qed.


(* ================================================================== *)
(** * Every request keeps the invariants *)
(* ================================================================== *)



Lemma log_evolves_sub (st st' : Store) :
  next_cuid st <= next_cuid st' ->
  (forall l, In l (discoveryLog st') -> In l (discoveryLog st)) ->
  log_evolves st st'.
Proof.
  intros Hn Hsub. split; [assumption |].
  intros l' Hl'. right. exists l'. auto.
Qed.

Lemma log_evolves_refl (st : Store) : log_evolves st st.
Proof. apply log_evolves_sub; auto. Qed.

Lemma log_evolves_trans (a b c : Store) :
  log_evolves a b -> log_evolves b c -> log_evolves a c.
Proof.
  intros [Hab Hb] [Hbc Hc]. split; [lia |].
  intros l'' Hl''. destruct (Hc l'' Hl'') as [Hnew | (l' & Hl' & Hid' & Hadd')]; [left; lia |].
  destruct (Hb l' Hl') as [Hnew | (l & Hl & Hid & Hadd)]; [left; lia |].
  right. exists l. repeat split; [assumption | congruence | auto].
Qed.

Lemma readonly_userPlaylist_findUnique (userId : JS.value) :
  readonly (Prisma.userPlaylist_findUnique userId).
Proof. unfold Prisma.userPlaylist_findUnique. readonly_step. Qed.

Lemma readonly_discoveryLog_findFirst (uid uri : string) :
  readonly (Prisma.discoveryLog_findFirst uid uri).
Proof. unfold Prisma.discoveryLog_findFirst. readonly_step. Qed.

Lemma readonly_discoveryLog_findMany_desc (uid : string) :
  readonly (Prisma.discoveryLog_findMany_desc uid).
Proof. unfold Prisma.discoveryLog_findMany_desc. readonly_step. Qed.

Lemma readonly_discoveryLog_findFirst_between (uid : string) (gte lt : Z) :
  readonly (Prisma.discoveryLog_findFirst_between uid gte lt).
Proof. unfold Prisma.discoveryLog_findFirst_between. readonly_step. Qed.

Lemma readonly_discoveryLog_trackUris (uid : string) :
  readonly (Prisma.discoveryLog_trackUris uid).
Proof. unfold Prisma.discoveryLog_trackUris. readonly_step. Qed.

Lemma readonly_card_findMany : readonly Prisma.card_findMany.
Proof. unfold Prisma.card_findMany. readonly_step. Qed.

Lemma readonly_card_findMany_notIn (seen : list string) :
  readonly (Prisma.card_findMany_notIn seen).
Proof. unfold Prisma.card_findMany_notIn. readonly_step. Qed.

Lemma readonly_dailyCard_findMany (uid : string) (gte lt : Z) :
  readonly (Prisma.dailyCard_findMany uid gte lt).
Proof. unfold Prisma.dailyCard_findMany. readonly_step. Qed.

#[local] Hint Resolve readonly_userPlaylist_findUnique readonly_discoveryLog_findFirst
  readonly_discoveryLog_findMany_desc readonly_discoveryLog_findFirst_between
  readonly_discoveryLog_trackUris readonly_card_findMany readonly_card_findMany_notIn
  readonly_dailyCard_findMany : frame.


Lemma evolves_userPlaylist_create (now : Z) (userId : JS.value) (pid : string) :
  respects log_evolves (Prisma.userPlaylist_create now userId pid).
Proof.
  intros w. unfold Prisma.userPlaylist_create.
  destruct userId as [uid|]; [| apply log_evolves_refl].
  unfold bind, get_db, put_db, ret, throw. simpl.
  destruct (Prisma.has_playlist (db w) uid); simpl; [apply log_evolves_refl |].
  apply log_evolves_sub; simpl; auto.
Qed.


Lemma evolves_userPlaylist_delete (userId : JS.value) :
  respects log_evolves (Prisma.userPlaylist_delete userId).
Proof.
  intros w. unfold Prisma.userPlaylist_delete.
  destruct userId as [uid|]; [| apply log_evolves_refl].
  unfold bind, get_db, put_db, ret, throw. simpl.
  destruct (Prisma.has_playlist (db w) uid); simpl; [| apply log_evolves_refl].
  apply log_evolves_sub; simpl; auto.
Qed.


Lemma evolves_discoveryLog_update_added (id : nat) :
  respects log_evolves (Prisma.discoveryLog_update_added id).
Proof.
  intros w. unfold Prisma.discoveryLog_update_added, bind, get_db, put_db, ret, throw.
  simpl. destruct (find _ (discoveryLog (db w))); simpl; [| apply log_evolves_refl].
  split; simpl; [lia |].
  intros l' Hl'. apply in_map_iff in Hl'. destruct Hl' as (l & <- & Hl).
  right. exists l. repeat split; [assumption | now rewrite mark_id | apply mark_added].
Qed.

Lemma evolves_discoveryLog_create (now : Z) (uid title uri : string) (added : bool) :
  respects log_evolves (Prisma.discoveryLog_create now uid title uri added).
Proof.
  intros w. unfold Prisma.discoveryLog_create, bind, get_db, put_db, ret, throw.
  simpl. split; simpl; [lia |].
  intros l' Hl'. apply in_app_or in Hl'. destruct Hl' as [Hl' | [Hl' | []]].
  - right. exists l'. auto.
  - left. subst. simpl. lia.
Qed.


Lemma evolves_card_upsert (c : Card) : respects log_evolves (Prisma.card_upsert c).
Proof.
  intros w. unfold Prisma.card_upsert, bind, get_db, put_db, ret. simpl.
  destruct (existsb _ (card (db w))); simpl; [apply log_evolves_refl |].
  apply log_evolves_sub; simpl; auto.
Qed.

Lemma evolves_dailyCard_createMany (data : list (string * nat * Z)) :
  respects log_evolves (Prisma.dailyCard_createMany data).
Proof.
  intros w. unfold Prisma.dailyCard_createMany, bind, get_db, put_db, throw. simpl.
  destruct (fold_left _ data _) as [[t n]|]; simpl; [| apply log_evolves_refl].
  apply log_evolves_sub; simpl; auto.
Qed.


Lemma evolves_discovery (now : Z) (req : Request) : respects log_evolves (discovery now req).
Proof.
  unfold discovery.
  destruct (negb _ || negb _ || negb _);
    [apply readonly_respects; [apply log_evolves_refl | readonly_step] |].
  apply respects_try_catch; [apply log_evolves_trans | |].
  - apply respects_bind; [apply log_evolves_trans | |].
    + apply readonly_respects; [apply log_evolves_refl | auto with frame].
    + intros [e|].
      * apply readonly_respects; [apply log_evolves_refl | readonly_step].
      * apply respects_bind; [apply log_evolves_trans | apply evolves_discoveryLog_create |].
        intro l. apply readonly_respects; [apply log_evolves_refl | readonly_step].
  - apply readonly_respects; [apply log_evolves_refl | readonly_step].
Qed.


Lemma evolves_cards_daily (now : Z) (shuffle : list Card -> list Card) (req : Request) :
  respects log_evolves (cards_daily now shuffle req).
Proof.
  unfold cards_daily.
  destruct (negb _);
    [apply readonly_respects; [apply log_evolves_refl | readonly_step] |].
  apply respects_try_catch; [apply log_evolves_trans | |].
  - apply respects_bind; [apply log_evolves_trans | |].
    + apply readonly_respects; [apply log_evolves_refl | auto with frame].
    + intro daily. apply respects_bind; [apply log_evolves_trans | |].
      * destruct (Nat.eqb _ 0);
          [| apply readonly_respects; [apply log_evolves_refl | readonly_step]].
        apply respects_bind; [apply log_evolves_trans | |].
        { apply readonly_respects; [apply log_evolves_refl | auto with frame]. }
        intro seen. apply respects_bind; [apply log_evolves_trans | |].
        { apply readonly_respects; [apply log_evolves_refl | auto with frame]. }
        intro pool. apply respects_bind; [apply log_evolves_trans | |].
        { apply readonly_respects; [apply log_evolves_refl | readonly_step]. }
        intro candidates.
        apply respects_bind; [apply log_evolves_trans | apply evolves_dailyCard_createMany |].
        intro u. apply readonly_respects; [apply log_evolves_refl | readonly_step].
      * intro cs. apply readonly_respects; [apply log_evolves_refl | readonly_step].
  - apply readonly_respects; [apply log_evolves_refl | readonly_step].
Qed.

Section Served.

Variable R : Store -> Store -> Prop.
Hypothesis R_refl : forall st, R st st.
Hypothesis R_trans : forall a b c, R a b -> R b c -> R a c.
Hypothesis R_playlist_create :
  forall now userId pid, respects R (Prisma.userPlaylist_create now userId pid).
Hypothesis R_playlist_delete : forall userId, respects R (Prisma.userPlaylist_delete userId).
Hypothesis R_update_added : forall id, respects R (Prisma.discoveryLog_update_added id).
Hypothesis R_card_upsert : forall c, respects R (Prisma.card_upsert c).
Hypothesis R_discovery : forall now req, respects R (discovery now req).
Hypothesis R_cards_daily : forall now shuffle req, respects R (cards_daily now shuffle req).

Ltac reads := apply (readonly_respects R R_refl); solve [readonly_step].

Ltac respects_step :=
  repeat first
    [ progress intros
    | reads
    | solve [auto]
    | apply (respects_try_catch R R_trans)
    | apply (respects_bind R R_trans)
    | match goal with
      | |- respects R (match ?x with _ => _ end) => destruct x
      | |- respects R (if ?b then _ else _) => destruct b
      end ].

Lemma respects_exists_loop (fuel : nat) (up : Upstream) (now : Z) (token : string)
  (userId nextUrl : JS.value) (exists_ : bool) :
  respects R (exists_loop fuel up now token userId nextUrl exists_).
Proof.
  revert nextUrl exists_. induction fuel as [|fuel IH]; intros nextUrl exists_; simpl.
  - destruct (JS.truthy nextUrl && negb exists_); reads.
  - destruct (JS.truthy nextUrl && negb exists_); [| reads].
    respects_step.
Qed.

Lemma respects_upsert_all (cs : list Card) : respects R (upsert_all cs).
Proof. induction cs as [|c cs IH]; simpl; respects_step. Qed.

Lemma respects_handler (cfg : Config) (a : Ambient) (r : Route) (req : Request) :
  respects R (handler cfg a r req).
Proof.
  destruct r; simpl; auto.
  - reads.
  - unfold auth_callback. respects_step.
  - unfold auth_refresh. respects_step.
  - reads.
  - unfold playlist_create. respects_step.
  - unfold playlist_add. respects_step.
  - unfold playlist_exists. pose proof respects_exists_loop. respects_step.
  - unfold discovery_mark_as_added. respects_step.
  - unfold discovery_all. respects_step.
  - unfold me. respects_step.
  - unfold cards. respects_step.
  - unfold cards_seed. pose proof respects_upsert_all. respects_step.
  - unfold discovery_today. respects_step.
Qed.

Lemma respects_serve (cfg : Config) (a : Ambient) (r : Route) (req : Request) (st : Store) :
  R st (serve cfg a r req st).
Proof.
  unfold serve. rewrite snd_run. apply (respects_handler cfg a r req (enter st)).
Qed.

End Served.


Lemma serve_evolves (cfg : Config) (a : Ambient) (r : Route) (req : Request) (st : Store) :
  log_evolves st (serve cfg a r req st).
Proof.
  apply (respects_serve log_evolves log_evolves_refl log_evolves_trans
           evolves_userPlaylist_create evolves_userPlaylist_delete
           evolves_discoveryLog_update_added evolves_card_upsert
           evolves_discovery evolves_cards_daily).
Qed.


(* ================================================================== *)
(** * The OAuth callback *)
(* ================================================================== *)

(** C1.  A callback whose [error] is not ["access_denied"] and whose
    [state] is absent, or differs from the [spotify_state] cookie (an
    absent cookie differs from every state), is answered
    [400 State mismatch]; no call reaches the token endpoint, no cookie
    is touched and the store is as before. *)
Theorem callback_state_mismatch (cfg : Config) (up : Upstream) (req : Request) (st : Store) :
  field "error" (req_query req) <> Some "access_denied" ->
  field "state" (req_query req) = None
  \/ field "state" (req_query req) <> field "spotify_state" (req_cookies req) ->
  run (auth_callback cfg up req) st = (Some (Send 400 (Text "State mismatch")), enter st)
  /\ calls (snd (run (auth_callback cfg up req) st)) = [].
Proof.
  intros Herr Hstate.
  apply strict_eq_false in Herr.
  assert (Hguard : negb (JS.truthy (field "state" (req_query req)))
                   || negb (JS.strict_eq (field "state" (req_query req))
                              (field "spotify_state" (req_cookies req))) = true).
  { destruct Hstate as [Habsent | Hdiff].
    - rewrite Habsent. reflexivity.
    - apply strict_eq_false in Hdiff. rewrite Hdiff. apply orb_true_r. }
  unfold run, auth_callback. rewrite Herr, Hguard. simpl. split; reflexivity.
Qed.


Lemma callback_state_mismatch_witness :
  run (auth_callback sample_cfg silent mismatch_request) empty_store
  = (Some (Send 400 (Text "State mismatch")), enter empty_store)
  /\ calls (snd (run (auth_callback sample_cfg silent mismatch_request) empty_store)) = [].
Proof.
  apply callback_state_mismatch.
  - simpl. discriminate.
  - right. simpl. discriminate.
Defined.

(** C9.  A callback whose [error] is ["access_denied"] is redirected to
    the login page with that error, whatever its [state] and cookies:
    the branch comes before the state check, so the answer is not 400
    and no call reaches the token endpoint. *)
Theorem callback_access_denied (cfg : Config) (up : Upstream) (req : Request) (st : Store) :
  field "error" (req_query req) = Some "access_denied" ->
  run (auth_callback cfg up req) st
  = (Some (Redirect (CLIENT_URL cfg ++ "/login?error=access_denied")), enter st)
  /\ calls (snd (run (auth_callback cfg up req) st)) = [].
Proof.
  intro Herr. unfold run, auth_callback. rewrite Herr. simpl. split; reflexivity.
Qed.


Lemma callback_access_denied_witness :
  run (auth_callback sample_cfg silent denied_request) empty_store
  = (Some (Redirect "https://app.example/login?error=access_denied"), enter empty_store)
  /\ calls (snd (run (auth_callback sample_cfg silent denied_request) empty_store)) = [].
Proof.
  apply (callback_access_denied sample_cfg silent denied_request empty_store).
  reflexivity.
Defined.

(* ================================================================== *)
(** * The refresh endpoint *)
(* ================================================================== *)

(** C2, as stated, fails: an upstream answer whose [refresh_token]
    field is present but empty does not re-issue the cookie. *)
Lemma refresh_empty_field_not_reissued :
  token_endpoint upstream_empty_rotation
    (refresh_form sample_cfg (field "refresh_token" (req_cookies refresh_request)))
  = Some (true, TokenData empty_rotation)
  /\ fst (run (auth_refresh sample_cfg upstream_empty_rotation refresh_request) empty_store)
     = Some (Send 200 (TokenJson (Some "acc3ss") (Some 3600%Z)))
  /\ ~ (reissues_refresh_cookie
          (snd (run (auth_refresh sample_cfg upstream_empty_rotation refresh_request)
                  empty_store))
        <-> has_refresh_token_field (TokenData empty_rotation)).
Proof.
  split; [reflexivity | split; [reflexivity |]].
  intros [_ Hback].
  destruct Hback as (v & o & Hin).
  - simpl. discriminate.
  - simpl in Hin. exact Hin.
Qed.

(** C2, amended.  After a successful exchange the answer is
    [200 { access_token, expires_in }] with the new token and its
    expiry, and the [refresh_token] cookie is set again exactly when
    the upstream [refresh_token] is present and not empty; otherwise no
    cookie operation is made and the cookie the browser holds stays.
    The store is not touched. *)
Theorem refresh_reissues_iff_nonempty (cfg : Config) (up : Upstream) (req : Request)
  (st : Store) (t : SpotifyTokenResponse) :
  JS.truthy (field "refresh_token" (req_cookies req)) = true ->
  token_endpoint up (refresh_form cfg (field "refresh_token" (req_cookies req)))
  = Some (true, TokenData t) ->
  access_token t <> "" ->
  let w := snd (run (auth_refresh cfg up req) st) in
  fst (run (auth_refresh cfg up req) st)
  = Some (Send 200 (TokenJson (Some (access_token t)) (Some (expires_in t))))
  /\ (reissues_refresh_cookie w <-> JS.truthy (refresh_token t) = true)
  /\ (JS.truthy (refresh_token t) = true ->
      cookies w = [SetCookie "refresh_token" (refresh_token t) (refresh_cookie_options cfg)])
  /\ (JS.truthy (refresh_token t) = false ->
      cookies w = [] /\ forall held, jar_after "refresh_token" held (cookies w) = held)
  /\ db w = st.
Proof.
  intros Hcookie Hup Hacc w. subst w.
  unfold run, auth_refresh, fetch, bind, log_call, try_catch, ret, json, respond, cookie_op.
  rewrite Hcookie. simpl. rewrite Hup. simpl.
  destruct (access_token t) as [|c a] eqn:Ha; [congruence | clear Hacc]. simpl.
  destruct (JS.truthy (refresh_token t)) eqn:Hrot; simpl.
  - repeat split; try reflexivity; try discriminate.
    exists (refresh_token t), (refresh_cookie_options cfg). now left.
  - repeat split; try reflexivity; try discriminate.
    intros (v & o & []).
Qed.

Lemma refresh_reissues_iff_nonempty_witness :
  let w := snd (run (auth_refresh sample_cfg upstream_rotation refresh_request) empty_store) in
  fst (run (auth_refresh sample_cfg upstream_rotation refresh_request) empty_store)
  = Some (Send 200 (TokenJson (Some "acc3ss") (Some 3600%Z)))
  /\ (reissues_refresh_cookie w <-> JS.truthy (Some "r0tat3d") = true)
  /\ (JS.truthy (Some "r0tat3d") = true ->
      cookies w = [SetCookie "refresh_token" (Some "r0tat3d")
                     (refresh_cookie_options sample_cfg)])
  /\ (JS.truthy (Some "r0tat3d") = false ->
      cookies w = [] /\ forall held, jar_after "refresh_token" held (cookies w) = held)
  /\ db w = empty_store.
Proof.
  apply (refresh_reissues_iff_nonempty sample_cfg upstream_rotation refresh_request
           empty_store rotation).
  - reflexivity.
  - reflexivity.
  - simpl. discriminate.
Defined.

(* ================================================================== *)
(** * The discovery ledger *)
(* ================================================================== *)

Lemma same_pair_refl (uid uri title : string) (id : nat) (added : bool) (now : Z) :
  Prisma.same_pair uid uri (mkDiscoveryLog id uid title uri added now) = true.
Proof. unfold Prisma.same_pair. simpl. now rewrite !String.eqb_refl. Qed.

Lemma discovery_body_guard (req : Request) (uid uri : string) :
  discovery_body req uid uri ->
  negb (JS.truthy (field "userId" (req_body req)))
  || negb (JS.truthy (field "cardTitle" (req_body req)))
  || negb (JS.truthy (field "trackUri" (req_body req))) = false.
Proof.
  intros (Hu & Ht & Hune & Htne & Hc). rewrite Hu, Ht, Hc.
  destruct uid; [congruence |]. destruct uri; [congruence |]. reflexivity.
Qed.

(** C3.  Two records of the same [(userId, trackUri)], for any user
    (with a playlist record or without one), the store having at most
    one entry for the pair: both answers carry the same entry id, the
    second is ["Ya registrado"] and writes nothing, and the store holds
    exactly one entry for the pair. *)
Theorem discovery_twice (now1 now2 : Z) (req1 req2 : Request) (st : Store)
  (uid uri : string) :
  discovery_body req1 uid uri ->
  discovery_body req2 uid uri ->
  List.length (entries_for st uid uri) <= 1 ->
  let first := run (discovery now1 req1) st in
  let second := run (discovery now2 req2) (db (snd first)) in
  exists id,
    recorded_id (fst first) = Some id
    /\ fst second = Some (Send 200 (RecordedJson "Ya registrado" id))
    /\ db (snd second) = db (snd first)
    /\ List.length (entries_for (db (snd second)) uid uri) = 1.
Proof.
  intros Hb1 Hb2 Hone first second. subst first second.
  pose proof (discovery_body_guard _ _ _ Hb1) as Hg1.
  pose proof (discovery_body_guard _ _ _ Hb2) as Hg2.
  destruct Hb1 as (Hu1 & Ht1 & _ & _ & _). destruct Hb2 as (Hu2 & Ht2 & _ & _ & _).
  unfold run, discovery, entries_for in *.
  rewrite Hg1, Hg2, Hu1, Ht1, Hu2, Ht2. step_monad. unfold JS.to_string.
  destruct (find (Prisma.same_pair uid uri) (discoveryLog st)) as [e|] eqn:Hfind.
  - step_monad. rewrite Hfind. step_monad. exists (dl_id e). repeat split.
    apply find_some_filter in Hfind. destruct Hfind as (rest & Hrest).
    rewrite Hrest in *. simpl in *. destruct rest; simpl in *; lia.
  - step_monad.
    rewrite (find_app_none _ _ _ Hfind). simpl. rewrite same_pair_refl. step_monad.
    exists (next_cuid st). repeat split.
    rewrite filter_app, length_app. simpl. rewrite same_pair_refl.
    apply find_none_filter in Hfind. rewrite Hfind. reflexivity.
Qed.

Lemma discovery_twice_witness :
  let first := run (discovery 1700000000000 discovery_request) empty_store in
  let second := run (discovery 1700000060000 discovery_request) (db (snd first)) in
  exists id,
    recorded_id (fst first) = Some id
    /\ fst second = Some (Send 200 (RecordedJson "Ya registrado" id))
    /\ db (snd second) = db (snd first)
    /\ List.length
         (entries_for (db (snd second)) "ana" "spotify:track:6evpAJCR5GeeHDGgv3aXb3") = 1.
Proof.
  apply (discovery_twice 1700000000000 1700000060000 discovery_request discovery_request
           empty_store "ana" "spotify:track:6evpAJCR5GeeHDGgv3aXb3").
  - repeat split; try reflexivity; discriminate.
  - repeat split; try reflexivity; discriminate.
  - simpl. lia.
Defined.

Lemma mark_body_guard (req : Request) (uid uri : string) :
  mark_body req uid uri ->
  negb (JS.truthy (field "userId" (req_body req)))
  || negb (JS.truthy (field "trackUri" (req_body req))) = false.
Proof.
  intros (Hu & Ht & Hune & Htne). rewrite Hu, Ht.
  destruct uid; [congruence |]. destruct uri; [congruence |]. reflexivity.
Qed.

Lemma mark_self (l : DiscoveryLog) : dl_added (Prisma.mark (dl_id l) l) = true.
Proof. unfold Prisma.mark. now rewrite Nat.eqb_refl. Qed.

(** An entry that survives a request keeps [added] once set. *)
Lemma added_stays (cfg : Config) (a : Ambient) (r : Route) (req : Request) (st : Store)
  (l l' : DiscoveryLog) :
  wf_store st ->
  In l (discoveryLog st) -> In l' (discoveryLog (serve cfg a r req st)) ->
  dl_id l' = dl_id l -> dl_added l = true -> dl_added l' = true.
Proof.
  intros Hwf Hl Hl' Hid Hadded.
  destruct (serve_evolves cfg a r req st) as [_ Hev].
  destruct (Hev l' Hl') as [Hnew | (l0 & Hl0 & Hid0 & Hkeep)].
  - pose proof (wf_log_fresh st Hwf l Hl). lia.
  - assert (l0 = l) as ->.
    { eapply NoDup_map_inj; [apply (wf_log_ids st Hwf) | assumption | assumption | congruence]. }
    auto.
Qed.

(** C4.  [mark-as-added] on a pair without entry answers 404 and writes
    nothing; on an entry already added it answers
    ["Ya estaba marcado como añadido"] and writes nothing; otherwise it
    sets [added] on the entry.  And no request of any route turns the
    [added] of an entry from true back to false. *)
Theorem mark_as_added_one_way (req : Request) (st : Store) (uid uri : string) :
  mark_body req uid uri ->
  (find (Prisma.same_pair uid uri) (discoveryLog st) = None ->
   run (discovery_mark_as_added req) st
   = (Some (Send 404 (ErrorJson "No se encontró el DiscoveryLog")), enter st))
  /\ (forall e, find (Prisma.same_pair uid uri) (discoveryLog st) = Some e ->
      dl_added e = true ->
      run (discovery_mark_as_added req) st
      = (Some (Send 200 (MessageJson "Ya estaba marcado como añadido")), enter st))
  /\ (forall e, find (Prisma.same_pair uid uri) (discoveryLog st) = Some e ->
      dl_added e = false ->
      let w := snd (run (discovery_mark_as_added req) st) in
      (exists updated,
         fst (run (discovery_mark_as_added req) st) = Some (Send 200 (LogJson updated))
         /\ dl_id updated = dl_id e /\ dl_added updated = true)
      /\ discoveryLog (db w) = map (Prisma.mark (dl_id e)) (discoveryLog st)
      /\ find (Prisma.same_pair uid uri) (discoveryLog (db w))
         = Some (Prisma.mark (dl_id e) e)
      /\ dl_added (Prisma.mark (dl_id e) e) = true)
  /\ (forall cfg a r rq st0 l l',
        wf_store st0 ->
        In l (discoveryLog st0) -> In l' (discoveryLog (serve cfg a r rq st0)) ->
        dl_id l' = dl_id l -> dl_added l = true -> dl_added l' = true).
Proof.
  intro Hb. pose proof (mark_body_guard _ _ _ Hb) as Hg.
  destruct Hb as (Hu & Ht & _ & _).
  split; [| split; [| split]].
  - intro Hfind. unfold run, discovery_mark_as_added.
    rewrite Hg, Hu, Ht. step_monad. unfold JS.to_string. rewrite Hfind. reflexivity.
  - intros e Hfind Hadded. unfold run, discovery_mark_as_added.
    rewrite Hg, Hu, Ht. step_monad. unfold JS.to_string. rewrite Hfind, Hadded. reflexivity.
  - intros e Hfind Hadded. unfold run, discovery_mark_as_added.
    rewrite Hg, Hu, Ht. step_monad. unfold JS.to_string. rewrite Hfind, Hadded.
    step_monad.
    destruct (find (fun l => Nat.eqb (dl_id l) (dl_id e)) (discoveryLog st)) as [e0|] eqn:Hid.
    + step_monad. apply find_some in Hid. destruct Hid as [_ Hid]. apply Nat.eqb_eq in Hid.
      repeat split.
      * exists (Prisma.mark (dl_id e) e0). split; [reflexivity |].
        rewrite mark_id. split; [assumption |].
        unfold Prisma.mark. rewrite Hid, Nat.eqb_refl. reflexivity.
      * rewrite find_map_invariant by (intro; apply mark_same_pair).
        now rewrite Hfind.
      * apply mark_self.
    + exfalso. apply find_some in Hfind. destruct Hfind as [Hin _].
      eapply find_none in Hid; [| exact Hin]. simpl in Hid.
      rewrite Nat.eqb_refl in Hid. discriminate.
  - intros cfg a r rq st0 l l'. apply added_stays.
Qed.

Lemma mark_as_added_one_way_witness :
  (exists updated,
     fst (run (discovery_mark_as_added mark_request) store_with_entry)
     = Some (Send 200 (LogJson updated))
     /\ dl_id updated = dl_id seen_entry /\ dl_added updated = true)
  /\ discoveryLog (db (snd (run (discovery_mark_as_added mark_request) store_with_entry)))
     = map (Prisma.mark (dl_id seen_entry)) (discoveryLog store_with_entry)
  /\ find (Prisma.same_pair "ana" "spotify:track:6evpAJCR5GeeHDGgv3aXb3")
       (discoveryLog (db (snd (run (discovery_mark_as_added mark_request) store_with_entry))))
     = Some (Prisma.mark (dl_id seen_entry) seen_entry)
  /\ dl_added (Prisma.mark (dl_id seen_entry) seen_entry) = true.
Proof.
  refine (proj1 (proj2 (proj2
            (mark_as_added_one_way mark_request store_with_entry "ana"
               "spotify:track:6evpAJCR5GeeHDGgv3aXb3" _))) seen_entry _ _).
  - repeat split; try reflexivity; discriminate.
  - reflexivity.
  - reflexivity.
Defined.

(* ================================================================== *)
(** * The daily cards *)
(* ================================================================== *)

Lemma daily_query_guard (req : Request) (uid : string) :
  daily_query req uid -> negb (JS.truthy (field "userId" (req_query req))) = false.
Proof. intros [Hu Hne]. rewrite Hu. destruct uid; [congruence | reflexivity]. Qed.

Lemma include_card_spec (st : Store) (rows : list DailyCard)
  (joined : list (DailyCard * Card)) :
  Prisma.include_card st rows = Some joined ->
  map fst joined = rows
  /\ map card_id (map snd joined) = map dc_cardId rows
  /\ Forall (fun c => In c (card st)) (map snd joined).
Proof.
  revert joined. induction rows as [|d rows IH]; simpl; intros joined H.
  - inversion H; subst. repeat split; constructor.
  - destruct (Prisma.card_of st (dc_cardId d)) as [c|] eqn:Hc; [| discriminate].
    destruct (Prisma.include_card st rows) as [rest|]; [| discriminate].
    inversion H; subst. destruct (IH rest eq_refl) as (H1 & H2 & H3).
    apply card_of_some in Hc. destruct Hc as [Hin Hid].
    simpl. repeat split; try congruence. constructor; assumption.
Qed.

Lemma include_card_total (st : Store) (rows : list DailyCard) :
  (forall d, In d rows -> Prisma.card_of st (dc_cardId d) <> None) ->
  exists joined, Prisma.include_card st rows = Some joined.
Proof.
  induction rows as [|d rows IH]; simpl; intro H; [eauto |].
  destruct (Prisma.card_of st (dc_cardId d)) as [c|] eqn:Hc;
    [| exfalso; apply (H d); auto].
  destruct IH as (rest & Hrest); [intros; apply H; auto |].
  rewrite Hrest. eauto.
Qed.

(** The rows just assigned join back to the selected cards. *)
Lemma include_card_rows (st : Store) (uid : string) (date : Z) (selected : list Card)
  (n : nat) :
  NoDup (map card_id (card st)) ->
  Forall (fun c => In c (card st)) selected ->
  exists joined,
    Prisma.include_card st (rows_from n (map (fun c => (uid, card_id c, date)) selected))
    = Some joined
    /\ map snd joined = selected.
Proof.
  intros Hnd Hsel. revert n. induction Hsel as [|c selected Hc Hsel IH]; intro n; simpl.
  - eauto.
  - rewrite (card_of_in st c Hnd Hc). destruct (IH (S n)) as (rest & Hrest & Hsnd).
    rewrite Hrest. eexists. split; [reflexivity |]. simpl. now rewrite Hsnd.
Qed.

Lemma in_day_spec (uid : string) (now : Z) (d : DailyCard) :
  Prisma.in_day uid (utc_midnight now) (utc_midnight now + day_ms) d = true
  <-> dc_userId d = uid /\ (utc_midnight now <= dc_date d < utc_midnight now + day_ms)%Z.
Proof.
  unfold Prisma.in_day. rewrite !andb_true_iff, String.eqb_eq, Z.leb_le, Z.ltb_lt. tauto.
Qed.

Lemma assignment_key (st : Store) (uid : string) (now : Z) (d : DailyCard) :
  wf_store st -> In d (assignments st uid now) ->
  In d (dailyCard st) /\ daily_key d = (uid, dc_cardId d, utc_midnight now).
Proof.
  intros Hwf Hd. apply filter_In in Hd. destruct Hd as [Hd Hday].
  apply in_day_spec in Hday. destruct Hday as [Hu Hr].
  split; [assumption |]. unfold daily_key.
  rewrite Hu, (midnight_in_day now (dc_date d)); auto.
  apply (wf_daily_midnight st Hwf d Hd).
Qed.

(** The assignments of one user and day name pairwise distinct cards. *)
Lemma assignments_distinct (st : Store) (uid : string) (now : Z) :
  wf_store st -> NoDup (map dc_cardId (assignments st uid now)).
Proof.
  intro Hwf.
  assert (Hkeys : NoDup (map daily_key (assignments st uid now))).
  { apply NoDup_map_filter. apply (wf_daily_key st Hwf). }
  assert (Heq : map daily_key (assignments st uid now)
                = map (fun cid => (uid, cid, utc_midnight now))
                    (map dc_cardId (assignments st uid now))).
  { rewrite map_map. apply map_ext_in. intros d Hd.
    apply (assignment_key st uid now d Hwf Hd). }
  rewrite Heq in Hkeys. eapply NoDup_map_inv. exact Hkeys.
Qed.

Lemma unseen_incl (st : Store) (uid : string) (c : Card) :
  In c (daily_candidates st uid) -> In c (card st).
Proof.
  unfold daily_candidates, unseen. destruct (Nat.leb 3 _); [| auto].
  intro H. apply filter_In in H. tauto.
Qed.

Lemma candidates_distinct (st : Store) (uid : string) :
  wf_store st -> NoDup (map card_id (daily_candidates st uid)).
Proof.
  intro Hwf. unfold daily_candidates, unseen. destruct (Nat.leb 3 _).
  - apply NoDup_map_filter. apply (wf_card_ids st Hwf).
  - apply (wf_card_ids st Hwf).
Qed.

Lemma candidates_length (st : Store) (uid : string) :
  Nat.min 3 (List.length (daily_candidates st uid)) = Nat.min 3 (List.length (card st)).
Proof.
  unfold daily_candidates. destruct (Nat.leb 3 (List.length (unseen st uid))) eqn:H; [| reflexivity].
  apply Nat.leb_le in H.
  pose proof (filter_length_le
                (fun c => negb (Prisma.mem_string (card_uri c) (map dl_trackUri (history st uid))))
                (card st)) as Hle.
  fold (unseen st uid) in Hle. lia.
Qed.

(** What the shuffle and the slice select: distinct cards of the table. *)
Lemma selected_distinct (st : Store) (uid : string) (shuffle : list Card -> list Card) :
  wf_store st -> (forall l, Permutation l (shuffle l)) ->
  NoDup (map card_id (firstn 3 (shuffle (daily_candidates st uid))))
  /\ Forall (fun c => In c (card st)) (firstn 3 (shuffle (daily_candidates st uid)))
  /\ List.length (firstn 3 (shuffle (daily_candidates st uid)))
     = Nat.min 3 (List.length (card st)).
Proof.
  intros Hwf Hperm. pose proof (Hperm (daily_candidates st uid)) as Hp.
  repeat split.
  - rewrite <- firstn_map. apply NoDup_firstn.
    eapply Permutation_NoDup; [apply Permutation_map; exact Hp |].
    now apply candidates_distinct.
  - apply Forall_forall. intros c Hc. apply In_firstn in Hc.
    apply (unseen_incl st uid). eapply Permutation_in; [symmetry; exact Hp | exact Hc].
  - rewrite length_firstn, <- (Permutation_length Hp). apply candidates_length.
Qed.

(** A request of a day that has assignments answers their cards and
    writes nothing. *)
Lemma cards_daily_stored (now : Z) (shuffle : list Card -> list Card) (req : Request)
  (st : Store) (uid : string) (joined : list (DailyCard * Card)) :
  daily_query req uid ->
  Prisma.include_card st (assignments st uid now) = Some joined ->
  assignments st uid now <> [] ->
  run (cards_daily now shuffle req) st
  = (Some (Send 200 (CardsJson (map snd joined))), enter st).
Proof.
  intros Hq Hinc Hne. pose proof (daily_query_guard _ _ Hq) as Hg. destruct Hq as [Hu _].
  unfold run, cards_daily. rewrite Hg, Hu. step_monad. unfold JS.to_string.
  unfold assignments in Hinc. rewrite Hinc. step_monad.
  destruct joined as [|p joined].
  - apply include_card_spec in Hinc. destruct Hinc as [Hfst _]. simpl in Hfst.
    exfalso. apply Hne. unfold assignments. now rewrite <- Hfst.
  - reflexivity.
Qed.

(** The first request of a day selects from the candidates and stores
    what it selected. *)
Lemma cards_daily_fresh (now : Z) (shuffle : list Card -> list Card) (req : Request)
  (st : Store) (uid : string) :
  daily_query req uid -> wf_store st ->
  assignments st uid now = [] ->
  (forall l, Permutation l (shuffle l)) ->
  run (cards_daily now shuffle req) st
  = (Some (Send 200 (CardsJson (firstn 3 (shuffle (daily_candidates st uid))))),
     enter (with_assignments st uid now (firstn 3 (shuffle (daily_candidates st uid))))).
Proof.
  intros Hq Hwf Hnone Hperm.
  pose proof (daily_query_guard _ _ Hq) as Hg. destruct Hq as [Hu _].
  destruct (selected_distinct st uid shuffle Hwf Hperm) as (Hsel_nd & Hsel_in & _).
  set (selected := firstn 3 (shuffle (daily_candidates st uid))) in *.
  assert (Hfold :
    fold_left (Prisma.insert_daily st)
      (map (fun c => (uid, card_id c, utc_midnight now)) selected)
      (Some (dailyCard st, next_daily_id st))
    = Some (dailyCard st
            ++ rows_from (next_daily_id st)
                 (map (fun c => (uid, card_id c, utc_midnight now)) selected),
            next_daily_id st + List.length selected)).
  { rewrite <- (length_map (fun c => (uid, card_id c, utc_midnight now)) selected).
    apply fold_insert_daily_ok.
    - apply NoDup_app.
      + apply (wf_daily_key st Hwf).
      + rewrite <- (map_map card_id (fun cid => (uid, cid, utc_midnight now))).
        apply NoDup_map_injective; [| exact Hsel_nd].
        intros x y Hxy. congruence.
      + intros k Hold Hnew. apply in_map_iff in Hold. destruct Hold as (d & Hk & Hd).
        apply in_map_iff in Hnew. destruct Hnew as (c & Hkc & _).
        assert (Hin : In d (assignments st uid now)).
        { apply filter_In. split; [assumption |]. apply in_day_spec.
          unfold daily_key in Hk. rewrite <- Hkc in Hk. inversion Hk; subst.
          split; [reflexivity |]. unfold day_ms. lia. }
        rewrite Hnone in Hin. contradiction.
    - intros u cid date Hin. apply in_map_iff in Hin. destruct Hin as (c & Hk & Hc).
      inversion Hk; subst.
      rewrite Forall_forall in Hsel_in.
      rewrite (card_of_in st c (wf_card_ids st Hwf) (Hsel_in c Hc)). discriminate. }
  unfold run, cards_daily. rewrite Hg, Hu. step_monad. unfold JS.to_string.
  unfold assignments in Hnone. rewrite Hnone. step_monad.
  change (Nat.eqb (List.length (@nil (DailyCard * Card))) 0) with true. step_monad.
  unfold selected, daily_candidates, unseen, history in *.
  destruct (Nat.leb 3 _); step_monad; rewrite Hfold; reflexivity.
Qed.

Lemma in_day_rows (uid : string) (now : Z) (data : list nat) (n : nat) :
  filter (Prisma.in_day uid (utc_midnight now) (utc_midnight now + day_ms))
    (rows_from n (map (fun cid => (uid, cid, utc_midnight now)) data))
  = rows_from n (map (fun cid => (uid, cid, utc_midnight now)) data).
Proof.
  revert n. induction data as [|cid data IH]; intro n; simpl; [reflexivity |].
  replace (Prisma.in_day uid (utc_midnight now) (utc_midnight now + day_ms)
             (mkDailyCard n uid cid (utc_midnight now))) with true.
  - now rewrite IH.
  - symmetry. apply in_day_spec. simpl. split; [reflexivity |]. unfold day_ms. lia.
Qed.

Lemma assignments_with (st : Store) (uid : string) (now : Z) (selected : list Card) :
  assignments st uid now = [] ->
  assignments (with_assignments st uid now selected) uid now
  = rows_from (next_daily_id st) (map (fun c => (uid, card_id c, utc_midnight now)) selected).
Proof.
  intro Hnone. unfold assignments, with_assignments in *. simpl.
  rewrite filter_app, Hnone. simpl.
  rewrite <- (map_map card_id (fun cid => (uid, cid, utc_midnight now))).
  apply in_day_rows.
Qed.

Lemma rows_from_cardIds (uid : string) (date : Z) (selected : list Card) (n : nat) :
  map dc_cardId (rows_from n (map (fun c => (uid, card_id c, date)) selected))
  = map card_id selected.
Proof.
  revert n. induction selected as [|c selected IH]; intro n; simpl; [reflexivity |].
  now rewrite IH.
Qed.

(** C5, as stated, fails: with two cards in the table the first request
    of the day stores two assignments, not three. *)
Lemma daily_two_cards_two_assignments :
  let st' := db (snd (run (cards_daily an_evening in_order daily_request) store_two_cards)) in
  assignments store_two_cards "ana" an_evening = []
  /\ fst (run (cards_daily an_evening in_order daily_request) store_two_cards)
     = Some (Send 200 (CardsJson [archangel; homecoming]))
  /\ List.length (assignments st' "ana" an_evening) = 2
  /\ List.length (assignments st' "ana" an_evening) <> 3.
Proof. vm_compute. repeat split; discriminate. Qed.

(** C5, amended.  Once assignments exist for a user and UTC day, a
    request of that day answers exactly their cards and writes nothing.
    The first request of the day, by any user, stores as many
    assignments as it selected cards: [min 3] of the number of cards in
    the table, so three as soon as the table holds three; and every
    later request of that day answers the same cards, whatever its
    shuffle. *)
Theorem daily_assignments_fixed (now : Z) (shuffle : list Card -> list Card)
  (req : Request) (st : Store) (uid : string) :
  wf_store st -> daily_query req uid ->
  (assignments st uid now <> [] ->
   exists cs,
     run (cards_daily now shuffle req) st = (Some (Send 200 (CardsJson cs)), enter st)
     /\ map card_id cs = map dc_cardId (assignments st uid now))
  /\ (assignments st uid now = [] ->
      (forall l, Permutation l (shuffle l)) ->
      exists selected,
        let st' := with_assignments st uid now selected in
        run (cards_daily now shuffle req) st
        = (Some (Send 200 (CardsJson selected)), enter st')
        /\ map dc_cardId (assignments st' uid now) = map card_id selected
        /\ List.length (assignments st' uid now) = Nat.min 3 (List.length (card st))
        /\ (card st <> [] ->
            forall now' shuffle', utc_midnight now' = utc_midnight now ->
              run (cards_daily now' shuffle' req) st'
              = (Some (Send 200 (CardsJson selected)), enter st'))).
Proof.
  intros Hwf Hq. split.
  - intro Hsome.
    destruct (include_card_total st (assignments st uid now)) as (joined & Hj).
    { intros d Hd. apply filter_In in Hd. apply (wf_daily_card st Hwf), Hd. }
    exists (map snd joined). split.
    + now apply cards_daily_stored with (uid := uid).
    + apply include_card_spec in Hj. tauto.
  - intros Hnone Hperm.
    destruct (selected_distinct st uid shuffle Hwf Hperm) as (Hnd & Hin & Hlen).
    set (selected := firstn 3 (shuffle (daily_candidates st uid))) in *.
    exists selected. cbv zeta.
    pose proof (assignments_with st uid now selected Hnone) as Hrows.
    split; [| split; [| split]].
    + now apply cards_daily_fresh.
    + rewrite Hrows. apply rows_from_cardIds.
    + rewrite Hrows, rows_from_length, length_map. exact Hlen.
    + intros Hcards now' shuffle' Hday.
      destruct (include_card_rows (with_assignments st uid now selected) uid
                  (utc_midnight now) selected (next_daily_id st))
        as (joined & Hj & Hsnd).
      { apply (wf_card_ids st Hwf). }
      { exact Hin. }
      rewrite <- Hrows in Hj.
      assert (Hsame : assignments (with_assignments st uid now selected) uid now'
                      = assignments (with_assignments st uid now selected) uid now).
      { unfold assignments. now rewrite Hday. }
      rewrite <- Hsame in Hj.
      assert (Hne : assignments (with_assignments st uid now selected) uid now' <> []).
      { rewrite Hsame, Hrows. intro Hempty.
        apply (f_equal (@List.length DailyCard)) in Hempty.
        rewrite rows_from_length, length_map, Hlen in Hempty. simpl in Hempty.
        destruct (card st); [congruence | simpl in Hempty; lia]. }
      pose proof (cards_daily_stored now' shuffle' req _ uid joined Hq Hj Hne) as Hrun.
      rewrite Hsnd in Hrun. exact Hrun.
Qed.

Lemma wf_store_two_cards : wf_store store_two_cards.
Proof.
  constructor; simpl.
  - constructor.
  - intros l [].
  - intros uid uri. lia.
  - repeat constructor; simpl; tauto.
  - repeat constructor; simpl; intuition discriminate.
  - intros c0 [<- | [<- | []]]; simpl; lia.
  - repeat constructor; simpl; intuition discriminate.
  - constructor.
  - intros d [].
  - intros d [].
Qed.

Lemma in_order_permutation (l : list Card) : Permutation l (in_order l).
Proof. apply Permutation_refl. Qed.

Lemma daily_assignments_fixed_witness :
  exists selected,
    let st' := with_assignments store_two_cards "ana" an_evening selected in
    run (cards_daily an_evening in_order daily_request) store_two_cards
    = (Some (Send 200 (CardsJson selected)), enter st')
    /\ map dc_cardId (assignments st' "ana" an_evening) = map card_id selected
    /\ List.length (assignments st' "ana" an_evening)
       = Nat.min 3 (List.length (card store_two_cards))
    /\ (card store_two_cards <> [] ->
        forall now' shuffle', utc_midnight now' = utc_midnight an_evening ->
          run (cards_daily now' shuffle' daily_request) st'
          = (Some (Send 200 (CardsJson selected)), enter st')).
Proof.
  apply (daily_assignments_fixed an_evening in_order daily_request store_two_cards "ana"
           wf_store_two_cards).
  - split; [reflexivity | discriminate].
  - reflexivity.
  - exact in_order_permutation.
Defined.

(** C6, as stated, fails: with a table of two cards and a user without
    discoveries the answer has the two cards, each once, and not three. *)
Lemma daily_pool_of_two_answers_two :
  List.length (card store_two_cards) = 2
  /\ history store_two_cards "ana" = []
  /\ exists cs,
       fst (run (cards_daily later_that_evening in_order daily_request) store_two_cards)
       = Some (Send 200 (CardsJson cs))
       /\ List.length cs = 2 /\ List.length cs <> 3 /\ NoDup cs.
Proof.
  split; [reflexivity | split; [reflexivity |]].
  exists [archangel; homecoming].
  split; [vm_compute; reflexivity |].
  split; [reflexivity | split; [discriminate |]].
  repeat constructor; simpl; intuition discriminate.
Qed.

(** C6, amended.  With a table of two cards, a user without discovery
    history gets no error on the first request of the day: fewer than
    three cards are unseen, so the candidates are all the cards, and
    the answer is the two cards of the table in the order of the
    shuffle, each once. *)
Theorem daily_small_pool (now : Z) (shuffle : list Card -> list Card) (req : Request)
  (st : Store) (uid : string) :
  wf_store st -> daily_query req uid ->
  List.length (card st) = 2 ->
  history st uid = [] ->
  assignments st uid now = [] ->
  (forall l, Permutation l (shuffle l)) ->
  daily_candidates st uid = card st
  /\ fst (run (cards_daily now shuffle req) st)
     = Some (Send 200 (CardsJson (shuffle (card st))))
  /\ Permutation (card st) (shuffle (card st))
  /\ List.length (shuffle (card st)) = 2
  /\ NoDup (shuffle (card st)).
Proof.
  intros Hwf Hq Htwo Hhist Hnone Hperm.
  assert (Hcand : daily_candidates st uid = card st).
  { unfold daily_candidates.
    destruct (Nat.leb 3 (List.length (unseen st uid))) eqn:Hleb; [| reflexivity].
    apply Nat.leb_le in Hleb. unfold unseen in Hleb.
    pose proof (filter_length_le
                  (fun c => negb (Prisma.mem_string (card_uri c)
                                    (map dl_trackUri (history st uid))))
                  (card st)).
    lia. }
  assert (Hlen : List.length (shuffle (card st)) = 2).
  { rewrite <- (Permutation_length (Hperm (card st))). exact Htwo. }
  split; [exact Hcand | split; [| split; [| split]]].
  - rewrite (cards_daily_fresh now shuffle req st uid Hq Hwf Hnone Hperm).
    cbn [fst]. rewrite Hcand, firstn_all2 by lia. reflexivity.
  - apply Hperm.
  - exact Hlen.
  - eapply Permutation_NoDup; [apply Hperm |].
    eapply NoDup_map_inv. apply (wf_card_ids st Hwf).
Qed.

Lemma daily_small_pool_witness :
  daily_candidates store_two_cards "ana" = card store_two_cards
  /\ fst (run (cards_daily later_that_evening in_order daily_request) store_two_cards)
     = Some (Send 200 (CardsJson (in_order (card store_two_cards))))
  /\ Permutation (card store_two_cards) (in_order (card store_two_cards))
  /\ List.length (in_order (card store_two_cards)) = 2
  /\ NoDup (in_order (card store_two_cards)).
Proof.
  apply (daily_small_pool later_that_evening in_order daily_request store_two_cards "ana"
           wf_store_two_cards).
  - split; [reflexivity | discriminate].
  - reflexivity.
  - reflexivity.
  - reflexivity.
  - exact in_order_permutation.
Defined.

(** From the empty store: the user creates the playlist, the table is
    seeded with its eleven cards, and the first request of the day
    stores three assignments. *)
Example daily_after_seed :
  let st1 := serve sample_cfg an_evening_request POST_playlist_create bearer_request
               empty_store in
  let st2 := serve sample_cfg an_evening_request POST_cards_seed bearer_request st1 in
  let st3 := serve sample_cfg an_evening_request GET_cards_daily daily_request st2 in
  List.length (card st2) = 11
  /\ map dc_cardId (assignments st3 "ana" an_evening) = [1; 2; 3].
Proof. vm_compute. split; reflexivity. Qed.

(** A request that names its user is answered with cards. *)
Lemma cards_daily_answers (now : Z) (shuffle : list Card -> list Card) (req : Request)
  (st : Store) (uid : string) :
  wf_store st -> daily_query req uid ->
  (forall l, Permutation l (shuffle l)) ->
  exists cs, fst (run (cards_daily now shuffle req) st) = Some (Send 200 (CardsJson cs)).
Proof.
  intros Hwf Hq Hperm.
  destruct (assignments st uid now) as [|d rows] eqn:Hrows.
  - rewrite (cards_daily_fresh now shuffle req st uid Hq Hwf Hrows Hperm).
    cbn [fst]. eauto.
  - destruct (include_card_total st (assignments st uid now)) as (joined & Hj).
    { intros d' Hd'. apply filter_In in Hd'. apply (wf_daily_card st Hwf), Hd'. }
    rewrite (cards_daily_stored now shuffle req st uid joined Hq Hj);
      [cbn [fst]; eauto |].
    rewrite Hrows. discriminate.
Qed.

(** C10.  The cards of an answer of [GET /api/cards/daily] are pairwise
    distinct, on the first request of the day (a slice of a permutation
    of distinct rows, also when the candidates are all the cards) and on
    the later ones (the unique key of the assignments). *)
Theorem daily_cards_distinct (now : Z) (shuffle : list Card -> list Card) (req : Request)
  (st : Store) (cs : list Card) :
  wf_store st ->
  (forall l, Permutation l (shuffle l)) ->
  fst (run (cards_daily now shuffle req) st) = Some (Send 200 (CardsJson cs)) ->
  NoDup (map card_id cs) /\ NoDup cs.
Proof.
  intros Hwf Hperm Hrun.
  assert (Hids : NoDup (map card_id cs)); [| split; [exact Hids | eapply NoDup_map_inv; eauto]].
  unfold run, cards_daily in Hrun.
  destruct (negb (JS.truthy (field "userId" (req_query req)))) eqn:Hg;
    [simpl in Hrun; discriminate |].
  apply negb_false_iff, truthy_Some in Hg.
  set (uid := JS.to_string (field "userId" (req_query req))) in *.
  revert Hrun. step_monad.
  fold (assignments st uid now).
  destruct (Prisma.include_card st (assignments st uid now)) as [joined|] eqn:Hj;
    step_monad; [| discriminate].
  destruct joined as [|p joined].
  - change (Nat.eqb (List.length (@nil (DailyCard * Card))) 0) with true. step_monad.
    fold (history st uid). fold (unseen st uid).
    destruct (selected_distinct st uid shuffle Hwf Hperm) as (Hnd & _ & _).
    unfold daily_candidates in Hnd.
    destruct (Nat.leb 3 (List.length (unseen st uid))); step_monad;
      destruct (fold_left _ _ _) as [[t n]|]; step_monad; intro Hrun;
      inversion Hrun; subst; assumption.
  - change (Nat.eqb (List.length (p :: joined)) 0) with false. step_monad.
    intro Hrun. assert (cs = map snd (p :: joined)) as -> by (injection Hrun; auto).
    apply include_card_spec in Hj. destruct Hj as (_ & Hcid & _).
    rewrite Hcid. now apply assignments_distinct.
Qed.

Lemma daily_cards_distinct_witness :
  NoDup (map card_id [archangel; homecoming]) /\ NoDup [archangel; homecoming].
Proof.
  apply (daily_cards_distinct an_evening in_order daily_request store_two_cards
           [archangel; homecoming] wf_store_two_cards in_order_permutation).
  vm_compute. reflexivity.
Defined.

(* ================================================================== *)
(** * The managed playlist *)
(* ================================================================== *)

Lemma existsb_find {A} (p : A -> bool) (l : list A) :
  existsb p l = true -> exists x, find p l = Some x.
Proof.
  induction l as [|y l IH]; simpl; [discriminate |].
  destruct (p y); simpl; eauto.
Qed.

Lemma existsb_find_none {A} (p : A -> bool) (l : list A) :
  existsb p l = false -> find p l = None.
Proof.
  induction l as [|y l IH]; simpl; [reflexivity |].
  destruct (p y); simpl; [discriminate | auto].
Qed.

Lemma without_playlist_has (st : Store) (uid : string) :
  Prisma.has_playlist (without_playlist st uid) uid = false.
Proof.
  unfold Prisma.has_playlist, without_playlist. simpl.
  apply existsb_false_iff. intros r Hr. apply filter_In in Hr.
  destruct Hr as [_ Hr]. now apply negb_true_iff in Hr.
Qed.

(** The search loop over a finite upstream list: it stops at the first
    page with a playlist of the name and stores that playlist. *)
Lemma exists_loop_listing (up : Upstream) (now : Z) (token uid : string)
  (cursor : JS.value) (pages : list SpotifyPlaylistsResponse) :
  Listing up token cursor pages ->
  forall fuel st cs ks,
    List.length pages <= fuel ->
    Prisma.has_playlist st uid = false ->
    exists_loop fuel up now token (Some uid) cursor false (mkWorld st cs ks)
    = match find is_managed (flat_map items pages) with
      | Some p =>
          (Val true,
           mkWorld (with_playlist st uid (sp_id p) now)
             (cs ++ map (GetPlaylists token) (fetched_urls cursor pages)) ks)
      | None =>
          (Val false,
           mkWorld st (cs ++ map (GetPlaylists token) (fetched_urls cursor pages)) ks)
      end.
Proof.
  induction 1 as [cursor Hend | cursor page rest Hcur Hpage Hrest IH];
    intros fuel st cs ks Hfuel Hnew.
  - destruct fuel; simpl; rewrite Hend; simpl; now rewrite app_nil_r.
  - destruct fuel as [|fuel]; [simpl in Hfuel; lia |].
    simpl. rewrite Hcur, Hpage. step_monad.
    destruct (existsb is_managed (items page)) eqn:Hhit.
    + destruct (existsb_find _ _ Hhit) as (p & Hp).
      rewrite Hp, (find_app_some _ _ _ _ Hp). step_monad. rewrite Hnew. step_monad.
      reflexivity.
    + rewrite (find_app_none _ _ _ (existsb_find_none _ _ Hhit)).
      rewrite IH by (simpl in Hfuel; auto; lia).
      destruct (find is_managed (flat_map items rest));
        rewrite <- app_assoc; reflexivity.
Qed.

(** C8.  With a stored record, [GET /api/playlist/exists] checks the
    playlist upstream.  On 200 it answers [{ exists: true }] and leaves
    the store as it is.  On any other status it deletes the record,
    and only the record (the other tables stay as they were), and
    searches the upstream list page by page: a playlist named
    ["SoundHaven"] is stored again as the user's record and the answer
    is [{ exists: true }]; without one the answer is
    [{ exists: false }] and the record stays deleted. *)
Theorem playlist_exists_robust (fuel : nat) (up : Upstream) (now : Z) (req : Request)
  (st : Store) (token uid : string) (user : SpotifyUser) (r : UserPlaylist) (status : nat) :
  authorized req token ->
  me_endpoint up token = Some user ->
  su_id user = Some uid ->
  find (Prisma.owned_by uid) (userPlaylist st) = Some r ->
  playlist_endpoint up token (up_playlistId r) = Some status ->
  (status = 200 ->
   run (playlist_exists fuel up now req) st
   = (Some (Send 200 (ExistsJson true)),
      mkWorld st [GetMe token; GetPlaylist token (up_playlistId r)] []))
  /\ (status <> 200 ->
      forall pages,
        Listing up token (Some playlists_url) pages ->
        List.length pages <= fuel ->
        let searched :=
          [GetMe token; GetPlaylist token (up_playlistId r)]
          ++ map (GetPlaylists token) (fetched_urls (Some playlists_url) pages) in
        run (playlist_exists fuel up now req) st
        = match find is_managed (flat_map items pages) with
          | Some p =>
              (Some (Send 200 (ExistsJson true)),
               mkWorld (with_playlist (without_playlist st uid) uid (sp_id p) now)
                 searched [])
          | None =>
              (Some (Send 200 (ExistsJson false)),
               mkWorld (without_playlist st uid) searched [])
          end).
Proof.
  intros (auth & Hauth & Hne & Htok) Hme Hid Hrec Hcheck.
  assert (Hhas : Prisma.has_playlist st uid = true).
  { destruct (Prisma.has_playlist st uid) eqn:H; [reflexivity |].
    apply has_playlist_find in H. congruence. }
  split.
  - intros ->. unfold run, playlist_exists. rewrite Hauth.
    destruct auth as [|c auth]; [congruence |]. rewrite Htok.
    step_monad. rewrite Hme. step_monad. rewrite Hid. step_monad.
    rewrite Hrec. step_monad. rewrite Hcheck. step_monad. reflexivity.
  - intros Hstatus pages Hpages Hfuel searched. subst searched.
    apply Nat.eqb_neq in Hstatus.
    unfold run, playlist_exists. rewrite Hauth.
    destruct auth as [|c auth]; [congruence |]. rewrite Htok.
    step_monad. rewrite Hme. step_monad. rewrite Hid. step_monad.
    rewrite Hrec. step_monad. rewrite Hcheck. step_monad. rewrite Hstatus.
    step_monad. rewrite Hhas. step_monad.
    fold (without_playlist st uid).
    rewrite (exists_loop_listing up now token uid _ pages Hpages fuel
               (without_playlist st uid) _ [] Hfuel (without_playlist_has st uid)).
    destruct (find is_managed (flat_map items pages)); reflexivity.
Qed.

Lemma upstream_stale_listing :
  Listing upstream_stale "t0k3n" (Some playlists_url) [first_page; second_page].
Proof.
  apply Listing_page; [reflexivity | reflexivity |].
  apply Listing_page; [reflexivity | reflexivity |].
  apply Listing_end. reflexivity.
Qed.

Lemma playlist_exists_robust_witness :
  run (playlist_exists 5 upstream_stale an_evening bearer_request) store_with_entry
  = (Some (Send 200 (ExistsJson true)),
     mkWorld
       (mkStore [seen_entry] [mkUserPlaylist 2 "ana" "pl-9" an_evening] [] [] 3 1 1)
       [GetMe "t0k3n"; GetPlaylist "t0k3n" "pl-1";
        GetPlaylists "t0k3n" playlists_url;
        GetPlaylists "t0k3n" "https://api.spotify.com/v1/me/playlists?offset=50&limit=50"]
       []).
Proof.
  refine (proj2 (playlist_exists_robust 5 upstream_stale an_evening bearer_request
                   store_with_entry "t0k3n" "ana" ana
                   (mkUserPlaylist 0 "ana" "pl-1" 1700000000000) 404 _ _ _ _ _)
            _ [first_page; second_page] upstream_stale_listing _).
  - exists "Bearer t0k3n". repeat split. discriminate.
  - reflexivity.
  - reflexivity.
  - reflexivity.
  - reflexivity.
  - discriminate.
  - simpl. lia.
Defined.

Lemma find_existsb {A} (p : A -> bool) (l : list A) :
  existsb p l = match find p l with Some _ => true | None => false end.
Proof.
  induction l as [|y l IH]; simpl; [reflexivity |].
  destruct (p y); simpl; auto.
Qed.

(** The search loop of the store-less server over a finite upstream
    list: offsets of 50, up to the first page with a match. *)
Lemma legacy_loop_listing (up : Upstream) (token : string) (offset : nat)
  (pages : list SpotifyPlaylistsResponse) :
  LegacyListing up token offset pages ->
  forall fuel st cs ks,
    List.length pages <= fuel ->
    getOrCreatePlaylist_loop fuel up token offset (mkWorld st cs ks)
    = (Val (option_map sp_id (find is_managed_ci (flat_map items pages))),
       mkWorld st
         (cs ++ map (fun o => GetPlaylists token (legacy_url o)) (legacy_offsets offset pages))
         ks).
Proof.
  induction 1 as [offset page Hpage Hlast | offset page rest Hpage Hmore Hrest IH];
    intros fuel st cs ks Hfuel.
  - destruct fuel as [|fuel]; [simpl in Hfuel; lia |].
    simpl. rewrite Hpage, app_nil_r, find_existsb. step_monad.
    destruct (find is_managed_ci (items page)); step_monad; [reflexivity |].
    rewrite Hlast. reflexivity.
  - destruct fuel as [|fuel]; [simpl in Hfuel; lia |].
    simpl. rewrite Hpage, find_existsb. step_monad.
    destruct (find is_managed_ci (items page)) as [m|] eqn:Hm; step_monad.
    + rewrite (find_app_some _ _ _ _ Hm). reflexivity.
    + rewrite Hmore, (find_app_none _ _ _ Hm). step_monad.
      rewrite IH by (simpl in Hfuel; lia).
      rewrite <- app_assoc. reflexivity.
Qed.

(** The store-less server finds the playlist on the second page,
    whatever the case of its name, and stores nothing. *)
Example legacy_search_second_page :
  run (legacy_playlist_create 5 upstream_by_offset bearer_request) store_with_entry
  = (Some (Send 200 (PlaylistIdJson "pl-8")),
     mkWorld store_with_entry
       [GetMe "t0k3n";
        GetPlaylists "t0k3n" "https://api.spotify.com/v1/me/playlists?limit=50&offset=0";
        GetPlaylists "t0k3n" "https://api.spotify.com/v1/me/playlists?limit=50&offset=50"]
       []).
Proof. vm_compute. reflexivity. Qed.

(** C7, as stated, fails on [src/index.ts]: without a stored record the
    handler creates a playlist although the user's upstream list has
    one of the name, and it never reads that list. *)
Lemma playlist_create_ignores_existing :
  find (Prisma.owned_by "ana") (userPlaylist empty_store) = None
  /\ Listing upstream_stale "t0k3n" (Some playlists_url) [first_page; second_page]
  /\ find is_managed (flat_map items [first_page; second_page])
     = Some (mkSpotifyPlaylist "pl-9" "SoundHaven")
  /\ run (playlist_create upstream_stale an_evening bearer_request) empty_store
     = (Some (Send 200 (PlaylistIdJson "pl-new")),
        mkWorld (with_playlist empty_store "ana" "pl-new" an_evening)
          [GetMe "t0k3n";
           PostPlaylist "t0k3n" "ana" "SoundHaven"
             "Playlist automatically generated by SoundHaven" false]
          []).
Proof.
  split; [reflexivity | split; [exact upstream_stale_listing | split; reflexivity]].
Qed.

(** C7, amended.  Without a stored record [POST /api/playlist/create]
    of [src/index.ts] creates an upstream playlist named ["SoundHaven"]
    at once, stores the mapping and answers its id; it does not list
    the user's playlists.  The paging search is that of
    [getOrCreatePlaylist] in the store-less server: pages of 50 by
    offset while [next] is present, the name compared in lower case; a
    match's id is answered and nothing is stored, and a playlist is
    created only when no page has a match. *)
Theorem playlist_create_without_search (up : Upstream) (now : Z) (req : Request)
  (st : Store) (token uid : string) (user : SpotifyUser) :
  authorized req token ->
  me_endpoint up token = Some user ->
  su_id user = Some uid ->
  (forall p,
     find (Prisma.owned_by uid) (userPlaylist st) = None ->
     create_endpoint up token uid = Some p ->
     run (playlist_create up now req) st
     = (Some (Send 200 (PlaylistIdJson (sp_id p))),
        mkWorld (with_playlist st uid (sp_id p) now)
          [GetMe token;
           PostPlaylist token uid "SoundHaven"
             "Playlist automatically generated by SoundHaven" false]
          []))
  /\ (forall fuel pages,
        LegacyListing up token 0 pages ->
        List.length pages <= fuel ->
        let listed :=
          GetMe token
          :: map (fun o => GetPlaylists token (legacy_url o)) (legacy_offsets 0 pages) in
        match find is_managed_ci (flat_map items pages) with
        | Some m =>
            run (legacy_playlist_create fuel up req) st
            = (Some (Send 200 (PlaylistIdJson (sp_id m))), mkWorld st listed [])
        | None =>
            forall p, create_endpoint up token uid = Some p ->
              run (legacy_playlist_create fuel up req) st
              = (Some (Send 200 (PlaylistIdJson (sp_id p))),
                 mkWorld st
                   (listed
                    ++ [PostPlaylist token uid "SoundHaven"
                          "Playlist generada automáticamente por SoundHaven" false])
                   [])
        end).
Proof.
  intros (auth & Hauth & Hne & Htok) Hme Hid.
  split.
  - intros p Hnone Hcreate. unfold run, playlist_create. rewrite Hauth.
    destruct auth as [|c auth]; [congruence |]. rewrite Htok.
    step_monad. rewrite Hme. step_monad. rewrite Hid. step_monad.
    rewrite Hnone. step_monad. unfold JS.to_string. rewrite Hcreate. step_monad.
    rewrite (proj2 (has_playlist_find st uid) Hnone). step_monad. reflexivity.
  - intros fuel pages Hpages Hfuel listed. subst listed.
    pose proof (legacy_loop_listing up token 0 pages Hpages fuel st [GetMe token] [] Hfuel)
      as Hloop.
    destruct (find is_managed_ci (flat_map items pages)) as [m|] eqn:Hfind.
    + unfold run, legacy_playlist_create, getOrCreatePlaylist. rewrite Hauth.
      destruct auth as [|c auth]; [congruence |]. rewrite Htok.
      step_monad. rewrite Hme. step_monad.
      simpl app in Hloop |- *. rewrite Hloop. reflexivity.
    + intros p Hcreate. unfold run, legacy_playlist_create, getOrCreatePlaylist. rewrite Hauth.
      destruct auth as [|c auth]; [congruence |]. rewrite Htok.
      step_monad. rewrite Hme. step_monad.
      simpl app in Hloop |- *. rewrite Hloop. step_monad.
      rewrite Hid. unfold JS.to_string. rewrite Hcreate. reflexivity.
Qed.

Lemma playlist_create_without_search_witness :
  run (playlist_create upstream_stale an_evening bearer_request) empty_store
  = (Some (Send 200 (PlaylistIdJson "pl-new")),
     mkWorld (with_playlist empty_store "ana" "pl-new" an_evening)
       [GetMe "t0k3n";
        PostPlaylist "t0k3n" "ana" "SoundHaven"
          "Playlist automatically generated by SoundHaven" false]
       []).
Proof.
  refine (proj1 (playlist_create_without_search upstream_stale an_evening bearer_request
                   empty_store "t0k3n" "ana" ana _ _ _)
            (mkSpotifyPlaylist "pl-new" "SoundHaven") _ _).
  - exists "Bearer t0k3n". repeat split. discriminate.
  - reflexivity.
  - reflexivity.
  - reflexivity.
  - reflexivity.
Defined.

(* ================================================================== *)
(** * The OAuth flow beyond the state check *)
(* ================================================================== *)

Lemma echoed_state_guard (req : Request) (state : string) :
  state <> "" ->
  field "state" (req_query req) = Some state ->
  field "spotify_state" (req_cookies req) = Some state ->
  negb (JS.truthy (field "state" (req_query req)))
  || negb (JS.strict_eq (field "state" (req_query req))
             (field "spotify_state" (req_cookies req))) = false.
Proof.
  intros Hne Hq Hc. rewrite Hq, Hc. simpl. rewrite String.eqb_refl.
  destruct state; [congruence | reflexivity].
Qed.

(** X1.  The state set by the login is accepted once: a callback that
    echoes it, with the cookie the login left, makes exactly one call
    to the token endpoint, with the code it received; whatever the
    endpoint answers, the first cookie operation of the run is the
    clearing of the state, the browser no longer holds the state
    afterwards, and the store is untouched. *)
Theorem login_state_single_use (cfg : Config) (up : Upstream) (state : string)
  (req : Request) (st : Store) (held : JS.value) :
  state <> "" ->
  field "state" (req_query req) = Some state ->
  field "error" (req_query req) <> Some "access_denied" ->
  field "spotify_state" (req_cookies req)
  = jar_after "spotify_state" held (cookies (snd (run (auth_login cfg state) st))) ->
  let w := snd (run (auth_callback cfg up req) st) in
  calls w = [PostToken (code_form cfg (field "code" (req_query req)))]
  /\ hd_error (cookies w) = Some (ClearCookie "spotify_state" None)
  /\ jar_after "spotify_state" (field "spotify_state" (req_cookies req)) (cookies w) = None
  /\ db w = st.
Proof.
  intros Hne Hstate Herr Hjar w. subst w. simpl in Hjar.
  apply strict_eq_false in Herr.
  pose proof (echoed_state_guard req state Hne Hstate Hjar) as Hg.
  unfold run, auth_callback. rewrite Herr, Hg. step_monad.
  destruct (token_endpoint up _) as [[ok data]|]; step_monad.
  - destruct (negb ok || negb (JS.truthy (payload_access_token data))); step_monad;
      simpl; repeat split; reflexivity.
  - simpl. repeat split; reflexivity.
Qed.

Lemma login_state_single_use_witness :
  let w := snd (run (auth_callback sample_cfg upstream_rotation echoed_request) empty_store) in
  calls w = [PostToken (code_form sample_cfg (Some "c0de"))]
  /\ hd_error (cookies w) = Some (ClearCookie "spotify_state" None)
  /\ jar_after "spotify_state" (Some "5f2a") (cookies w) = None
  /\ db w = empty_store.
Proof.
  apply (login_state_single_use sample_cfg upstream_rotation "5f2a" echoed_request
           empty_store None).
  - discriminate.
  - reflexivity.
  - simpl. discriminate.
  - reflexivity.
Defined.

(** X2.  A callback whose state matches and whose exchange succeeds
    redirects the browser to the cards page with the access token in
    the query, and sets the [refresh_token] cookie to what the payload
    carries: http-only, same-site lax, thirty days, secure exactly
    when [NODE_ENV] is ["production"]. *)
Theorem callback_authorized (cfg : Config) (up : Upstream) (req : Request) (st : Store)
  (state : string) (t : SpotifyTokenResponse) :
  state <> "" ->
  field "state" (req_query req) = Some state ->
  field "spotify_state" (req_cookies req) = Some state ->
  field "error" (req_query req) <> Some "access_denied" ->
  token_endpoint up (code_form cfg (field "code" (req_query req))) = Some (true, TokenData t) ->
  access_token t <> "" ->
  run (auth_callback cfg up req) st
  = (Some (Redirect (CLIENT_URL cfg ++ "/cards?access_token=" ++ access_token t)),
     mkWorld st
       [PostToken (code_form cfg (field "code" (req_query req)))]
       [ClearCookie "spotify_state" None;
        SetCookie "refresh_token" (refresh_token t)
          (mkCookieOptions true "lax"
             (Some (JS.strict_eq (NODE_ENV cfg) (Some "production")))
             (Some 2592000000%Z))]).
Proof.
  intros Hne Hstate Hcookie Herr Hup Hacc.
  apply strict_eq_false in Herr.
  pose proof (echoed_state_guard req state Hne Hstate Hcookie) as Hg.
  unfold run, auth_callback. rewrite Herr, Hg. step_monad. rewrite Hup. step_monad.
  destruct (access_token t) as [|c a] eqn:Ha; [congruence |].
  simpl. rewrite Ha. reflexivity.
Qed.

Lemma callback_authorized_witness :
  run (auth_callback sample_cfg upstream_rotation echoed_request) empty_store
  = (Some (Redirect "https://app.example/cards?access_token=acc3ss"),
     mkWorld empty_store
       [PostToken (code_form sample_cfg (Some "c0de"))]
       [ClearCookie "spotify_state" None;
        SetCookie "refresh_token" (Some "r0tat3d")
          (mkCookieOptions true "lax" (Some false) (Some 2592000000%Z))]).
Proof.
  apply (callback_authorized sample_cfg upstream_rotation echoed_request empty_store
           "5f2a" rotation).
  - discriminate.
  - reflexivity.
  - reflexivity.
  - simpl. discriminate.
  - reflexivity.
  - simpl. discriminate.
Defined.

(** X3.  A callback whose state matches and whose exchange fails never
    sets the [refresh_token] cookie and never shows the upstream body:
    an answer that is not ok, or has no access token, redirects to the
    login page with [error=invalid_code]; a call that throws answers
    [500 Error retrieving tokens]. *)
Theorem callback_exchange_failure (cfg : Config) (up : Upstream) (req : Request)
  (st : Store) (state : string) :
  state <> "" ->
  field "state" (req_query req) = Some state ->
  field "spotify_state" (req_cookies req) = Some state ->
  field "error" (req_query req) <> Some "access_denied" ->
  let form := code_form cfg (field "code" (req_query req)) in
  let failed r :=
    run (auth_callback cfg up req) st
    = (Some r, mkWorld st [PostToken form] [ClearCookie "spotify_state" None]) in
  (forall ok data,
     token_endpoint up form = Some (ok, data) ->
     ok = false \/ JS.truthy (payload_access_token data) = false ->
     failed (Redirect (CLIENT_URL cfg ++ "/login?error=invalid_code")))
  /\ (token_endpoint up form = None -> failed (Send 500 (Text "Error retrieving tokens"))).
Proof.
  intros Hne Hstate Hcookie Herr form failed. subst form failed.
  apply strict_eq_false in Herr.
  pose proof (echoed_state_guard req state Hne Hstate Hcookie) as Hg.
  split.
  - intros ok data Hup Hbad. unfold run, auth_callback. rewrite Herr, Hg. step_monad.
    rewrite Hup. step_monad.
    assert (Hcond : negb ok || negb (JS.truthy (payload_access_token data)) = true).
    { destruct Hbad as [-> | ->]; [reflexivity | apply orb_true_r]. }
    rewrite Hcond. reflexivity.
  - intro Hup. unfold run, auth_callback. rewrite Herr, Hg. step_monad.
    rewrite Hup. reflexivity.
Qed.

Lemma callback_exchange_failure_witness :
  run (auth_callback sample_cfg upstream_invalid_grant echoed_request) empty_store
  = (Some (Redirect "https://app.example/login?error=invalid_code"),
     mkWorld empty_store [PostToken (code_form sample_cfg (Some "c0de"))]
       [ClearCookie "spotify_state" None]).
Proof.
  refine (proj1 (callback_exchange_failure sample_cfg upstream_invalid_grant echoed_request
                   empty_store "5f2a" _ _ _ _)
            false (TokenError (mkTokenError "invalid_grant" (Some "Invalid code"))) _ _).
  - discriminate.
  - reflexivity.
  - reflexivity.
  - simpl. discriminate.
  - reflexivity.
  - now left.
Defined.

(** X4.  A refresh without a [refresh_token] cookie, or with an empty
    one, is answered 401 before anything else: no call upstream, no
    cookie operation. *)
Theorem refresh_unauthorized (cfg : Config) (up : Upstream) (req : Request) (st : Store) :
  field "refresh_token" (req_cookies req) = None
  \/ field "refresh_token" (req_cookies req) = Some "" ->
  run (auth_refresh cfg up req) st = (Some (Send 401 ReasonPhrase), enter st).
Proof.
  intros [H | H]; unfold run, auth_refresh; rewrite H; reflexivity.
Qed.

Lemma refresh_unauthorized_witness :
  run (auth_refresh sample_cfg upstream_rotation logged_out_request) empty_store
  = (Some (Send 401 ReasonPhrase), enter empty_store).
Proof.
  apply refresh_unauthorized. now left.
Defined.

(** X5.  A refresh the upstream service refuses answers 400 with the
    upstream body as it came, and leaves the cookie alone; a call that
    throws answers [500 Error refreshing token].  Either way one call
    was made and the store is untouched. *)
Theorem refresh_upstream_failure (cfg : Config) (up : Upstream) (req : Request)
  (st : Store) :
  JS.truthy (field "refresh_token" (req_cookies req)) = true ->
  let form := refresh_form cfg (field "refresh_token" (req_cookies req)) in
  (forall ok data,
     token_endpoint up form = Some (ok, data) ->
     ok = false \/ JS.truthy (payload_access_token data) = false ->
     run (auth_refresh cfg up req) st
     = (Some (Send 400 (UpstreamJson data)), mkWorld st [PostToken form] []))
  /\ (token_endpoint up form = None ->
      run (auth_refresh cfg up req) st
      = (Some (Send 500 (Text "Error refreshing token")), mkWorld st [PostToken form] [])).
Proof.
  intros Hcookie form. subst form. split.
  - intros ok data Hup Hbad. unfold run, auth_refresh. rewrite Hcookie. step_monad.
    rewrite Hup. step_monad.
    assert (Hcond : negb ok || negb (JS.truthy (payload_access_token data)) = true).
    { destruct Hbad as [-> | ->]; [reflexivity | apply orb_true_r]. }
    rewrite Hcond. reflexivity.
  - intro Hup. unfold run, auth_refresh. rewrite Hcookie. step_monad.
    rewrite Hup. reflexivity.
Qed.

Lemma refresh_upstream_failure_witness :
  run (auth_refresh sample_cfg upstream_invalid_grant refresh_request) empty_store
  = (Some (Send 400
             (UpstreamJson (TokenError (mkTokenError "invalid_grant" (Some "Invalid code"))))),
     mkWorld empty_store [PostToken (refresh_form sample_cfg (Some "r3fr3sh"))] []).
Proof.
  refine (proj1 (refresh_upstream_failure sample_cfg upstream_invalid_grant refresh_request
                   empty_store _)
            false (TokenError (mkTokenError "invalid_grant" (Some "Invalid code"))) _ _).
  - reflexivity.
  - reflexivity.
  - now left.
Defined.



(* ================================================================== *)
(** * The managed playlist beyond the stale record *)
(* ================================================================== *)

Lemma authorized_header (req : Request) (token : string) :
  authorized req token ->
  exists c auth, req_authorization req = Some (String c auth)
                 /\ bearer (String c auth) = token.
Proof.
  intros (auth & Hauth & Hne & Htok). destruct auth as [|c auth]; [congruence |]. eauto.
Qed.

(** X7.  [POST /api/playlist/create] trusts a stored record: it answers
    the stored playlist id after the one call that resolves the user,
    without asking upstream whether the playlist still exists and
    without creating anything.  So a second create after a first one
    answers the same id and leaves one record for the user. *)
Theorem playlist_create_stored (up up' : Upstream) (now now' : Z) (req req' : Request)
  (st : Store) (token token' uid : string) (user user' : SpotifyUser) :
  authorized req token -> me_endpoint up token = Some user -> su_id user = Some uid ->
  authorized req' token' -> me_endpoint up' token' = Some user' -> su_id user' = Some uid ->
  (forall r, find (Prisma.owned_by uid) (userPlaylist st) = Some r ->
     run (playlist_create up now req) st
     = (Some (Send 200 (PlaylistIdJson (up_playlistId r))), mkWorld st [GetMe token] []))
  /\ (forall p, find (Prisma.owned_by uid) (userPlaylist st) = None ->
        create_endpoint up token uid = Some p ->
        let st1 := db (snd (run (playlist_create up now req) st)) in
        run (playlist_create up' now' req') st1
        = (Some (Send 200 (PlaylistIdJson (sp_id p))), mkWorld st1 [GetMe token'] [])
        /\ List.length (filter (Prisma.owned_by uid) (userPlaylist st1)) = 1).
Proof.
  intros Hauth Hme Hid Hauth' Hme' Hid'.
  destruct (authorized_header _ _ Hauth) as (c & auth & Hhdr & Htok).
  destruct (authorized_header _ _ Hauth') as (c' & auth' & Hhdr' & Htok').
  split.
  - intros r Hrec. unfold run, playlist_create. rewrite Hhdr, Htok. step_monad.
    rewrite Hme. step_monad. rewrite Hid. step_monad. rewrite Hrec. reflexivity.
  - intros p Hnone Hcreate st1.
    assert (Hst1 : st1 = with_playlist st uid (sp_id p) now).
    { subst st1. unfold run, playlist_create. rewrite Hhdr, Htok. step_monad.
      rewrite Hme. step_monad. rewrite Hid. step_monad. rewrite Hnone. step_monad.
      unfold JS.to_string. rewrite Hcreate. step_monad.
      rewrite (proj2 (has_playlist_find st uid) Hnone). reflexivity. }
    rewrite Hst1. clear st1 Hst1.
    assert (Hfound : find (Prisma.owned_by uid) (userPlaylist (with_playlist st uid (sp_id p) now))
                     = Some (mkUserPlaylist (next_cuid st) uid (sp_id p) now)).
    { unfold with_playlist. simpl. rewrite (find_app_none _ _ _ Hnone). simpl.
      unfold Prisma.owned_by. simpl. now rewrite String.eqb_refl. }
    split.
    + unfold run, playlist_create. rewrite Hhdr', Htok'. step_monad.
      rewrite Hme'. step_monad. rewrite Hid'. step_monad. rewrite Hfound. reflexivity.
    + unfold with_playlist. simpl. rewrite filter_app.
      apply find_none_filter in Hnone. rewrite Hnone. simpl.
      unfold Prisma.owned_by. simpl. now rewrite String.eqb_refl.
Qed.

Lemma playlist_create_stored_witness :
  run (playlist_create upstream_stale an_evening bearer_request) store_with_playlist
  = (Some (Send 200 (PlaylistIdJson "pl-1")), mkWorld store_with_playlist [GetMe "t0k3n"] []).
Proof.
  refine (proj1 (playlist_create_stored upstream_stale upstream_stale an_evening an_evening
                   bearer_request bearer_request store_with_playlist "t0k3n" "t0k3n" "ana"
                   ana ana _ _ _ _ _ _)
            (mkUserPlaylist 0 "ana" "pl-1" 1700000000000) _).
  - exists "Bearer t0k3n". repeat split. discriminate.
  - reflexivity.
  - reflexivity.
  - exists "Bearer t0k3n". repeat split. discriminate.
  - reflexivity.
  - reflexivity.
  - reflexivity.
Defined.

(** X8.  Without an [Authorization] header (or with an empty one) the
    playlist routes and the profile route answer at once, before any
    call upstream and any read of the store: 401 for create, exists and
    me, 400 for add. *)
Theorem routes_need_authorization (up : Upstream) (now : Z) (fuel : nat) (req : Request)
  (st : Store) :
  no_authorization req ->
  run (playlist_create up now req) st = (Some (Send 401 (ErrorJson "No token")), enter st)
  /\ run (playlist_exists fuel up now req) st
     = (Some (Send 401 (ErrorJson "Falta token")), enter st)
  /\ run (playlist_add up req) st = (Some (Send 400 (ErrorJson "Faltan datos")), enter st)
  /\ run (me up req) st = (Some (Send 401 (ErrorJson "Token faltante")), enter st).
Proof.
  intros [H | H]; unfold run, playlist_create, playlist_exists, playlist_add, me;
    rewrite H; repeat split; reflexivity.
Qed.

Lemma routes_need_authorization_witness :
  run (playlist_create upstream_stale an_evening logged_out_request) store_with_playlist
  = (Some (Send 401 (ErrorJson "No token")), enter store_with_playlist)
  /\ run (playlist_exists 5 upstream_stale an_evening logged_out_request) store_with_playlist
     = (Some (Send 401 (ErrorJson "Falta token")), enter store_with_playlist)
  /\ run (playlist_add upstream_stale logged_out_request) store_with_playlist
     = (Some (Send 400 (ErrorJson "Faltan datos")), enter store_with_playlist)
  /\ run (me upstream_stale logged_out_request) store_with_playlist
     = (Some (Send 401 (ErrorJson "Token faltante")), enter store_with_playlist).
Proof.
  apply routes_need_authorization. now left.
Defined.

(** X9.  [POST /api/playlist/add] adds to the stored playlist only: for
    a user without record it answers 404 after resolving the user and
    neither creates a playlist nor posts the track; with a record it
    posts the one uri to the stored playlist and answers success when
    upstream says ok, 500 when it does not or the call throws.  The
    store is never written. *)
Theorem playlist_add_outcomes (up : Upstream) (req : Request) (st : Store)
  (token uid uri : string) (user : SpotifyUser) :
  authorized req token -> me_endpoint up token = Some user -> su_id user = Some uid ->
  field "uri" (req_body req) = Some uri -> uri <> "" ->
  (find (Prisma.owned_by uid) (userPlaylist st) = None ->
   run (playlist_add up req) st
   = (Some (Send 404 (ErrorJson "Playlist no encontrada")), mkWorld st [GetMe token] []))
  /\ (forall r, find (Prisma.owned_by uid) (userPlaylist st) = Some r ->
      let posted := [GetMe token; PostTracks token (up_playlistId r) [uri]] in
      match tracks_endpoint up token (up_playlistId r) [uri] with
      | Some (true, _) =>
          run (playlist_add up req) st = (Some (Send 200 SuccessJson), mkWorld st posted [])
      | _ =>
          run (playlist_add up req) st
          = (Some (Send 500 (ErrorJson "Error al añadir canción")), mkWorld st posted [])
      end).
Proof.
  intros Hauth Hme Hid Huri Hne.
  destruct (authorized_header _ _ Hauth) as (c & auth & Hhdr & Htok).
  assert (Hg : negb (JS.truthy (req_authorization req))
               || negb (JS.truthy (field "uri" (req_body req))) = false).
  { rewrite Hhdr, Huri. destruct uri; [congruence | reflexivity]. }
  split.
  - intro Hnone. unfold run, playlist_add. rewrite Hg, Hhdr. unfold JS.to_string.
    rewrite Htok. step_monad. rewrite Hme. step_monad. rewrite Hid. step_monad.
    rewrite Hnone. reflexivity.
  - intros r Hrec posted. subst posted.
    unfold run, playlist_add. rewrite Hg, Hhdr, Huri. unfold JS.to_string.
    rewrite Htok. step_monad. rewrite Hme. step_monad. rewrite Hid. step_monad.
    rewrite Hrec. step_monad.
    destruct (tracks_endpoint up token (up_playlistId r) [uri]) as [[[|] msg]|];
      reflexivity.
Qed.

Lemma playlist_add_outcomes_witness :
  run (playlist_add upstream_adds add_request) empty_store
  = (Some (Send 404 (ErrorJson "Playlist no encontrada")),
     mkWorld empty_store [GetMe "t0k3n"] []).
Proof.
  refine (proj1 (playlist_add_outcomes upstream_adds add_request empty_store "t0k3n" "ana"
                   "spotify:track:6evpAJCR5GeeHDGgv3aXb3" ana _ _ _ _ _) _).
  - exists "Bearer t0k3n". repeat split. discriminate.
  - reflexivity.
  - reflexivity.
  - reflexivity.
  - discriminate.
  - reflexivity.
Defined.

(** X10.  Without a stored record [GET /api/playlist/exists] makes no
    check of a playlist id and goes to the search: the first playlist
    named exactly ["SoundHaven"] in the upstream list becomes the
    user's record and the answer is [{ exists: true }]; if no page has
    one the answer is [{ exists: false }] and the store is as before. *)
Theorem playlist_exists_adopts (fuel : nat) (up : Upstream) (now : Z) (req : Request)
  (st : Store) (token uid : string) (user : SpotifyUser)
  (pages : list SpotifyPlaylistsResponse) :
  authorized req token -> me_endpoint up token = Some user -> su_id user = Some uid ->
  find (Prisma.owned_by uid) (userPlaylist st) = None ->
  Listing up token (Some playlists_url) pages ->
  List.length pages <= fuel ->
  let searched :=
    GetMe token :: map (GetPlaylists token) (fetched_urls (Some playlists_url) pages) in
  run (playlist_exists fuel up now req) st
  = match find is_managed (flat_map items pages) with
    | Some p =>
        (Some (Send 200 (ExistsJson true)),
         mkWorld (with_playlist st uid (sp_id p) now) searched [])
    | None => (Some (Send 200 (ExistsJson false)), mkWorld st searched [])
    end.
Proof.
  intros Hauth Hme Hid Hnone Hpages Hfuel searched. subst searched.
  destruct (authorized_header _ _ Hauth) as (c & auth & Hhdr & Htok).
  unfold run, playlist_exists. rewrite Hhdr, Htok. step_monad.
  rewrite Hme. step_monad. rewrite Hid. step_monad. rewrite Hnone. step_monad.
  rewrite (exists_loop_listing up now token uid _ pages Hpages fuel st _ [] Hfuel
             (proj2 (has_playlist_find st uid) Hnone)).
  destruct (find is_managed (flat_map items pages)); reflexivity.
Qed.

Lemma playlist_exists_adopts_witness :
  run (playlist_exists 5 upstream_stale an_evening bearer_request) empty_store
  = (Some (Send 200 (ExistsJson true)),
     mkWorld (with_playlist empty_store "ana" "pl-9" an_evening)
       [GetMe "t0k3n"; GetPlaylists "t0k3n" playlists_url;
        GetPlaylists "t0k3n" "https://api.spotify.com/v1/me/playlists?offset=50&limit=50"]
       []).
Proof.
  apply (playlist_exists_adopts 5 upstream_stale an_evening bearer_request empty_store
           "t0k3n" "ana" ana [first_page; second_page]).
  - exists "Bearer t0k3n". repeat split. discriminate.
  - reflexivity.
  - reflexivity.
  - reflexivity.
  - exact upstream_stale_listing.
  - simpl. lia.
Defined.

(** The store a stale record leaves behind. *)
Lemma playlist_exists_stale_store (fuel : nat) (up : Upstream) (now : Z) (req : Request)
  (st : Store) (token uid : string) (user : SpotifyUser) (r : UserPlaylist) (status : nat)
  (pages : list SpotifyPlaylistsResponse) :
  authorized req token -> me_endpoint up token = Some user -> su_id user = Some uid ->
  find (Prisma.owned_by uid) (userPlaylist st) = Some r ->
  playlist_endpoint up token (up_playlistId r) = Some status ->
  status <> 200 ->
  Listing up token (Some playlists_url) pages ->
  List.length pages <= fuel ->
  db (snd (run (playlist_exists fuel up now req) st))
  = match find is_managed (flat_map items pages) with
    | Some p => with_playlist (without_playlist st uid) uid (sp_id p) now
    | None => without_playlist st uid
    end.
Proof.
  intros Hauth Hme Hid Hrec Hcheck Hstatus Hpages Hfuel.
  destruct (authorized_header _ _ Hauth) as (c & auth & Hhdr & Htok).
  assert (Hhas : Prisma.has_playlist st uid = true).
  { destruct (Prisma.has_playlist st uid) eqn:H; [reflexivity |].
    apply has_playlist_find in H. congruence. }
  apply Nat.eqb_neq in Hstatus.
  unfold run, playlist_exists. rewrite Hhdr, Htok. step_monad.
  rewrite Hme. step_monad. rewrite Hid. step_monad. rewrite Hrec. step_monad.
  rewrite Hcheck. step_monad. rewrite Hstatus. step_monad. rewrite Hhas. step_monad.
  fold (without_playlist st uid).
  rewrite (exists_loop_listing up now token uid _ pages Hpages fuel
             (without_playlist st uid) _ [] Hfuel (without_playlist_has st uid)).
  destruct (find is_managed (flat_map items pages)); reflexivity.
Qed.

Lemma find_owned_filter (uid other : string) (rows : list UserPlaylist) :
  find (Prisma.owned_by other) (filter (fun r => negb (Prisma.owned_by uid r)) rows)
  = if String.eqb other uid then None else find (Prisma.owned_by other) rows.
Proof.
  induction rows as [|r rows IH]; cbn [filter find].
  - now destruct (String.eqb other uid).
  - destruct (Prisma.owned_by uid r) eqn:Hr; cbn [negb find].
    + rewrite IH. destruct (String.eqb_spec other uid) as [Ho | Ho]; [reflexivity |].
      unfold Prisma.owned_by in Hr |- *. apply String.eqb_eq in Hr.
      destruct (String.eqb_spec (up_userId r) other); [congruence | reflexivity].
    + destruct (Prisma.owned_by other r) eqn:Ho; [| exact IH].
      unfold Prisma.owned_by in Hr, Ho. apply String.eqb_eq in Ho. subst other.
      now rewrite Hr.
Qed.

(** X11.  When the stored playlist is gone upstream, only the stale
    record is deleted: the user's discovery entries and daily
    assignments, which no key of the tables ties to the record, stay
    as they were, and so do the cards and the records of the other
    users.  The user's record afterwards is the playlist the search
    adopts, and none when the search finds no playlist of the name. *)
Theorem stale_record_keeps_history (fuel : nat) (up : Upstream) (now : Z) (req : Request)
  (st : Store) (token uid : string) (user : SpotifyUser) (r : UserPlaylist) (status : nat)
  (pages : list SpotifyPlaylistsResponse) :
  authorized req token -> me_endpoint up token = Some user -> su_id user = Some uid ->
  find (Prisma.owned_by uid) (userPlaylist st) = Some r ->
  playlist_endpoint up token (up_playlistId r) = Some status ->
  status <> 200 ->
  Listing up token (Some playlists_url) pages ->
  List.length pages <= fuel ->
  let st' := db (snd (run (playlist_exists fuel up now req) st)) in
  discoveryLog st' = discoveryLog st
  /\ dailyCard st' = dailyCard st
  /\ card st' = card st
  /\ (forall other, other <> uid ->
        find (Prisma.owned_by other) (userPlaylist st')
        = find (Prisma.owned_by other) (userPlaylist st))
  /\ option_map up_playlistId (find (Prisma.owned_by uid) (userPlaylist st'))
     = option_map sp_id (find is_managed (flat_map items pages)).
Proof.
  intros Hauth Hme Hid Hrec Hcheck Hstatus Hpages Hfuel st'.
  subst st'.
  rewrite (playlist_exists_stale_store fuel up now req st token uid user r status pages)
    by assumption.
  assert (Hgone : find (Prisma.owned_by uid) (userPlaylist (without_playlist st uid)) = None).
  { unfold without_playlist. simpl. rewrite find_owned_filter.
    now rewrite String.eqb_refl. }
  assert (Hothers : forall other, other <> uid ->
            find (Prisma.owned_by other) (userPlaylist (without_playlist st uid))
            = find (Prisma.owned_by other) (userPlaylist st)).
  { intros other Hother. unfold without_playlist. simpl. rewrite find_owned_filter.
    apply String.eqb_neq in Hother. now rewrite Hother. }
  destruct (find is_managed (flat_map items pages)) as [p|].
  - split; [reflexivity | split; [reflexivity | split; [reflexivity | split]]].
    + intros other Hother. unfold with_playlist. cbn [userPlaylist Prisma.set_userPlaylist].
      rewrite <- (Hothers other Hother).
      destruct (find (Prisma.owned_by other) (userPlaylist (without_playlist st uid)))
        as [r'|] eqn:Hfind.
      * now apply find_app_some.
      * rewrite (find_app_none _ _ _ Hfind). simpl. unfold Prisma.owned_by at 1. simpl.
        apply String.eqb_neq in Hother. rewrite String.eqb_sym, Hother. reflexivity.
    + unfold with_playlist. cbn [userPlaylist Prisma.set_userPlaylist].
      rewrite (find_app_none _ _ _ Hgone). simpl. unfold Prisma.owned_by at 1. simpl.
      rewrite String.eqb_refl. reflexivity.
  - split; [reflexivity | split; [reflexivity | split; [reflexivity | split]]].
    + exact Hothers.
    + rewrite Hgone. reflexivity.
Qed.

Lemma stale_record_keeps_history_witness :
  let st' := db (snd (run (playlist_exists 5 upstream_stale an_evening bearer_request)
                        store_two_users)) in
  discoveryLog st' = discoveryLog store_two_users
  /\ dailyCard st' = dailyCard store_two_users
  /\ card st' = card store_two_users
  /\ (forall other, other <> "ana" ->
        find (Prisma.owned_by other) (userPlaylist st')
        = find (Prisma.owned_by other) (userPlaylist store_two_users))
  /\ option_map up_playlistId (find (Prisma.owned_by "ana") (userPlaylist st'))
     = option_map sp_id (find is_managed (flat_map items [first_page; second_page])).
Proof.
  apply (stale_record_keeps_history 5 upstream_stale an_evening bearer_request
           store_two_users "t0k3n" "ana" ana (mkUserPlaylist 0 "ana" "pl-1" 1700000000000)
           404 [first_page; second_page]).
  - exists "Bearer t0k3n". repeat split. discriminate.
  - reflexivity.
  - reflexivity.
  - reflexivity.
  - reflexivity.
  - discriminate.
  - exact upstream_stale_listing.
  - simpl. lia.
Defined.

(* ================================================================== *)
(** * The discovery ledger beyond the two claims *)
(* ================================================================== *)

(** X12.  A request that lacks a required input is answered 400 before
    the store is read: [userId], [cardTitle] or [trackUri] for a
    record, [userId] or [trackUri] for mark-as-added, the [userId]
    query parameter for the list, the entry of today and the daily
    cards.  An empty string counts as missing. *)
Theorem missing_input_is_400 (now : Z) (shuffle : list Card -> list Card) (req : Request)
  (st : Store) :
  (JS.truthy (field "userId" (req_body req)) && JS.truthy (field "cardTitle" (req_body req))
   && JS.truthy (field "trackUri" (req_body req)) = false ->
   run (discovery now req) st
   = (Some (Send 400 (ErrorJson "Faltan datos obligatorios")), enter st))
  /\ (JS.truthy (field "userId" (req_body req)) && JS.truthy (field "trackUri" (req_body req))
      = false ->
      run (discovery_mark_as_added req) st
      = (Some (Send 400 (ErrorJson "Faltan datos obligatorios")), enter st))
  /\ (JS.truthy (field "userId" (req_query req)) = false ->
      run (discovery_all req) st = (Some (Send 400 (ErrorJson "Falta userId")), enter st)
      /\ run (discovery_today now req) st
         = (Some (Send 400 (ErrorJson "Falta userId")), enter st)
      /\ run (cards_daily now shuffle req) st
         = (Some (Send 400 (ErrorJson "Falta userId")), enter st)).
Proof.
  split; [| split].
  - intro H. unfold run, discovery.
    replace (negb (JS.truthy (field "userId" (req_body req)))
             || negb (JS.truthy (field "cardTitle" (req_body req)))
             || negb (JS.truthy (field "trackUri" (req_body req)))) with true;
      [reflexivity |].
    rewrite <- !negb_andb, H. reflexivity.
  - intro H. unfold run, discovery_mark_as_added.
    replace (negb (JS.truthy (field "userId" (req_body req)))
             || negb (JS.truthy (field "trackUri" (req_body req)))) with true;
      [reflexivity |].
    rewrite <- negb_andb, H. reflexivity.
  - intro H. unfold run, discovery_all, discovery_today, cards_daily. rewrite H.
    repeat split; reflexivity.
Qed.

Lemma missing_input_is_400_witness :
  run (discovery an_evening mark_request) store_with_playlist
  = (Some (Send 400 (ErrorJson "Faltan datos obligatorios")), enter store_with_playlist)
  /\ run (cards_daily an_evening in_order mark_request) store_with_playlist
     = (Some (Send 400 (ErrorJson "Falta userId")), enter store_with_playlist).
Proof.
  destruct (missing_input_is_400 an_evening in_order mark_request store_with_playlist)
    as (Hrecord & _ & Hquery).
  split; [apply Hrecord; reflexivity | apply Hquery; reflexivity].
Defined.

(** X13.  A record of a pair that has no entry yet, by any user (a
    playlist record is not asked for): the entry is appended with the
    fields of the body, [added] false unless the body says otherwise,
    and the time of the request; the answer is that entry; and on a
    store that keeps its keys the key of the entry is one no other
    entry has. *)
Theorem discovery_new_pair (now : Z) (req : Request) (st : Store) (uid uri title : string) :
  discovery_body req uid uri ->
  field "cardTitle" (req_body req) = Some title ->
  find (Prisma.same_pair uid uri) (discoveryLog st) = None ->
  let entry :=
    mkDiscoveryLog (next_cuid st) uid title uri
      (match req_added req with Some b => b | None => false end) now in
  run (discovery now req) st
  = (Some (Send 200 (LogJson entry)),
     enter (Prisma.set_discoveryLog st (discoveryLog st ++ [entry]) (S (next_cuid st))))
  /\ (wf_store st -> forall l, In l (discoveryLog st) -> dl_id l <> dl_id entry).
Proof.
  intros Hb Htitle Hnone entry. subst entry.
  pose proof (discovery_body_guard _ _ _ Hb) as Hg.
  destruct Hb as (Hu & Ht & _ & _ & _).
  split.
  - unfold run, discovery. rewrite Hg, Hu, Ht, Htitle. step_monad.
    unfold JS.to_string. rewrite Hnone. step_monad. reflexivity.
  - intros Hwf l Hl. pose proof (wf_log_fresh st Hwf l Hl). simpl. lia.
Qed.

Lemma discovery_new_pair_witness :
  run (discovery an_evening new_user_request) store_with_playlist
  = (Some (Send 200
             (LogJson (mkDiscoveryLog 1 "cy" "Archangel"
                         "spotify:track:6evpAJCR5GeeHDGgv3aXb3" false an_evening))),
     enter (Prisma.set_discoveryLog store_with_playlist
              [mkDiscoveryLog 1 "cy" "Archangel" "spotify:track:6evpAJCR5GeeHDGgv3aXb3"
                 false an_evening]
              2)).
Proof.
  refine (proj1 (discovery_new_pair an_evening new_user_request store_with_playlist "cy"
                   "spotify:track:6evpAJCR5GeeHDGgv3aXb3" "Archangel" _ _ _)).
  - repeat split; try reflexivity; discriminate.
  - reflexivity.
  - reflexivity.
Defined.

Lemma map_mark_other (id : nat) (logs : list DiscoveryLog) :
  (forall l, In l logs -> dl_id l <> id) -> map (Prisma.mark id) logs = logs.
Proof.
  intro H. induction logs as [|l logs IH]; simpl; [reflexivity |].
  rewrite IH by (intros; apply H; now right).
  unfold Prisma.mark. destruct (Nat.eqb_spec (dl_id l) id) as [He | _]; [| reflexivity].
  exfalso. apply (H l); [now left | exact He].
Qed.

Lemma find_id_other (id : nat) (logs : list DiscoveryLog) :
  (forall l, In l logs -> dl_id l <> id) ->
  find (fun l => Nat.eqb (dl_id l) id) logs = None.
Proof.
  intro H. induction logs as [|l logs IH]; simpl; [reflexivity |].
  destruct (Nat.eqb_spec (dl_id l) id) as [He | _].
  - exfalso. apply (H l); [now left | exact He].
  - apply IH. intros; apply H; now right.
Qed.

(** X14.  Record, then mark: after a first record of a pair (not sent
    as added) and a mark-as-added of the same pair, the entry of the
    pair is the recorded one with [added] true, the entries that were
    there before are unchanged, and a further mark-as-added answers
    ["Ya estaba marcado como añadido"] and writes nothing. *)
Theorem record_then_mark (now : Z) (recorded marked : Request) (st : Store)
  (uid uri : string) :
  wf_store st ->
  discovery_body recorded uid uri ->
  mark_body marked uid uri ->
  find (Prisma.same_pair uid uri) (discoveryLog st) = None ->
  req_added recorded <> Some true ->
  let st1 := db (snd (run (discovery now recorded) st)) in
  let st2 := db (snd (run (discovery_mark_as_added marked) st1)) in
  (exists title,
     discoveryLog st2
     = (discoveryLog st ++ [mkDiscoveryLog (next_cuid st) uid title uri true now])%list)
  /\ run (discovery_mark_as_added marked) st2
     = (Some (Send 200 (MessageJson "Ya estaba marcado como añadido")), enter st2).
Proof.
  intros Hwf Hb Hm Hnone Hadded st1 st2.
  pose proof (discovery_body_guard _ _ _ Hb) as Hg.
  pose proof (mark_body_guard _ _ _ Hm) as Hgm.
  destruct Hb as (Hu & Ht & _ & _ & _). destruct Hm as (Hmu & Hmt & _ & _).
  set (title := JS.to_string (field "cardTitle" (req_body recorded))).
  set (entry := mkDiscoveryLog (next_cuid st) uid title uri false now).
  assert (Hfalse : match req_added recorded with Some b => b | None => false end = false).
  { destruct (req_added recorded) as [[|]|]; congruence. }
  assert (Hst1 : st1 = Prisma.set_discoveryLog st (discoveryLog st ++ [entry])%list
                         (S (next_cuid st))).
  { subst st1. unfold run, discovery. rewrite Hg, Hu, Ht. step_monad.
    cbn [JS.to_string]. rewrite Hnone. step_monad.
    rewrite Hfalse. reflexivity. }
  assert (Hold : forall l, In l (discoveryLog st) -> dl_id l <> next_cuid st).
  { intros l Hl. pose proof (wf_log_fresh st Hwf l Hl). lia. }
  assert (Hst2 : st2 = Prisma.set_discoveryLog st
                         (discoveryLog st
                          ++ [mkDiscoveryLog (next_cuid st) uid title uri true now])%list
                         (S (next_cuid st))).
  { assert (Hpair : find (Prisma.same_pair uid uri) (discoveryLog st ++ [entry])%list
                    = Some entry).
    { rewrite (find_app_none _ _ _ Hnone). unfold entry. simpl find.
      now rewrite same_pair_refl. }
    assert (Hkey : find (fun l => Nat.eqb (dl_id l) (next_cuid st))
                     (discoveryLog st ++ [entry])%list = Some entry).
    { rewrite (find_app_none _ _ _ (find_id_other _ _ Hold)). simpl.
      now rewrite Nat.eqb_refl. }
    assert (Hmarked : map (Prisma.mark (next_cuid st)) (discoveryLog st ++ [entry])%list
                      = (discoveryLog st
                         ++ [mkDiscoveryLog (next_cuid st) uid title uri true now])%list).
    { rewrite map_app, (map_mark_other _ _ Hold). simpl. unfold Prisma.mark. simpl.
      now rewrite Nat.eqb_refl. }
    subst st2. rewrite Hst1. unfold run, discovery_mark_as_added.
    rewrite Hgm, Hmu, Hmt. step_monad. cbn [JS.to_string].
    rewrite Hpair. step_monad. cbn [dl_added dl_id entry]. step_monad.
    rewrite Hkey. step_monad. rewrite Hmarked. reflexivity. }
  split.
  - exists title. rewrite Hst2. reflexivity.
  - assert (Hpair : find (Prisma.same_pair uid uri)
                      (discoveryLog st
                       ++ [mkDiscoveryLog (next_cuid st) uid title uri true now])%list
                    = Some (mkDiscoveryLog (next_cuid st) uid title uri true now)).
    { rewrite (find_app_none _ _ _ Hnone). simpl find. now rewrite same_pair_refl. }
    rewrite Hst2. unfold run, discovery_mark_as_added.
    rewrite Hgm, Hmu, Hmt. step_monad. cbn [JS.to_string].
    rewrite Hpair. reflexivity.
Qed.

Lemma wf_store_with_playlist : wf_store store_with_playlist.
Proof.
  constructor; simpl.
  - constructor.
  - intros l [].
  - intros uid uri. lia.
  - repeat constructor; simpl; tauto.
  - constructor.
  - intros c0 [].
  - constructor.
  - constructor.
  - intros d [].
  - intros d [].
Qed.

Lemma record_then_mark_witness :
  let st1 := db (snd (run (discovery an_evening discovery_request) store_with_playlist)) in
  let st2 := db (snd (run (discovery_mark_as_added mark_request) st1)) in
  (exists title,
     discoveryLog st2
     = (discoveryLog store_with_playlist
        ++ [mkDiscoveryLog (next_cuid store_with_playlist) "ana" title
              "spotify:track:6evpAJCR5GeeHDGgv3aXb3" true an_evening])%list)
  /\ run (discovery_mark_as_added mark_request) st2
     = (Some (Send 200 (MessageJson "Ya estaba marcado como añadido")), enter st2).
Proof.
  apply (record_then_mark an_evening discovery_request mark_request store_with_playlist
           "ana" "spotify:track:6evpAJCR5GeeHDGgv3aXb3").
  - exact wf_store_with_playlist.
  - repeat split; try reflexivity; discriminate.
  - repeat split; try reflexivity; discriminate.
  - reflexivity.
  - discriminate.
Defined.

(** ** [orderBy] *)

Section OrderBy.

Variable Row : Type.
Variable before : Row -> Row -> bool.
Hypothesis before_total : forall a b, before a b = true \/ before b a = true.
Hypothesis before_trans :
  forall a b c, before a b = true -> before b c = true -> before a c = true.

Let ordered (a b : Row) : Prop := before a b = true.

Lemma insert_by_permutation (x : Row) (rows : list Row) :
  Permutation (x :: rows) (Prisma.insert_by before x rows).
Proof.
  induction rows as [|y rows IH]; simpl; [reflexivity |].
  destruct (before y x); [| reflexivity].
  rewrite perm_swap. now apply perm_skip.
Qed.

Lemma insert_by_sorted (x : Row) (rows : list Row) :
  StronglySorted ordered rows -> StronglySorted ordered (Prisma.insert_by before x rows).
Proof.
  induction rows as [|y rows IH]; simpl; intro Hs.
  - repeat constructor.
  - apply StronglySorted_inv in Hs. destruct Hs as [Hrest Hy].
    destruct (before y x) eqn:Hyx.
    + constructor; [now apply IH |].
      eapply Permutation_Forall; [apply insert_by_permutation |].
      constructor; assumption.
    + assert (Hxy : ordered x y).
      { destruct (before_total x y) as [H | H]; [exact H | congruence]. }
      constructor; [constructor; assumption |].
      constructor; [exact Hxy |].
      eapply Forall_impl; [| exact Hy]. intros z Hz. eapply before_trans; eauto.
Qed.

Lemma order_by_fold (rows acc : list Row) :
  Permutation (rows ++ acc)
    (fold_left (fun sorted x => Prisma.insert_by before x sorted) rows acc)
  /\ (StronglySorted ordered acc ->
      StronglySorted ordered
        (fold_left (fun sorted x => Prisma.insert_by before x sorted) rows acc)).
Proof.
  revert acc. induction rows as [|x rows IH]; intro acc; simpl.
  - split; [reflexivity | auto].
  - destruct (IH (Prisma.insert_by before x acc)) as [Hp Hs]. split.
    + rewrite <- Hp. rewrite <- insert_by_permutation. apply Permutation_middle.
    + intro Hacc. apply Hs. now apply insert_by_sorted.
Qed.

Lemma order_by_permutation (rows : list Row) :
  Permutation rows (Prisma.order_by before rows).
Proof.
  unfold Prisma.order_by. destruct (order_by_fold rows []) as [Hp _].
  now rewrite app_nil_r in Hp.
Qed.

Lemma order_by_sorted (rows : list Row) :
  StronglySorted ordered (Prisma.order_by before rows).
Proof.
  unfold Prisma.order_by. destruct (order_by_fold rows []) as [_ Hs].
  apply Hs. constructor.
Qed.

End OrderBy.

Lemma StronglySorted_weaken {Row} (P Q : Row -> Row -> Prop) (rows : list Row) :
  (forall a b, P a b -> Q a b) -> StronglySorted P rows -> StronglySorted Q rows.
Proof.
  intros Hpq Hs. induction Hs as [|x rows Hs IH Hx]; constructor; [assumption |].
  eapply Forall_impl; [| exact Hx]. intros y. apply Hpq.
Qed.

Lemma query_user (req : Request) (uid : string) :
  field "userId" (req_query req) = Some uid -> uid <> "" ->
  negb (JS.truthy (field "userId" (req_query req))) = false.
Proof. intros H Hne. rewrite H. destruct uid; [congruence | reflexivity]. Qed.

(** X15.  [GET /api/discovery/all] answers the entries of the user, all
    of them and no entry of another user, newest first. *)
Theorem discovery_all_newest_first (req : Request) (st : Store) (uid : string) :
  field "userId" (req_query req) = Some uid -> uid <> "" ->
  exists logs,
    run (discovery_all req) st = (Some (Send 200 (LogsJson logs)), enter st)
    /\ Permutation (history st uid) logs
    /\ StronglySorted newer_first logs.
Proof.
  intros Hu Hne. pose proof (query_user req uid Hu Hne) as Hg.
  eexists. split; [| split].
  - unfold run, discovery_all. rewrite Hg, Hu. step_monad. cbn [JS.to_string]. reflexivity.
  - apply order_by_permutation; intros; rewrite ?Z.leb_le in *; lia.
  - eapply StronglySorted_weaken;
      [| apply order_by_sorted; intros; rewrite ?Z.leb_le in *; lia].
    intros a b H. unfold newer_first. now apply Z.leb_le in H.
Qed.

Lemma discovery_all_newest_first_witness :
  exists logs,
    run (discovery_all list_request) store_two_entries
    = (Some (Send 200 (LogsJson logs)), enter store_two_entries)
    /\ Permutation (history store_two_entries "ana") logs
    /\ StronglySorted newer_first logs.
Proof.
  apply (discovery_all_newest_first list_request store_two_entries "ana").
  - reflexivity.
  - discriminate.
Defined.

(** X16.  [GET /api/discovery/today] answers the earliest entry the
    user created within the UTC day of the request, and 404 when the
    user has created none that day, whatever older entries exist. *)
Theorem discovery_today_earliest (now : Z) (req : Request) (st : Store) (uid : string) :
  field "userId" (req_query req) = Some uid -> uid <> "" ->
  (entries_today st uid now = [] ->
   run (discovery_today now req) st = (Some (Send 404 ReasonPhrase), enter st))
  /\ (entries_today st uid now <> [] ->
      exists first,
        run (discovery_today now req) st = (Some (Send 200 (LogJson first)), enter st)
        /\ In first (entries_today st uid now)
        /\ forall l, In l (entries_today st uid now) ->
             (dl_createdAt first <= dl_createdAt l)%Z).
Proof.
  intros Hu Hne. pose proof (query_user req uid Hu Hne) as Hg.
  set (ascending := fun a b : DiscoveryLog => Z.leb (dl_createdAt a) (dl_createdAt b)).
  assert (Hperm : Permutation (entries_today st uid now)
                    (Prisma.order_by ascending (entries_today st uid now))).
  { apply order_by_permutation; subst ascending; simpl; intros;
      rewrite ?Z.leb_le in *; lia. }
  assert (Hsorted : StronglySorted (fun a b => ascending a b = true)
                      (Prisma.order_by ascending (entries_today st uid now))).
  { apply order_by_sorted; subst ascending; simpl; intros;
      rewrite ?Z.leb_le in *; lia. }
  assert (Hrun : run (discovery_today now req) st
                 = match hd_error (Prisma.order_by ascending (entries_today st uid now)) with
                   | Some l => (Some (Send 200 (LogJson l)), enter st)
                   | None => (Some (Send 404 ReasonPhrase), enter st)
                   end).
  { unfold run, discovery_today. rewrite Hg, Hu. step_monad. cbn [JS.to_string].
    fold ascending. fold (entries_today st uid now).
    destruct (hd_error _); reflexivity. }
  rewrite Hrun. split.
  - intro Hnone. rewrite Hnone. reflexivity.
  - intro Hsome.
    destruct (Prisma.order_by ascending (entries_today st uid now)) as [|first rest] eqn:Ho.
    + exfalso. apply Hsome. now apply Permutation_nil.
    + exists first. split; [reflexivity | split].
      * eapply Permutation_in; [symmetry; exact Hperm | now left].
      * intros l Hl. apply StronglySorted_inv in Hsorted. destruct Hsorted as [_ Hall].
        eapply Permutation_in in Hl; [| exact Hperm].
        destruct Hl as [<- | Hl]; [lia |].
        rewrite Forall_forall in Hall. specialize (Hall l Hl).
        subst ascending. simpl in Hall. now apply Z.leb_le in Hall.
Qed.

Lemma discovery_today_earliest_witness :
  exists first,
    run (discovery_today an_evening list_request) store_two_entries
    = (Some (Send 200 (LogJson first)), enter store_two_entries)
    /\ In first (entries_today store_two_entries "ana" an_evening)
    /\ forall l, In l (entries_today store_two_entries "ana" an_evening) ->
         (dl_createdAt first <= dl_createdAt l)%Z.
Proof.
  refine (proj2 (discovery_today_earliest an_evening list_request store_two_entries "ana"
                   _ _) _).
  - reflexivity.
  - discriminate.
  - discriminate.
Defined.

(* ================================================================== *)
(** * Routes that only read, and the seed *)
(* ================================================================== *)

Lemma readonly_handler (cfg : Config) (a : Ambient) (r : Route) (req : Request) :
  reads_only r = true -> readonly (handler cfg a r req).
Proof.
  destruct r; simpl; intro H; try discriminate.
  - unfold auth_login. readonly_step.
  - unfold auth_callback. readonly_step.
  - unfold auth_refresh. readonly_step.
  - unfold auth_logout. readonly_step.
  - unfold playlist_add. readonly_step.
  - unfold discovery_all. readonly_step.
  - unfold me. readonly_step.
  - unfold cards. readonly_step.
  - unfold discovery_today. readonly_step.
Qed.

(** X17.  The routes of login, callback, refresh and logout, of adding
    a track, of the discovery list and the entry of today, of the
    profile and of the card list never write to the store, whatever the
    request and whatever the upstream service answers. *)
Theorem reading_routes_keep_store (cfg : Config) (a : Ambient) (r : Route) (req : Request)
  (st : Store) :
  reads_only r = true -> serve cfg a r req st = st.
Proof.
  intro H. unfold serve. rewrite snd_run.
  apply (readonly_handler cfg a r req H (enter st)).
Qed.

Lemma reading_routes_keep_store_witness :
  serve sample_cfg an_evening_request POST_playlist_add add_request store_two_users
  = store_two_users.
Proof.
  apply reading_routes_keep_store. reflexivity.
Defined.

Lemma upsert_all_seeded (cs : list Card) (st : Store) (k : list Call) (c : list CookieOp) :
  upsert_all cs (mkWorld st k c) = (Val tt, mkWorld (seeded st cs) k c).
Proof.
  revert st. induction cs as [|x cs IH]; intro st; simpl; [reflexivity |].
  unfold bind at 1. unfold Prisma.card_upsert. step_monad. unfold seeded in *. simpl.
  unfold upserted at 2.
  destruct (existsb _ (card st)); step_monad; apply IH.
Qed.

Lemma upserted_keeps (st : Store) (c : Card) :
  (exists added, card (upserted st c) = card st ++ added)
  /\ In (card_uri c) (map card_uri (card (upserted st c)))
  /\ discoveryLog (upserted st c) = discoveryLog st
  /\ userPlaylist (upserted st c) = userPlaylist st
  /\ dailyCard (upserted st c) = dailyCard st.
Proof.
  unfold upserted.
  destruct (existsb _ (card st)) eqn:Hex; simpl.
  - split; [exists []; now rewrite app_nil_r |]. split; [| auto].
    apply existsb_exists in Hex. destruct Hex as (c' & Hin & Heq).
    apply String.eqb_eq in Heq. rewrite <- Heq. now apply in_map.
  - split; [eauto |]. split; [| auto].
    rewrite map_app. apply in_or_app. right. now left.
Qed.

Lemma seeded_keeps (cs : list Card) (st : Store) :
  (exists added, card (seeded st cs) = card st ++ added)
  /\ (forall uri, In uri (map card_uri (card st)) \/ In uri (map card_uri cs) ->
        In uri (map card_uri (card (seeded st cs))))
  /\ discoveryLog (seeded st cs) = discoveryLog st
  /\ userPlaylist (seeded st cs) = userPlaylist st
  /\ dailyCard (seeded st cs) = dailyCard st.
Proof.
  revert st. induction cs as [|c cs IH]; intro st; unfold seeded; simpl.
  - split; [exists []; now rewrite app_nil_r |]. split; [| auto]. intros uri [H | []]. exact H.
  - fold (seeded (upserted st c) cs).
    destruct (IH (upserted st c)) as ((added' & Hcards) & Huris & Hl & Hp & Hd).
    destruct (upserted_keeps st c) as ((added & Hone) & Hin & Hl1 & Hp1 & Hd1).
    split; [| split; [| split; [| split]]]; try congruence.
    + exists (added ++ added'). rewrite Hcards, Hone. now rewrite app_assoc.
    + intros uri [H | [H | H]]; apply Huris.
      * left. rewrite Hone, map_app. apply in_or_app. now left.
      * left. now rewrite <- H.
      * now right.
Qed.

Lemma seeded_again (cs : list Card) (st : Store) :
  (forall c, In c cs -> In (card_uri c) (map card_uri (card st))) -> seeded st cs = st.
Proof.
  revert st. induction cs as [|c cs IH]; intros st H; unfold seeded; simpl; [reflexivity |].
  assert (Hsame : upserted st c = st).
  { unfold upserted.
    destruct (existsb (fun c' => String.eqb (card_uri c') (card_uri c)) (card st)) eqn:Hex;
      [reflexivity |].
    exfalso. specialize (H c (or_introl eq_refl)).
    apply in_map_iff in H. destruct H as (c' & Heq & Hin).
    rewrite existsb_false_iff in Hex. specialize (Hex c' Hin). simpl in Hex.
    rewrite Heq, String.eqb_refl in Hex. discriminate. }
  rewrite Hsame. apply IH. intros c' Hc'. apply H. now right.
Qed.

(** X18.  The seed answers success, keeps every card that was in the
    table (rows and keys as they were) and adds a row for each of its
    cards whose track uri the table lacks; the other tables are not
    touched.  Seeding a seeded table changes nothing. *)
Theorem seed_is_idempotent (st : Store) :
  let st1 := db (snd (run cards_seed st)) in
  run cards_seed st = (Some (Send 200 SuccessJson), enter st1)
  /\ (exists added, card st1 = card st ++ added)
  /\ (forall c, In c dummyCards -> In (card_uri c) (map card_uri (card st1)))
  /\ discoveryLog st1 = discoveryLog st
  /\ userPlaylist st1 = userPlaylist st
  /\ dailyCard st1 = dailyCard st
  /\ run cards_seed st1 = (Some (Send 200 SuccessJson), enter st1).
Proof.
  intro st1.
  assert (Hrun : forall s, run cards_seed s
                           = (Some (Send 200 SuccessJson), enter (seeded s dummyCards))).
  { intro s. unfold run, cards_seed, try_catch, bind, enter.
    rewrite upsert_all_seeded. reflexivity. }
  assert (Hst1 : st1 = seeded st dummyCards) by (subst st1; now rewrite Hrun).
  destruct (seeded_keeps dummyCards st) as (Hcards & Huris & Hl & Hp & Hd).
  rewrite Hst1. split; [apply Hrun |].
  repeat (split; [assumption || (intros c Hc; apply Huris; right; now apply in_map) |]).
  rewrite Hrun. rewrite seeded_again; [reflexivity |].
  intros c Hc. apply Huris. right. now apply in_map.
Qed.

(* ================================================================== *)
(** * The daily cards beyond the claims *)
(* ================================================================== *)

Lemma mem_string_spec (s : string) (l : list string) :
  Prisma.mem_string s l = true <-> In s l.
Proof.
  unfold Prisma.mem_string. rewrite existsb_exists. split.
  - intros (x & Hin & Heq). apply String.eqb_eq in Heq. now subst.
  - intro H. exists s. split; [assumption | apply String.eqb_refl].
Qed.

(** X19.  With three or more cards the user has not discovered, the
    first request of the day answers three cards of the table, pairwise
    distinct, none of which has a track uri in the user's discovery
    history. *)
Theorem daily_avoids_seen (now : Z) (shuffle : list Card -> list Card) (req : Request)
  (st : Store) (uid : string) :
  wf_store st -> daily_query req uid ->
  assignments st uid now = [] ->
  (forall l, Permutation l (shuffle l)) ->
  3 <= List.length (unseen st uid) ->
  exists cs,
    fst (run (cards_daily now shuffle req) st) = Some (Send 200 (CardsJson cs))
    /\ List.length cs = 3
    /\ NoDup (map card_id cs)
    /\ forall c, In c cs ->
         In c (card st) /\ ~ In (card_uri c) (map dl_trackUri (history st uid)).
Proof.
  intros Hwf Hq Hnone Hperm Hthree.
  destruct (selected_distinct st uid shuffle Hwf Hperm) as (Hnd & _ & _).
  assert (Hcand : daily_candidates st uid = unseen st uid).
  { unfold daily_candidates. apply Nat.leb_le in Hthree. now rewrite Hthree. }
  exists (firstn 3 (shuffle (daily_candidates st uid))).
  split; [| split; [| split]].
  - rewrite (cards_daily_fresh now shuffle req st uid Hq Hwf Hnone Hperm). reflexivity.
  - rewrite length_firstn, <- (Permutation_length (Hperm _)), Hcand. lia.
  - exact Hnd.
  - intros c Hc. apply In_firstn in Hc.
    eapply Permutation_in in Hc; [| symmetry; apply Hperm].
    rewrite Hcand in Hc. unfold unseen in Hc. apply filter_In in Hc.
    destruct Hc as [Hin Hnew]. split; [exact Hin |].
    intro Hseen. apply mem_string_spec in Hseen. rewrite Hseen in Hnew. discriminate.
Qed.

Lemma dummyCards_uris : NoDup (map card_uri dummyCards).
Proof. repeat constructor; simpl; intuition discriminate. Qed.

Lemma seeded_wf (st : Store) (cs : list Card) : wf_store st -> wf_store (seeded st cs).
Proof.
  revert st. induction cs as [|c cs IH]; intros st Hwf; unfold seeded; simpl; [exact Hwf |].
  apply IH. unfold upserted.
  destruct (existsb _ (card st)) eqn:Hex; [exact Hwf | now apply wf_add_card].
Qed.

Lemma seeded_store_wf : wf_store seeded_store.
Proof.
  apply seeded_wf. constructor; simpl.
  - repeat constructor; simpl; tauto.
  - intros l [<- | []]. simpl. lia.
  - intros uid uri. destruct (Prisma.same_pair uid uri seen_entry); simpl; lia.
  - repeat constructor; simpl; tauto.
  - constructor.
  - intros c0 [].
  - constructor.
  - constructor.
  - intros d [].
  - intros d [].
Qed.

Lemma daily_avoids_seen_witness :
  exists cs,
    fst (run (cards_daily an_evening in_order daily_request) seeded_store)
    = Some (Send 200 (CardsJson cs))
    /\ List.length cs = 3
    /\ NoDup (map card_id cs)
    /\ forall c, In c cs ->
         In c (card seeded_store)
         /\ ~ In (card_uri c) (map dl_trackUri (history seeded_store "ana")).
Proof.
  apply (daily_avoids_seen an_evening in_order daily_request seeded_store "ana"
           seeded_store_wf).
  - split; [reflexivity | discriminate].
  - reflexivity.
  - exact in_order_permutation.
  - vm_compute. lia.
Defined.

(** X20.  Once the table has been seeded, the first request of a day
    by a user is answered with exactly three pairwise distinct cards,
    whatever the user has discovered. *)
Theorem seeded_table_gives_three (now : Z) (shuffle : list Card -> list Card)
  (req : Request) (st : Store) (uid : string) :
  wf_store st -> daily_query req uid ->
  assignments st uid now = [] ->
  (forall l, Permutation l (shuffle l)) ->
  let st1 := db (snd (run cards_seed st)) in
  exists cs,
    fst (run (cards_daily now shuffle req) st1) = Some (Send 200 (CardsJson cs))
    /\ List.length cs = 3
    /\ NoDup (map card_id cs).
Proof.
  intros Hwf Hq Hnone Hperm st1.
  assert (Hst1 : st1 = seeded st dummyCards).
  { subst st1. unfold run, cards_seed, try_catch, bind, enter.
    rewrite upsert_all_seeded. reflexivity. }
  destruct (seeded_keeps dummyCards st) as (_ & Huris & _ & Hp & Hd).
  rewrite <- Hst1 in Huris, Hp, Hd.
  assert (Hwf1 : wf_store st1) by (rewrite Hst1; now apply seeded_wf).
  assert (Hnone1 : assignments st1 uid now = []).
  { unfold assignments. rewrite Hd. exact Hnone. }
  assert (Hmany : 11 <= List.length (card st1)).
  { rewrite <- (length_map card_uri (card st1)).
    change 11 with (List.length (map card_uri dummyCards)).
    apply NoDup_incl_length; [exact dummyCards_uris |].
    intros uri Huri. apply Huris. now right. }
  destruct (selected_distinct st1 uid shuffle Hwf1 Hperm) as (Hnd & _ & Hlen).
  exists (firstn 3 (shuffle (daily_candidates st1 uid))).
  split; [| split].
  - rewrite (cards_daily_fresh now shuffle req st1 uid Hq Hwf1 Hnone1 Hperm).
    reflexivity.
  - rewrite Hlen. lia.
  - exact Hnd.
Qed.

Lemma seeded_table_gives_three_witness :
  exists cs,
    fst (run (cards_daily an_evening in_order daily_request)
           (db (snd (run cards_seed store_with_playlist))))
    = Some (Send 200 (CardsJson cs))
    /\ List.length cs = 3
    /\ NoDup (map card_id cs).
Proof.
  apply (seeded_table_gives_three an_evening in_order daily_request
           store_with_playlist "ana" wf_store_with_playlist).
  - split; [reflexivity | discriminate].
  - reflexivity.
  - exact in_order_permutation.
Defined.

(* ================================================================== *)
(** * What holds in every store the server reaches *)
(* ================================================================== *)


















(* ================================================================== *)
(** * The header and the query text *)
(* ================================================================== *)

Lemma prefix_empty (s : string) : String.prefix "" s = true.
Proof. destruct s; reflexivity. Qed.

Lemma substring_whole (s : string) : substring 0 (String.length s) s = s.
Proof. induction s as [|c s IH]; simpl; [reflexivity | now rewrite IH]. Qed.

Lemma split_on_no_separator (cur s : string) :
  all_chars not_space s = true -> JS.split_on " "%char cur s = [(cur ++ s)%string].
Proof.
  revert cur. induction s as [|c s IH]; intros cur H; simpl.
  - f_equal. induction cur as [|d cur IHc]; simpl; [reflexivity | now rewrite <- IHc].
  - simpl in H. apply andb_true_iff in H. destruct H as [Hc Hs].
    unfold not_space in Hc. apply negb_true_iff in Hc. rewrite Hc.
    rewrite IH by exact Hs. f_equal.
    clear. induction cur as [|d cur IHc]; simpl; [reflexivity | now rewrite IHc].
Qed.

Lemma bearer_token_read_fields (token : string) :
  all_chars not_space token = true ->
  nth_error (JS.split_space ("Bearer " ++ token)) 1 = Some token.
Proof.
  intro H. unfold JS.split_space. simpl.
  rewrite (split_on_no_separator "" token H). reflexivity.
Qed.

(** X23.  Of a header ["Bearer " ++ token] whose token has no space,
    the two ways the routes read the token agree: removing the first
    ["Bearer "] (the playlist routes) and taking the second field
    between spaces (the profile route) both give the token. *)
Theorem bearer_token_read (token : string) :
  all_chars not_space token = true ->
  bearer ("Bearer " ++ token) = token
  /\ nth_error (JS.split_space ("Bearer " ++ token)) 1 = Some token.
Proof.
  intro H. split.
  - unfold bearer. simpl. rewrite prefix_empty. simpl.
    rewrite Nat.sub_0_r. apply substring_whole.
  - unfold JS.split_space. simpl. rewrite (split_on_no_separator "" token H). reflexivity.
Qed.

Lemma bearer_token_read_witness :
  bearer ("Bearer " ++ "t0k3n") = "t0k3n"
  /\ nth_error (JS.split_space ("Bearer " ++ "t0k3n")) 1 = Some "t0k3n".
Proof.
  apply (bearer_token_read "t0k3n"). reflexivity.
Defined.

Lemma hex_digit_code (n : nat) :
  n < 16 -> nat_of_ascii (JS.hex_digit n) = if Nat.ltb n 10 then 48 + n else 55 + n.
Proof.
  intro H. unfold JS.hex_digit. apply nat_ascii_embedding.
  destruct (Nat.ltb n 10) eqn:Hlt; [apply Nat.ltb_lt in Hlt |]; lia.
Qed.

Lemma hex_digit_unreserved (n : nat) : n < 16 -> JS.unreserved (JS.hex_digit n) = true.
Proof.
  intro H. unfold JS.unreserved. rewrite (hex_digit_code n H).
  destruct (Nat.ltb n 10) eqn:Hlt.
  - apply Nat.ltb_lt in Hlt.
    replace (Nat.leb 48 (48 + n) && Nat.leb (48 + n) 57) with true; [reflexivity |].
    symmetry. apply andb_true_iff. split; apply Nat.leb_le; lia.
  - apply Nat.ltb_ge in Hlt.
    replace (Nat.leb 65 (55 + n) && Nat.leb (55 + n) 90) with true;
      [now rewrite orb_true_r |].
    symmetry. apply andb_true_iff. split; apply Nat.leb_le; lia.
Qed.

Lemma hex_digit_injective (n m : nat) :
  n < 16 -> m < 16 -> JS.hex_digit n = JS.hex_digit m -> n = m.
Proof.
  intros Hn Hm H. apply (f_equal nat_of_ascii) in H.
  rewrite (hex_digit_code n Hn), (hex_digit_code m Hm) in H.
  destruct (Nat.ltb n 10) eqn:H1, (Nat.ltb m 10) eqn:H2;
    try apply Nat.ltb_lt in H1; try apply Nat.ltb_lt in H2;
    try apply Nat.ltb_ge in H1; try apply Nat.ltb_ge in H2; lia.
Qed.

Lemma byte_nibbles (c : ascii) : nat_of_ascii c / 16 < 16 /\ nat_of_ascii c mod 16 < 16.
Proof.
  pose proof (nat_ascii_bounded c) as H. split.
  - apply Nat.Div0.div_lt_upper_bound. lia.
  - apply Nat.mod_upper_bound. lia.
Qed.

(** X24.  A value serialised for a query holds nothing but ASCII
    letters and digits, [*], [-], [.], [_], [+] and [%]: no [&], [=],
    space or byte above 127 survives; a value made of letters, digits
    and [*-._] is kept as it is; and two different values never
    serialise to the same text. *)
Theorem urlencode_is_safe_and_injective (s s' : string) :
  all_chars query_safe (JS.urlencode s) = true
  /\ (all_chars JS.unreserved s = true -> JS.urlencode s = s)
  /\ (JS.urlencode s = JS.urlencode s' -> s = s').
Proof.
  split; [| split].
  - assert (Hhex : forall n, n < 16 -> query_safe (JS.hex_digit n) = true).
    { intros n Hn. unfold query_safe. now rewrite (hex_digit_unreserved n Hn). }
    induction s as [|c s IH]; cbn [JS.urlencode all_chars]; [reflexivity |].
    destruct (JS.unreserved c) eqn:Hc; cbn [all_chars].
    + unfold query_safe at 1. rewrite Hc. exact IH.
    + destruct (Ascii.eqb c " "); cbn [all_chars]; [exact IH |].
      destruct (byte_nibbles c) as [Hhi Hlo].
      rewrite (Hhex _ Hhi), (Hhex _ Hlo), IH. reflexivity.
  - induction s as [|c s IH]; simpl; [reflexivity |].
    intro H. apply andb_true_iff in H. destruct H as [Hc Hs].
    rewrite Hc, IH by exact Hs. reflexivity.
  - revert s'. induction s as [|c s IH]; intros [|c' s'] H; cbn [JS.urlencode] in H.
    + reflexivity.
    + destruct (JS.unreserved c'); [discriminate |].
      destruct (Ascii.eqb c' " "); discriminate.
    + destruct (JS.unreserved c); [discriminate |].
      destruct (Ascii.eqb c " "); discriminate.
    + destruct (JS.unreserved c) eqn:Hc, (JS.unreserved c') eqn:Hc'.
      * injection H as -> Htail. f_equal. now apply IH.
      * destruct (Ascii.eqb c' " "); injection H as -> Htail;
          vm_compute in Hc; discriminate.
      * destruct (Ascii.eqb c " "); injection H as <- Htail;
          vm_compute in Hc'; discriminate.
      * destruct (Ascii.eqb_spec c " ") as [-> | Hsp], (Ascii.eqb_spec c' " ") as [-> | Hsp'];
          try discriminate.
        -- injection H as Htail. f_equal. now apply IH.
        -- injection H as Hh Hl Htail.
           destruct (byte_nibbles c) as [Hhi Hlo], (byte_nibbles c') as [Hhi' Hlo'].
           apply hex_digit_injective in Hh; [| assumption | assumption].
           apply hex_digit_injective in Hl; [| assumption | assumption].
           assert (Hcode : nat_of_ascii c = nat_of_ascii c').
           { change (nat_of_ascii c / 16 = nat_of_ascii c' / 16) in Hh.
             change (nat_of_ascii c mod 16 = nat_of_ascii c' mod 16) in Hl.
             pose proof (Nat.div_mod_eq (nat_of_ascii c) 16).
             pose proof (Nat.div_mod_eq (nat_of_ascii c') 16). lia. }
           apply (f_equal ascii_of_nat) in Hcode.
           rewrite !ascii_nat_embedding in Hcode. subst. f_equal. now apply IH.
Qed.

(** X25.  [GET /api/me] asks upstream for the profile of the token and
    answers the user id with the avatar and the display name (absent
    ones as null); a profile without id is answered
    [500 No se pudo obtener userId], a call that throws
    [500 Error interno].  The store is not read. *)
Theorem me_profile (up : Upstream) (req : Request) (st : Store) (token : string) :
  all_chars not_space token = true -> token <> "" ->
  req_authorization req = Some ("Bearer " ++ token)%string ->
  run (me up req) st
  = (Some (match me_endpoint up token with
           | Some user =>
               match su_id user with
               | Some (String c id) =>
                   Send 200 (MeJson (String c id) (su_image_url user) (su_display_name user))
               | _ => Send 500 (ErrorJson "No se pudo obtener userId")
               end
           | None => Send 500 (ErrorJson "Error interno")
           end),
     mkWorld st [GetMe token] []).
Proof.
  intros Hsp Hne Hauth.
  pose proof (bearer_token_read_fields token Hsp) as Hfield.
  unfold run, me. rewrite Hauth, Hfield.
  destruct token as [|c0 token]; [congruence |].
  step_monad. cbn [JS.to_string JS.truthy negb]. step_monad.
  destruct (me_endpoint up (String c0 token)) as [user|]; step_monad; [| reflexivity].
  destruct (su_id user) as [[|c id]|]; reflexivity.
Qed.

Lemma me_profile_witness :
  run (me upstream_stale bearer_request) store_with_playlist
  = (Some (Send 200 (MeJson "ana" None (Some "Ana"))),
     mkWorld store_with_playlist [GetMe "t0k3n"] []).
Proof.
  apply (me_profile upstream_stale bearer_request store_with_playlist "t0k3n").
  - reflexivity.
  - discriminate.
  - reflexivity.
Defined.

(* ================================================================== *)
(** * The store-less server *)
(* ================================================================== *)

Lemma getOrCreatePlaylist_listing (fuel : nat) (up : Upstream) (token : string)
  (user : SpotifyUser) (pages : list SpotifyPlaylistsResponse) (st : Store)
  (cs : list Call) (ks : list CookieOp) :
  me_endpoint up token = Some user ->
  LegacyListing up token 0 pages ->
  List.length pages <= fuel ->
  let listed :=
    (cs ++ GetMe token
        :: map (fun o => GetPlaylists token (legacy_url o)) (legacy_offsets 0 pages))%list in
  getOrCreatePlaylist fuel up token (mkWorld st cs ks)
  = match find is_managed_ci (flat_map items pages) with
    | Some m => (Val (sp_id m), mkWorld st listed ks)
    | None =>
        let created :=
          (listed ++ [PostPlaylist token (JS.to_string (su_id user)) "SoundHaven"
                        "Playlist generada automáticamente por SoundHaven" false])%list in
        match create_endpoint up token (JS.to_string (su_id user)) with
        | Some p => (Val (sp_id p), mkWorld st created ks)
        | None => (Thrown, mkWorld st created ks)
        end
    end.
Proof.
  intros Hme Hpages Hfuel listed.
  unfold getOrCreatePlaylist. step_monad. rewrite Hme. step_monad.
  rewrite (legacy_loop_listing up token 0 pages Hpages fuel st _ ks Hfuel).
  subst listed. rewrite <- app_assoc. simpl app.
  destruct (find is_managed_ci (flat_map items pages)); step_monad; [reflexivity |].
  destruct (create_endpoint up token _); reflexivity.
Qed.

(** X26.  [POST /api/playlist/add] of the store-less server runs the
    paging search on every request and posts the track to the
    playlist the search finds; it does not read what upstream answers
    to the post, so the answer is success also when upstream refused
    the track, and 500 only when the call itself throws.  Nothing is
    stored. *)
Theorem legacy_add_ignores_refusal (fuel : nat) (up : Upstream) (req : Request)
  (st : Store) (token uri : string) (user : SpotifyUser)
  (pages : list SpotifyPlaylistsResponse) (m : SpotifyPlaylist) :
  authorized req token -> me_endpoint up token = Some user ->
  field "uri" (req_body req) = Some uri -> uri <> "" ->
  LegacyListing up token 0 pages ->
  List.length pages <= fuel ->
  find is_managed_ci (flat_map items pages) = Some m ->
  let posted :=
    (GetMe token
     :: map (fun o => GetPlaylists token (legacy_url o)) (legacy_offsets 0 pages)
     ++ [PostTracks token (sp_id m) [uri]])%list in
  run (legacy_playlist_add fuel up req) st
  = (Some (match tracks_endpoint up token (sp_id m) [uri] with
           | Some _ => Send 200 SuccessJson
           | None => Send 500 (ErrorJson "Error al añadir canción")
           end),
     mkWorld st posted []).
Proof.
  intros Hauth Hme Huri Hne Hpages Hfuel Hfound posted. subst posted.
  destruct (authorized_header _ _ Hauth) as (c & auth & Hhdr & Htok).
  assert (Hg : negb (JS.truthy (req_authorization req))
               || negb (JS.truthy (field "uri" (req_body req))) = false).
  { rewrite Hhdr, Huri. destruct uri; [congruence | reflexivity]. }
  unfold run, legacy_playlist_add. rewrite Hg, Hhdr, Huri. cbn [JS.to_string].
  rewrite Htok. unfold try_catch, bind at 1, enter.
  rewrite (getOrCreatePlaylist_listing fuel up token user pages st [] [] Hme Hpages Hfuel).
  rewrite Hfound. step_monad.
  destruct (tracks_endpoint up token (sp_id m) [uri]); reflexivity.
Qed.

Lemma upstream_by_offset_listing :
  LegacyListing upstream_add_refused "t0k3n" 0
    [mkPlaylists [mkSpotifyPlaylist "pl-7" "Focus"]
       (Some "https://api.spotify.com/v1/me/playlists?offset=50&limit=50");
     mkPlaylists [mkSpotifyPlaylist "pl-8" "soundhaven"] None].
Proof.
  apply Legacy_more; [reflexivity | reflexivity |].
  apply Legacy_last; reflexivity.
Qed.

Lemma legacy_add_ignores_refusal_witness :
  run (legacy_playlist_add 5 upstream_add_refused add_request) empty_store
  = (Some (Send 200 SuccessJson),
     mkWorld empty_store
       [GetMe "t0k3n"; GetPlaylists "t0k3n" (legacy_url 0);
        GetPlaylists "t0k3n" (legacy_url 50);
        PostTracks "t0k3n" "pl-8" ["spotify:track:6evpAJCR5GeeHDGgv3aXb3"]]
       []).
Proof.
  apply (legacy_add_ignores_refusal 5 upstream_add_refused add_request empty_store "t0k3n"
           "spotify:track:6evpAJCR5GeeHDGgv3aXb3" ana
           [mkPlaylists [mkSpotifyPlaylist "pl-7" "Focus"]
              (Some "https://api.spotify.com/v1/me/playlists?offset=50&limit=50");
            mkPlaylists [mkSpotifyPlaylist "pl-8" "soundhaven"] None]
           (mkSpotifyPlaylist "pl-8" "soundhaven")).
  - exists "Bearer t0k3n". repeat split. discriminate.
  - reflexivity.
  - reflexivity.
  - discriminate.
  - exact upstream_by_offset_listing.
  - simpl. lia.
  - reflexivity.
Defined.

(** X27.  The callback of the first server has no branch for a denied
    authorisation and judges the exchange by the [error] field alone:
    a callback without matching state is answered
    [400 State mismatch] also when it says [access_denied]; with a
    matching state, a payload that carries an error is answered 400
    with that payload as body, and any other payload sets the
    [refresh_token] cookie and redirects to the cards page, whatever
    the status of the upstream answer. *)
Theorem legacy_callback_outcomes (cfg : Config) (up : Upstream) (req : Request)
  (st : Store) :
  (field "state" (req_query req) = None
   \/ field "state" (req_query req) <> field "spotify_state" (req_cookies req) ->
   run (legacy_auth_callback cfg up req) st
   = (Some (Send 400 (Text "State mismatch")), enter st))
  /\ (forall state ok data,
        state <> "" ->
        field "state" (req_query req) = Some state ->
        field "spotify_state" (req_cookies req) = Some state ->
        token_endpoint up (code_form cfg (field "code" (req_query req))) = Some (ok, data) ->
        let called := [PostToken (code_form cfg (field "code" (req_query req)))] in
        run (legacy_auth_callback cfg up req) st
        = if JS.truthy (payload_error data) then
            (Some (Send 400 (UpstreamJson data)),
             mkWorld st called [ClearCookie "spotify_state" None])
          else
            (Some (Redirect (CLIENT_URL cfg ++ "/cards?access_token="
                             ++ JS.to_string (payload_access_token data))),
             mkWorld st called
               [ClearCookie "spotify_state" None;
                SetCookie "refresh_token" (payload_refresh_token data)
                  (refresh_cookie_options cfg)])).
Proof.
  split.
  - intro Hstate.
    assert (Hg : negb (JS.truthy (field "state" (req_query req)))
                 || negb (JS.strict_eq (field "state" (req_query req))
                            (field "spotify_state" (req_cookies req))) = true).
    { destruct Hstate as [Habsent | Hdiff].
      - rewrite Habsent. reflexivity.
      - apply strict_eq_false in Hdiff. rewrite Hdiff. apply orb_true_r. }
    unfold run, legacy_auth_callback. rewrite Hg. reflexivity.
  - intros state ok data Hne Hstate Hcookie Hup called. subst called.
    pose proof (echoed_state_guard req state Hne Hstate Hcookie) as Hg.
    unfold run, legacy_auth_callback. rewrite Hg. step_monad. rewrite Hup. step_monad.
    destruct (JS.truthy (payload_error data)); reflexivity.
Qed.

Lemma legacy_callback_outcomes_witness :
  run (legacy_auth_callback sample_cfg silent denied_without_state) empty_store
  = (Some (Send 400 (Text "State mismatch")), enter empty_store).
Proof.
  apply (proj1 (legacy_callback_outcomes sample_cfg silent denied_without_state empty_store)).
  now left.
Defined.

(** X28.  The refresh route of the first server, which judges the
    exchange by the [error] field, and the one of [src/index.ts],
    which judges it by the status and the access token, give the same
    run whenever the upstream answer is coherent (or the call throws):
    the later guard changes nothing for such answers. *)
Theorem refresh_guards_agree (cfg : Config) (up : Upstream) (req : Request) (st : Store) :
  coherent_answer
    (token_endpoint up (refresh_form cfg (field "refresh_token" (req_cookies req)))) ->
  run (legacy_auth_refresh cfg up req) st = run (auth_refresh cfg up req) st.
Proof.
  intro Hcoherent.
  unfold run, legacy_auth_refresh, auth_refresh.
  destruct (negb (JS.truthy (field "refresh_token" (req_cookies req)))); [reflexivity |].
  unfold coherent_answer in Hcoherent. step_monad.
  destruct (token_endpoint up _) as [[ok data] |]; [| reflexivity].
  destruct Hcoherent as [Htoken Herror]. step_monad.
  rewrite Htoken, Herror. destruct ok; reflexivity.
Qed.

Lemma refresh_guards_agree_witness :
  run (legacy_auth_refresh sample_cfg upstream_rotation refresh_request) empty_store
  = run (auth_refresh sample_cfg upstream_rotation refresh_request) empty_store.
Proof.
  apply (refresh_guards_agree sample_cfg upstream_rotation refresh_request empty_store).
  split; reflexivity.
Defined.

(** X29.  The two refresh routes part on an answer whose status is
    a failure while its payload carries an access token and no error:
    [src/index.ts] answers 400 with the payload as body, the first
    server, which never reads the status, answers 200 with the
    token. *)
Theorem refresh_guards_part (cfg : Config) (up : Upstream) (req : Request) (st : Store)
  (cookie : string) (t : SpotifyTokenResponse) :
  field "refresh_token" (req_cookies req) = Some cookie -> cookie <> "" ->
  token_endpoint up (refresh_form cfg (Some cookie)) = Some (false, TokenData t) ->
  access_token t <> "" ->
  fst (run (auth_refresh cfg up req) st) = Some (Send 400 (UpstreamJson (TokenData t)))
  /\ fst (run (legacy_auth_refresh cfg up req) st)
     = Some (Send 200 (TokenJson (Some (access_token t)) (payload_expires_in (TokenData t)))).
Proof.
  intros Hcookie Hne Hup Htoken.
  assert (Hc : JS.truthy (Some cookie) = true) by (destruct cookie; [congruence | reflexivity]).
  assert (Ht : JS.truthy (Some (access_token t)) = true)
    by (destruct (access_token t); [congruence | reflexivity]).
  unfold run, auth_refresh, legacy_auth_refresh. rewrite Hcookie, Hc.
  step_monad. rewrite Hup. step_monad. split; [reflexivity |].
  cbn [payload_error payload_access_token payload_refresh_token JS.truthy].
  destruct (refresh_token t) as [[| c r] |]; reflexivity.
Qed.

Lemma refresh_guards_part_witness :
  fst (run (auth_refresh sample_cfg upstream_token_under_failure refresh_request) empty_store)
  = Some (Send 400 (UpstreamJson (TokenData rotation)))
  /\ fst (run (legacy_auth_refresh sample_cfg upstream_token_under_failure refresh_request)
            empty_store)
     = Some (Send 200 (TokenJson (Some "acc3ss") (Some 3600%Z))).
Proof.
  apply (refresh_guards_part sample_cfg upstream_token_under_failure refresh_request
           empty_store "r3fr3sh" rotation).
  - reflexivity.
  - discriminate.
  - reflexivity.
  - discriminate.
Defined.
